(** * Invoicer: the storage engine ([js/storage.js]) and the calculation
    engine, embedded in Rocq, with the theme manager ([js/theme.js]), the
    save and delete handlers of [js/app.js] and [UI.escapeHtml].

    The embedding follows the JavaScript source operation by operation.

    - JavaScript data is a tree ([value]); a possibly [undefined]
      JavaScript value is an [option value], [None] standing for
      [undefined].  Objects are finite maps from property names to values.
      A finite number is an exact rational (IEEE rounding is outside the
      model); the infinities and NaN are values of their own.
    - [localStorage] is a finite map from keys to stored texts.  A stored
      text is represented by what [JSON.parse] makes of it ([blob]): either
      it is rejected, or it yields a tree, in which a numeral beyond the
      range of the doubles is an infinity.  [JSON.stringify] writes NaN and
      the infinities as [null] ([serialized]), so a text that is read and
      written back is the same text only when it holds no such numeral.
    - Effects are threaded explicitly: a computation takes the [state]
      (the [localStorage] and the heap cells of caller-owned objects) and
      returns a [result] (a value, or the exception thrown) with the state
      it leaves behind.  [try_catch] is JavaScript's [try { } catch (e) { }].
    - What the platform decides ([new Date()], [crypto.randomUUID()], whether
      [localStorage.setItem] accepts a write) is collected in [env], together
      with its [String.prototype.toLowerCase], whose Unicode tables are not
      part of the program.  No property assumes anything about that function
      unless it says so.
    - [console.error] calls are not modelled.  [Storage.init] takes the
      platform's decision twice, for the write of the availability probe and
      for the write of the document.
    - The page ([page]) adds to the state the classes of the root element
      and the alerts shown; reading the form ([UI.getFormData]) and rendering
      into the document are parameters of the handlers. *)

From Stdlib Require Import QArith Ascii.
From stdpp Require Import gmap strings list fin_maps pretty.

Set Warnings "-register-all".
#[local] Open Scope string_scope.

(** ** JavaScript values and primitive operations *)

Module JS.

(** The numbers that are not finite. *)
Inductive nonfinite : Type :=
| Infinity
| NegInfinity
| NaN.

Inductive value : Type :=
| VNull
| VBool (b : bool)
| VNum (q : Q)
| VStr (s : string)
| VArr (l : list value)
| VObj (m : gmap string value)
| VNonFinite (x : nonfinite).

Inductive exn : Type :=
| DOMException (code : N) (name : string)
| TypeError
| SyntaxError
| StorageError (message : string) (code : string).

Inductive result (A : Type) : Type :=
| Ok (a : A)
| Throw (e : exn).
Arguments Ok {A} a.
Arguments Throw {A} e.

#[export] Instance result_ret : MRet result := λ A a, Ok a.
#[export] Instance result_bind : MBind result := λ A B f r,
  match r with Ok a => f a | Throw e => Throw e end.

(** [!!v] of JavaScript: [undefined], [null], [false], [0], [NaN] and the
    empty string are falsy, everything else (every array and object, and
    the infinities) is truthy. *)
Definition truthy (v : option value) : bool :=
  match v with
  | None | Some VNull => false
  | Some (VBool b) => b
  | Some (VNum q) => negb (Qeq_bool q 0)
  | Some (VStr s) => negb (String.eqb s "")
  | Some (VArr _) | Some (VObj _) => true
  | Some (VNonFinite NaN) => false
  | Some (VNonFinite _) => true
  end.

(** [a === b].  Arrays and objects compare by identity; every comparison in
    the storage engine has a freshly parsed document on one side, so two
    arrays or objects are never identical there.  [NaN] is equal to
    nothing, itself included. *)
Definition strict_eq (a b : option value) : bool :=
  match a, b with
  | None, None => true
  | Some VNull, Some VNull => true
  | Some (VBool x), Some (VBool y) => Bool.eqb x y
  | Some (VNum x), Some (VNum y) => Qeq_bool x y
  | Some (VStr x), Some (VStr y) => String.eqb x y
  | Some (VNonFinite Infinity), Some (VNonFinite Infinity) => true
  | Some (VNonFinite NegInfinity), Some (VNonFinite NegInfinity) => true
  | _, _ => false
  end.

(** [typeof v === 'object'] *)
Definition typeof_object (v : option value) : bool :=
  match v with
  | Some VNull | Some (VArr _) | Some (VObj _) => true
  | _ => false
  end.

(** [Array.isArray(v)] *)
Definition isArray (v : option value) : bool :=
  match v with Some (VArr _) => true | _ => false end.

(** [v.k]: a [TypeError] on [undefined] and [null]; on an object the stored
    property or [undefined]; arrays and strings have a [length]; no other
    property name read by the program exists on a primitive or an array. *)
Definition get (v : option value) (k : string) : result (option value) :=
  match v with
  | None | Some VNull => Throw TypeError
  | Some (VObj m) => Ok (m !! k)
  | Some (VArr l) =>
      Ok (if String.eqb k "length" then Some (VNum (inject_Z (Z.of_nat (length l)))) else None)
  | Some (VStr s) =>
      Ok (if String.eqb k "length" then Some (VNum (inject_Z (Z.of_nat (String.length s)))) else None)
  | Some _ => Ok None
  end.

(** [v.k] on a value that is not [null]: the reading of [get] that cannot
    throw. *)
Definition prop (v : value) (k : string) : option value :=
  match v with
  | VObj m => m !! k
  | _ => None
  end.

(** The receiver of an array method ([find], [findIndex], [filter], [some],
    [push]): on anything but an array the method is missing, or the property
    access itself fails, and the call throws a [TypeError]. *)
Definition as_array (v : option value) : result (list value) :=
  match v with
  | Some (VArr l) => Ok l
  | _ => Throw TypeError
  end.

(** The own enumerable properties copied by an object spread [{...v}]. *)
Definition own_props (v : option value) : gmap string value :=
  match v with
  | Some (VObj m) => m
  | Some (VArr l) => list_to_map (imap (λ i x, (pretty i, x)) l)
  | Some (VStr s) =>
      list_to_map (imap (λ i c, (pretty i, VStr (String c ""))) (String.list_ascii_of_string s))
  | _ => ∅
  end.

(** [Array.prototype.find], [findIndex], [filter] and [some] with a callback
    that may throw: elements are visited in order, and the scan stops at the
    first exception, or at the first hit for [find], [findIndex], [some]. *)
Module Array.

Fixpoint find (p : value → result bool) (l : list value) : result (option value) :=
  match l with
  | [] => Ok None
  | x :: l' => b ← p x; if b : bool then Ok (Some x) else find p l'
  end.

Fixpoint findIndex (p : value → result bool) (l : list value) : result (option nat) :=
  match l with
  | [] => Ok None
  | x :: l' => b ← p x; if b : bool then Ok (Some 0) else i ← findIndex p l'; Ok (option_map S i)
  end.

Fixpoint filter (p : value → result bool) (l : list value) : result (list value) :=
  match l with
  | [] => Ok []
  | x :: l' => b ← p x; r ← filter p l'; Ok (if b : bool then x :: r else r)
  end.

Fixpoint some (p : value → result bool) (l : list value) : result bool :=
  match l with
  | [] => Ok false
  | x :: l' => b ← p x; if b : bool then Ok true else some p l'
  end.

End Array.

(** [s.includes(t)]: [t] occurs in [s] at some position. *)
Fixpoint includes (s t : string) : bool :=
  String.prefix t s ||
  match s with
  | EmptyString => false
  | String _ s' => includes s' t
  end.

End JS.
Export JS.

(** ** The browser state and the effect monad *)

Module Effect.

(** A text held by [localStorage], seen through [JSON.parse]: a numeral
    beyond the range of the doubles parses to an infinity. *)
Inductive blob : Type :=
| Unparsable (text : string)
| Json (v : value).

Definition loc := nat.

(** The arguments a caller hands to the storage engine: [undefined], a
    value the caller keeps no reference to, or a reference to an object
    the caller owns, whose properties live in the heap. *)
Inductive arg : Type :=
| Undefined
| Data (v : value)
| Object (r : loc).

Record state : Type := State {
  localStorage : gmap string blob;
  heap : gmap loc (gmap string value)
}.

Record env : Type := Env {
  now : string;                  (* new Date().toISOString() *)
  randomUUID : string;           (* crypto.randomUUID() *)
  setItem_fault : option exn;    (* what localStorage.setItem throws, if anything *)
  toLowerCase : string → string  (* String.prototype.toLowerCase *)
}.

Definition M (A : Type) : Type := state → result A * state.

#[export] Instance M_ret : MRet M := λ A a st, (Ok a, st).
#[export] Instance M_bind : MBind M := λ A B f m st,
  match m st with
  | (Ok a, st') => f a st'
  | (Throw e, st') => (Throw e, st')
  end.

Definition throw {A} (e : exn) : M A := λ st, (Throw e, st).

Definition lift {A} (r : result A) : M A := λ st, (r, st).

Definition try_catch {A} (body : M A) (handler : exn → M A) : M A := λ st,
  match body st with
  | (Ok a, st') => (Ok a, st')
  | (Throw e, st') => handler e st'
  end.

(** [localStorage.getItem(k)] *)
Definition getItem (k : string) : M (option blob) := λ st,
  (Ok (localStorage st !! k), st).

(** [localStorage.setItem(k, text)]: the platform either stores the text or
    throws and stores nothing. *)
Definition setItem (e : env) (k : string) (b : blob) : M () := λ st,
  match setItem_fault e with
  | Some ex => (Throw ex, st)
  | None => (Ok (), {| localStorage := <[k := b]> (localStorage st); heap := heap st |})
  end.

(** [localStorage.length] *)
Definition storage_length : M nat := λ st, (Ok (size (localStorage st)), st).

(** A stored text is falsy exactly when it is the empty string. *)
Definition blob_truthy (b : blob) : bool :=
  match b with
  | Unparsable text => negb (String.eqb text "")
  | Json _ => true
  end.

Definition JSON_parse (b : blob) : result value :=
  match b with
  | Unparsable _ => Throw SyntaxError
  | Json v => Ok v
  end.

(** What [JSON.parse] reads in the text that [JSON.stringify] writes for
    [v]: NaN and the infinities are written as [null], at every depth;
    everything else is read back as it was. *)
Fixpoint serialized (v : value) : value :=
  match v with
  | VNonFinite _ => VNull
  | VArr l => VArr (serialized <$> l)
  | VObj m => VObj (serialized <$> m)
  | _ => v
  end.

Definition JSON_stringify (v : value) : blob := Json (serialized v).

(** The value of a variable holding [a]. *)
Definition value_of (st : state) (a : arg) : option value :=
  match a with
  | Undefined => None
  | Data v => Some v
  | Object r => VObj <$> heap st !! r
  end.

Definition deref (a : arg) : M (option value) := λ st, (Ok (value_of st a), st).

(** [a.k = x].  On a caller-owned object the heap cell is updated in place;
    an assignment to [undefined] or [null] throws. *)
Definition assign (a : arg) (k : string) (x : value) : M arg :=
  match a with
  | Object r => λ st,
      (Ok a, {| localStorage := localStorage st; heap := alter (insert k x) r (heap st) |})
  | Data (VObj m) => mret (Data (VObj (<[k := x]> m)))
  | Data VNull | Undefined => throw TypeError
  | Data _ => mret a
  end.

(** [localStorage.removeItem(k)] *)
Definition removeItem (k : string) : M () := λ st,
  (Ok (), {| localStorage := delete k (localStorage st); heap := heap st |}).

End Effect.
Export Effect.

(** ** The storage engine *)

Module Storage.

Definition STORAGE_KEY : string := "invoicer_data".
Definition APP_VERSION : string := "1.0.0".

Definition _getDefaults : value :=
  VObj (<["version" := VStr APP_VERSION]>
       (<["invoices" := VArr []]>
       (<["settings" := VObj (<["currency" := VStr "USD"]>
                             (<["defaultTaxRate" := VNum 0]> ∅))]> ∅))).

Definition getData : M value :=
  try_catch
    (data ← getItem STORAGE_KEY;
     match data with
     | Some b => if blob_truthy b then lift (JSON_parse b) else mret _getDefaults
     | None => mret _getDefaults
     end)
    (λ _, mret _getDefaults).

Definition _isQuotaExceeded (ex : exn) : M bool :=
  match ex with
  | DOMException code name =>
      n ← storage_length;
      mret ((N.eqb code 22 || N.eqb code 1014 ||
             String.eqb name "QuotaExceededError" ||
             String.eqb name "NS_ERROR_DOM_QUOTA_REACHED")
            && negb (Nat.eqb n 0))
  | _ => mret false
  end.

Definition saveData (e : env) (data : value) : M () :=
  try_catch
    (setItem e STORAGE_KEY (JSON_stringify data))
    (λ ex,
       quota ← _isQuotaExceeded ex;
       if quota : bool
       then throw (StorageError "Storage full. Please delete some invoices." "QUOTA_EXCEEDED")
       else throw (StorageError "Failed to save data." "WRITE_ERROR")).

(** [x || d] *)
Definition or_else (x : option value) (d : value) : value :=
  match x with
  | Some v => if truthy x then v else d
  | None => d
  end.

Definition getInvoices : M value :=
  data ← getData;
  invoices ← lift (get (Some data) "invoices");
  mret (or_else invoices (VArr [])).

Definition getInvoice (id : option value) : M value :=
  invoices ← getInvoices;
  l ← lift (as_array (Some invoices));
  found ← lift (Array.find (λ inv, i ← get (Some inv) "id"; Ok (strict_eq i id)) l);
  mret (or_else found VNull).

Definition _validateInvoice (invoice : option value) : result bool :=
  if negb (truthy invoice) || negb (typeof_object invoice) then Ok false else
  let required := ["client"; "items"] in
  missing ← (fix loop (fields : list string) : result bool :=
               match fields with
               | [] => Ok false
               | field :: rest =>
                   v ← get invoice field;
                   if negb (truthy v) then Ok true else loop rest
               end) required;
  if missing : bool then Ok false else
  client ← get invoice "client";
  name ← get client "name";
  if negb (truthy name) then Ok false else
  items ← get invoice "items";
  if negb (isArray items) then Ok false else
  len ← get items "length";
  if strict_eq len (Some (VNum 0)) then Ok false else
  Ok true.

(** [data.invoices = l], and the array [data.invoices] after an in-place
    update.  [data] is an object whenever [data.invoices] was an array. *)
Definition set_invoices (data : value) (l : list value) : value :=
  match data with
  | VObj m => VObj (<["invoices" := VArr l]> m)
  | _ => data
  end.

Definition saveInvoice (e : env) (invoice : arg) : M bool :=
  arg0 ← deref invoice;
  valid ← lift (_validateInvoice arg0);
  if negb valid then mret false else
  try_catch
    (data ← getData;
     invoices ← lift (get (Some data) "invoices");
     l ← lift (as_array invoices);
     id ← lift (get arg0 "id");
     index ← lift (Array.findIndex (λ inv, i ← get (Some inv) "id"; Ok (strict_eq i id)) l);
     match index with
     | Some i =>
         let merged :=
           VObj (<["updatedAt" := VStr (now e)]> (own_props arg0 ∪ own_props (l !! i))) in
         saveData e (set_invoices data (<[i := merged]> l));;
         mret true
     | None =>
         invoice ← (if negb (truthy id)
                    then assign invoice "id" (VStr (randomUUID e))
                    else mret invoice);
         arg1 ← deref invoice;
         createdDate ← lift (get arg1 "createdDate");
         invoice ← (if negb (truthy createdDate)
                    then assign invoice "createdDate" (VStr (now e))
                    else mret invoice);
         arg2 ← deref invoice;
         saveData e (set_invoices data (l ++ [default VNull arg2]));;
         mret true
     end)
    (λ ex,
       match ex with
       | StorageError _ _ => throw ex
       | _ => mret false
       end).

Definition deleteInvoice (e : env) (id : option value) : M bool :=
  try_catch
    (data ← getData;
     invoices ← lift (get (Some data) "invoices");
     l ← lift (as_array invoices);
     let initialLength := length l in
     kept ← lift (Array.filter (λ inv, i ← get (Some inv) "id"; Ok (negb (strict_eq i id))) l);
     if negb (Nat.eqb (length kept) initialLength)
     then saveData e (set_invoices data kept);; mret true
     else mret false)
    (λ _, mret false).

(** [v && v.toLowerCase().includes(term)], as a condition: a falsy [v] is
    no match, a truthy [v] that is not a string has no [toLowerCase]. *)
Definition lower_includes (e : env) (v : option value) (term : string) : result bool :=
  if truthy v then
    match v with
    | Some (VStr s) => Ok (includes (toLowerCase e s) term)
    | _ => Throw TypeError
    end
  else Ok false.

(** [a || b] as a condition: [b] is evaluated only when [a] is falsy. *)
Definition or_cond (a b : result bool) : result bool :=
  x ← a; if x : bool then Ok true else b.

(** [c && c.k && c.k.toLowerCase().includes(term)], as a condition *)
Definition guarded_includes (e : env) (c : option value) (k : string) (term : string) :
    result bool :=
  if truthy c then v ← get c k; lower_includes e v term else Ok false.

(** The callback of the [filter] in [searchInvoices]. *)
Definition search_match (e : env) (term : string) (inv : value) : result bool :=
  basicMatch ←
    or_cond (id ← get (Some inv) "id"; lower_includes e id term)
   (or_cond (client ← get (Some inv) "client"; guarded_includes e client "name" term)
   (or_cond (client ← get (Some inv) "client"; guarded_includes e client "email" term)
            (status ← get (Some inv) "status"; lower_includes e status term)));
  if basicMatch : bool then Ok true else
  items ← get (Some inv) "items";
  if truthy items && isArray items then
    l ← as_array items;
    Array.some (λ item, d ← get (Some item) "description"; lower_includes e d term) l
  else Ok false.

Definition searchInvoices (e : env) (query : option string) : M value :=
  if negb (truthy (VStr <$> query)) then getInvoices else
  let term := toLowerCase e (default "" query) in
  invoices ← getInvoices;
  l ← lift (as_array (Some invoices));
  hits ← lift (Array.filter (search_match e term) l);
  mret (VArr hits).

(** Modelled from the spec: [Storage.saveSettings] is called by
    [App.handleSaveSettings] but is not defined in the storage engine.  The
    specification gives it the same get/save pattern as the invoice
    operations, restricted to the [settings] property of the document, and
    lets the errors of [saveData] reach the caller. *)
Definition saveSettings (e : env) (settings : value) : M bool :=
  data ← getData;
  saveData e (match data with
              | VObj m => VObj (<["settings" := settings]> m)
              | _ => data
              end);;
  mret true.

(** [Storage._isStorageAvailable]: write a sentinel key and remove it again.
    [probe] is the platform at the time of the sentinel write. *)
Definition _isStorageAvailable (probe : env) : M bool :=
  try_catch
    (let x := "__storage_test__" in
     setItem probe x (Unparsable x);;
     removeItem x;;
     mret true)
    (λ _, mret false).

Definition _initializeDefaults (e : env) : M () := saveData e _getDefaults.

(** [data.version = APP_VERSION], as [JSON.stringify] sees [data]
    afterwards.  The script is not in strict mode: on a number, string or
    boolean the assignment does nothing, and a named property of an array is
    not serialized. *)
Definition set_version (data : value) : value :=
  match data with
  | VObj m => VObj (<["version" := VStr APP_VERSION]> m)
  | _ => data
  end.

(** [Storage.init], run when the script is loaded.  [probe] is the platform
    at the time of the availability probe, [e] at the time the document is
    written. *)
Definition init (probe e : env) : M () :=
  try_catch
    (available ← _isStorageAvailable probe;
     if negb available then mret () else
     rawData ← getItem STORAGE_KEY;
     match rawData with
     | Some b =>
         if blob_truthy b then
           data ← lift (JSON_parse b);
           version ← lift (get (Some data) "version");
           if negb (truthy version) then saveData e (set_version data) else mret ()
         else _initializeDefaults e
     | None => _initializeDefaults e
     end)
    (λ _, mret ()).

End Storage.

(** ** The calculation engine *)

Module Model.

(** Modelled from the spec: a missing numeric input counts as [0]. *)
Definition number (v : option value) : Q :=
  match v with
  | Some (VNum q) => q
  | _ => 0%Q
  end.

(** Modelled from the spec: [amount := quantity × rate] of one line item. *)
Definition amount_of (item : value) : Q :=
  Qred (number (prop item "quantity") * number (prop item "rate"))%Q.

(** Modelled from the spec: the line item with its [amount] set. *)
Definition with_amount (item : value) : value :=
  match item with
  | VObj m => VObj (<["amount" := VNum (amount_of item)]> m)
  | _ => item
  end.

(** Modelled from the spec: the line items of an invoice, none when the
    invoice has no [items] sequence. *)
Definition items_of (invoice : gmap string value) : list value :=
  match invoice !! "items" with
  | Some (VArr l) => l
  | _ => []
  end.

(** Modelled from the spec: [Σ amount] over the line items. *)
Definition sum_amounts (items : list value) : Q :=
  foldr (λ item acc, amount_of item + acc)%Q 0%Q items.

(** Modelled from the spec: the invoice with the amounts of its line items
    set; an invoice without an [items] sequence is left as it is. *)
Definition with_amounts (invoice : gmap string value) : gmap string value :=
  match invoice !! "items" with
  | Some (VArr l) => <["items" := VArr (with_amount <$> l)]> invoice
  | _ => invoice
  end.

(** Modelled from the spec: [Model.calculateInvoice] lives in [js/model.js],
    which is not among the sources; only its callers ([UI.getFormData]) are.
    Section 4.4 of the specification: for every item,
    [amount := quantity × rate]; [subtotal := Σ amount];
    [taxAmount := subtotal × taxRate / 100];
    [total := subtotal + taxAmount]; a pure function that never fails and
    defaults missing numeric inputs to [0]. *)
Definition calculateInvoice (invoice : gmap string value) : gmap string value :=
  let subtotal := Qred (sum_amounts (items_of invoice)) in
  let taxAmount := Qred (subtotal * number (invoice !! "taxRate") / 100)%Q in
  let total := Qred (subtotal + taxAmount)%Q in
  <["total" := VNum total]>
    (<["taxAmount" := VNum taxAmount]>
      (<["subtotal" := VNum subtotal]> (with_amounts invoice))).

End Model.

(** ** Vocabulary of the properties

    The properties below are stated with these definitions.  Those in
    quotes follow the wording of the specification rather than the code;
    the others name the states and values that the operations produce. *)

Module Spec.

(** "absent": [undefined] or [null] *)
Definition absent (v : option value) : bool :=
  match v with
  | None | Some VNull => true
  | _ => false
  end.

(** "is an object" *)
Definition is_object (v : option value) : bool :=
  match v with
  | Some (VObj _) => true
  | _ => false
  end.

(** The property [k] of a possibly [undefined] value, [undefined] when
    there is none. *)
Definition field (v : option value) (k : string) : option value :=
  match v with
  | Some x => prop x k
  | None => None
  end.

(** The validation rule, negated: the invoice is not an object, or [client]
    is absent, or [client.name] is empty, or [items] is absent, not a
    sequence, or empty. *)
Definition violates_validation (invoice : option value) : bool :=
  negb (is_object invoice)
  || absent (field invoice "client")
  || absent (field (field invoice "client") "name")
  || strict_eq (field (field invoice "client") "name") (Some (VStr ""))
  || absent (field invoice "items")
  || negb (isArray (field invoice "items"))
  || match field invoice "items" with Some (VArr []) => true | _ => false end.

(** "a non-empty sequence" *)
Definition nonempty_array (v : option value) : bool :=
  match v with
  | Some (VArr (_ :: _)) => true
  | _ => false
  end.

(** The stored document as [getData] sees it, and its invoices; none when
    the document has no [invoices] sequence. *)
Definition stored_document (st : state) : value :=
  match localStorage st !! Storage.STORAGE_KEY with
  | Some (Json v) => v
  | _ => Storage._getDefaults
  end.

Definition stored_invoices (st : state) : list value :=
  match prop (stored_document st) "invoices" with
  | Some (VArr l) => l
  | _ => []
  end.

(** "an invoice with the same id" *)
Definition same_id (id : option value) (inv : value) : bool :=
  strict_eq (prop inv "id") id.

(** An id that is [undefined] or a primitive value: the data model has
    string ids. *)
Definition primitive (v : option value) : bool :=
  match v with
  | Some (VArr _) | Some (VObj _) => false
  | _ => true
  end.

(** An id that is [undefined] or a primitive value that JSON can write:
    [null], a boolean, a finite number or a string. *)
Definition json_primitive (v : option value) : bool :=
  match v with
  | None | Some VNull | Some (VBool _) | Some (VNum _) | Some (VStr _) => true
  | _ => false
  end.

(** A value that is read back as it was written: it holds no NaN and no
    infinity, so for a stored document no numeral beyond the range of the
    doubles.  Every document the application has written is of this kind. *)
Definition storable (v : value) : Prop := serialized v = v.

(** [old], at index [i], is the first stored invoice with the id [id]. *)
Definition first_match (id : option value) (l : list value) (i : nat) (old : value) : Prop :=
  l !! i = Some old ∧ same_id id old = true ∧
  ∀ j y, l !! j = Some y → j < i → same_id id y = false.

(** The stored document loads as an application document: an object whose
    [invoices] property is a sequence of objects. *)
Definition loads (st : state) (data : gmap string value) (l : list value) : Prop :=
  Storage.getData st = (Ok (VObj data), st) ∧
  data !! "invoices" = Some (VArr l) ∧
  Forall (λ x, is_object (Some x) = true) l.

(** The storage-layer quota signal: a [DOMException] carrying one of the
    platform's quota codes or names. *)
Definition quota_signal (ex : exn) : bool :=
  match ex with
  | DOMException code name =>
      N.eqb code 22 || N.eqb code 1014 ||
      String.eqb name "QuotaExceededError" ||
      String.eqb name "NS_ERROR_DOM_QUOTA_REACHED"
  | _ => false
  end.

Definition QuotaExceeded : exn :=
  StorageError "Storage full. Please delete some invoices." "QUOTA_EXCEEDED".

Definition WriteError : exn :=
  StorageError "Failed to save data." "WRITE_ERROR".

(** The error [saveData] raises when the platform rejects the write with
    [ex]: the quota signal is acknowledged only while [localStorage] holds
    at least one entry. *)
Definition storage_error (ex : exn) (st : state) : exn :=
  if quota_signal ex && negb (Nat.eqb (size (localStorage st)) 0)
  then QuotaExceeded
  else WriteError.

(** "[t] is a substring of [s]" *)
Definition occurs_in (t s : string) : Prop :=
  ∃ a b : string, s = String.append a (String.append t b).

(** "the lowercased query is a substring of" a property: the property holds
    a text, which is not empty, and the query, lowercased, occurs in that
    text, lowercased. *)
Definition found_in (e : env) (query : string) (v : option value) : Prop :=
  ∃ s, v = Some (VStr s) ∧ s ≠ "" ∧ occurs_in (toLowerCase e query) (toLowerCase e s).

(** The same, as the function the search computes. *)
Definition hit (e : env) (query : string) (v : option value) : bool :=
  match v with
  | Some (VStr s) =>
      negb (String.eqb s "") && includes (toLowerCase e s) (toLowerCase e query)
  | _ => false
  end.

Definition line_items (inv : value) : list value :=
  match prop inv "items" with
  | Some (VArr items) => items
  | _ => []
  end.

(** The query matches the invoice id, the client name, the client email,
    the status, or any line item's description. *)
Definition matches (e : env) (query : string) (inv : value) : bool :=
  hit e query (prop inv "id")
  || hit e query (field (prop inv "client") "name")
  || hit e query (field (prop inv "client") "email")
  || hit e query (prop inv "status")
  || existsb (λ item, hit e query (prop item "description")) (line_items inv).

(** Letter case, for the texts on which it needs no Unicode table.
    [ascii_lowercase] turns the letters A to Z into a to z and leaves every
    other character alone. *)
Definition ascii_lower (c : ascii) : ascii :=
  let n := nat_of_ascii c in
  if (65 <=? n)%nat && (n <=? 90)%nat then ascii_of_nat (n + 32) else c.

Fixpoint ascii_lowercase (s : string) : string :=
  match s with
  | EmptyString => EmptyString
  | String c s' => String (ascii_lower c) (ascii_lowercase s')
  end.

Fixpoint is_ascii (s : string) : bool :=
  match s with
  | EmptyString => true
  | String c s' => (nat_of_ascii c <? 128)%nat && is_ascii s'
  end.

(** What the properties about letter case assume of the platform: on an
    ASCII text, [toLowerCase] lowercases the letters A to Z and nothing
    else. *)
Definition lowercases_ascii (e : env) : Prop :=
  ∀ s, is_ascii s = true → toLowerCase e s = ascii_lowercase s.

(** "case-insensitive": two characters are the same letter when they are
    equal, or one is a capital from A to Z and the other its small letter;
    two texts are equal up to case when they are so character by
    character. *)
Definition capital (c : ascii) : Prop :=
  (65 ≤ nat_of_ascii c ∧ nat_of_ascii c ≤ 90)%nat.

Definition same_letter (c d : ascii) : Prop :=
  c = d
  ∨ (capital c ∧ nat_of_ascii d = nat_of_ascii c + 32)%nat
  ∨ (capital d ∧ nat_of_ascii c = nat_of_ascii d + 32)%nat.

Fixpoint equal_ignoring_case (s t : string) : Prop :=
  match s, t with
  | EmptyString, EmptyString => True
  | String c s', String d t' => same_letter c d ∧ equal_ignoring_case s' t'
  | _, _ => False
  end.

(** What the data model asks of a stored invoice for searching: it is an
    object, and its id, client name, client email, status and item
    descriptions are strings where they are present; line items are
    objects. *)
Definition textual (v : option value) : bool :=
  negb (truthy v) || match v with Some (VStr _) => true | _ => false end.

Definition searchable (inv : value) : bool :=
  is_object (Some inv)
  && textual (prop inv "id")
  && textual (field (prop inv "client") "name")
  && textual (field (prop inv "client") "email")
  && textual (prop inv "status")
  && match prop inv "items" with
     | Some (VArr items) =>
         forallb (λ item, is_object (Some item) && textual (prop item "description")) items
     | _ => true
     end.

(** The invoice object after the create branch has stamped it. *)
Definition stamp_id (e : env) (inv : gmap string value) : gmap string value :=
  if truthy (inv !! "id") then inv else <["id" := VStr (randomUUID e)]> inv.

Definition stamp_createdDate (e : env) (inv : gmap string value) : gmap string value :=
  if truthy (inv !! "createdDate") then inv else <["createdDate" := VStr (now e)]> inv.

Definition created (e : env) (inv : gmap string value) : gmap string value :=
  stamp_createdDate e (stamp_id e inv).

(** The shallow merge of the update branch. *)
Definition merged (e : env) (inv : gmap string value) (old : option value) : gmap string value :=
  <["updatedAt" := VStr (now e)]> (inv ∪ own_props old).

(** The document with its invoices replaced. *)
Definition with_invoices (data : gmap string value) (l : list value) : value :=
  VObj (<["invoices" := VArr l]> data).

(** The state in which the caller's object [r] holds [obj]. *)
Definition with_object (st : state) (r : loc) (obj : gmap string value) : state :=
  {| localStorage := localStorage st; heap := <[r := obj]> (heap st) |}.

(** The callback of the scans by id. *)
Definition id_is (id : option value) (inv : value) : result bool :=
  i ← get (Some inv) "id"; Ok (strict_eq i id).

(** The nesting depth of a value, on which the properties of [serialized]
    are proved. *)
Fixpoint depth (v : value) : nat :=
  match v with
  | VArr l => S (foldr (λ x acc, depth x `max` acc) 0 l)
  | VObj m => S (map_fold (λ _ x acc, depth x `max` acc) 0 m)
  | _ => 0
  end.

(** The state after a successful write of [data]. *)
Definition written (st : state) (data : value) : state :=
  {| localStorage := <[Storage.STORAGE_KEY := JSON_stringify data]> (localStorage st);
     heap := heap st |}.

End Spec.

(** ** Sample data *)

Module Sample.

Definition obj (fields : list (string * value)) : gmap string value :=
  list_to_map fields.

(** The invoice stored under the id [a1]. *)
Definition globex : gmap string value :=
  obj [("id", VStr "a1");
       ("createdDate", VStr "2025-11-03");
       ("status", VStr "draft");
       ("client", VObj (obj [("name", VStr "Globex")]));
       ("items", VArr [VObj (obj [("description", VStr "Audit"); ("quantity", VNum 2);
                                   ("rate", VNum 90); ("amount", VNum 180)])]);
       ("notes", VStr "net 30")].

(** An update of [a1] that carries no [notes]. *)
Definition globex_update : gmap string value :=
  obj [("id", VStr "a1");
       ("client", VObj (obj [("name", VStr "Globex Ltd")]));
       ("items", VArr [VObj (obj [("description", VStr "Audit"); ("quantity", VNum 3);
                                   ("rate", VNum 90); ("amount", VNum 270)])])].

(** A new invoice, as the editor form builds it: the id is the empty
    string. *)
Definition acme : gmap string value :=
  obj [("id", VStr "");
       ("createdDate", VStr "");
       ("status", VStr "draft");
       ("client", VObj (obj [("name", VStr "Acme"); ("email", VStr "billing@acme.com")]));
       ("items", VArr [VObj (obj [("description", VStr "Hosting"); ("quantity", VNum 1);
                                   ("rate", VNum 500); ("amount", VNum 500)])]);
       ("notes", VStr "")].

(** An invoice whose id is an object. *)
Definition odd_id : gmap string value :=
  obj [("id", VObj ∅);
       ("client", VObj (obj [("name", VStr "Initech")]));
       ("items", VArr [VObj (obj [("description", VStr "Support")])])].

(** The two invoices of the search example: Acme with a hosting item, and
    Globex without items. *)
Definition search_document : gmap string value :=
  obj [("version", VStr "1.0.0");
       ("invoices",
        VArr [VObj (obj [("client", VObj (obj [("name", VStr "Acme")]));
                         ("items", VArr [VObj (obj [("description", VStr "Hosting")])])]);
              VObj (obj [("client", VObj (obj [("name", VStr "Globex")]))])])].

Definition search_browser : state :=
  {| localStorage := <["invoicer_data" := Json (VObj search_document)]> ∅; heap := ∅ |}.

(** Forty hours at 75 and one setup fee of 500, taxed at 8.5 percent. *)
Definition consulting : gmap string value :=
  obj [("items", VArr [VObj (obj [("quantity", VNum 40); ("rate", VNum 75)]);
                       VObj (obj [("quantity", VNum 1); ("rate", VNum 500)])]);
       ("taxRate", VNum 8.5)].

(** [{client: {name: ""}, items: []}] *)
Definition blank : gmap string value :=
  obj [("client", VObj (obj [("name", VStr "")])); ("items", VArr [])].

Definition document : gmap string value :=
  obj [("version", VStr "1.0.0");
       ("invoices", VArr [VObj globex]);
       ("settings", VObj (obj [("currency", VStr "USD"); ("defaultTaxRate", VNum 0)]))].

(** A browser holding [document] and a theme preference; the caller owns
    four invoice objects. *)
Definition browser : state :=
  {| localStorage :=
       <["invoicer_data" := Json (VObj document)]>
         (<["invoicer-theme" := Unparsable "dark"]> ∅);
     heap := <[0 := acme]> (<[1 := globex_update]> (<[2 := blank]> (<[3 := odd_id]> ∅))) |}.

(** A browser that has stored nothing yet. *)
Definition fresh_browser : state := {| localStorage := ∅; heap := <[0 := acme]> ∅ |}.

(** A browser whose stored text is damaged. *)
Definition damaged_browser : state :=
  {| localStorage := <["invoicer_data" := Unparsable "{'version':"]> ∅; heap := ∅ |}.

(** The lowercasing of the sample platform, on texts in UTF-8: the letters
    A to Z, and the capital letters of the Latin-1 supplement (the byte 195
    followed by a byte from 128 to 158, the multiplication sign 151
    apart). *)
Definition latin1_capital (c d : ascii) : bool :=
  (nat_of_ascii c =? 195)%nat && (128 <=? nat_of_ascii d)%nat
  && (nat_of_ascii d <=? 158)%nat && negb (nat_of_ascii d =? 151)%nat.

Fixpoint lowercase (s : string) : string :=
  match s with
  | EmptyString => EmptyString
  | String c t =>
      match t with
      | String d t' =>
          if latin1_capital c d
          then String c (String (ascii_of_nat (nat_of_ascii d + 32)) (lowercase t'))
          else String (Spec.ascii_lower c) (lowercase t)
      | EmptyString => String (Spec.ascii_lower c) EmptyString
      end
  end.

Definition accepting : env :=
  {| now := "2026-01-15T09:30:00.000Z";
     randomUUID := "6f1c2b9e-58a4-4d7b-9c31-0a2e7d4f8b10";
     setItem_fault := None;
     toLowerCase := lowercase |}.

Definition quota_error : exn := DOMException 22 "QuotaExceededError".

Definition full : env :=
  {| now := "2026-01-15T09:30:00.000Z";
     randomUUID := "6f1c2b9e-58a4-4d7b-9c31-0a2e7d4f8b10";
     setItem_fault := Some quota_error;
     toLowerCase := lowercase |}.

End Sample.

(** ** The page: the browser state, the classes of the root element and
    the alerts shown *)

Module Page.

(** What [alert] displays: a text of the program, or the [message] of a
    caught exception. *)
Inductive shown : Type :=
| Message (text : string)
| ErrorMessage (ex : exn).

Record page : Type := PageState {
  browser : state;
  classList : gset string;       (* document.documentElement.classList *)
  alerts : list shown            (* the alerts shown so far, oldest first *)
}.

Definition P (A : Type) : Type := page → result A * page.

#[export] Instance P_ret : MRet P := λ A a pg, (Ok a, pg).
#[export] Instance P_bind : MBind P := λ A B f m pg,
  match m pg with
  | (Ok a, pg') => f a pg'
  | (Throw e, pg') => (Throw e, pg')
  end.

(** A computation of the storage layer, run in the page. *)
Definition run {A} (m : M A) : P A := λ pg,
  match m (browser pg) with
  | (r, st') => (r, {| browser := st'; classList := classList pg; alerts := alerts pg |})
  end.

Definition try_catch_page {A} (body : P A) (handler : exn → P A) : P A := λ pg,
  match body pg with
  | (Ok a, pg') => (Ok a, pg')
  | (Throw e, pg') => handler e pg'
  end.

(** [alert(...)] *)
Definition alert (what : shown) : P () := λ pg,
  (Ok (), {| browser := browser pg; classList := classList pg;
             alerts := alerts pg ++ [what] |}).

End Page.
Export Page.

(** ** The theme manager *)

Module ThemeManager.

Definition STORAGE_KEY : string := "invoicer-theme".
Definition DARK_CLASS : string := "dark".
Definition LIGHT_CLASS : string := "light".

(** [theme === name] for a stored text [theme] and one of the two theme
    names, neither of which is a JSON text. *)
Definition theme_is (theme : blob) (name : string) : bool :=
  match theme with
  | Unparsable text => String.eqb text name
  | Json _ => false
  end.

Definition getStoredTheme : M blob :=
  stored ← getItem STORAGE_KEY;
  mret (match stored with
        | Some b => if blob_truthy b then b else Unparsable "dark"
        | None => Unparsable "dark"
        end).

Definition applyTheme (theme : blob) : P () := λ pg,
  (Ok (),
   {| browser := browser pg;
      classList :=
        if theme_is theme "light"
        then (classList pg ∖ {[DARK_CLASS]}) ∪ {[LIGHT_CLASS]}
        else (classList pg ∖ {[LIGHT_CLASS]}) ∪ {[DARK_CLASS]};
      alerts := alerts pg |}).

Definition toggleTheme (e : env) : P () :=
  currentTheme ← run getStoredTheme;
  let newTheme := if theme_is currentTheme "dark" then "light" else "dark" in
  run (setItem e STORAGE_KEY (Unparsable newTheme));;
  applyTheme (Unparsable newTheme).

(** [init], without the registration of the click handler. *)
Definition init : P () :=
  theme ← run getStoredTheme;
  applyTheme theme.

End ThemeManager.

(** ** The UI controller: [escapeHtml] *)

Module UI.

(** [s.replace(/c/g, r)] for a one-character pattern *)
Fixpoint replaceAll (c : ascii) (r : string) (s : string) : string :=
  match s with
  | EmptyString => EmptyString
  | String d s' =>
      if Ascii.eqb d c then String.append r (replaceAll c r s')
      else String d (replaceAll c r s')
  end.

(** The double quote character. *)
Definition dquote : ascii := "034"%char.

(** [UI.escapeHtml], on the strings its documentation gives it; [None] is
    [undefined].  The five replacements are those of the source, in its
    order: the first three put the character itself. *)
Definition escapeHtml (str : option string) : string :=
  if negb (truthy (VStr <$> str)) then "" else
  replaceAll "'"%char "&#039;"
    (replaceAll dquote "&quot;"
      (replaceAll ">"%char ">"
        (replaceAll "<"%char "<"
          (replaceAll "&"%char "&" (default "" str))))).

End UI.

(** ** The application controller: saving and deleting *)

Module App.

(** [App.handleSave].  [getFormData] stands for [UI.getFormData], which
    reads the form in the document and is called before the [try] block;
    [loadDashboard] stands for [App.loadDashboard], which renders into the
    document. *)
Definition handleSave (getFormData : P arg) (loadDashboard : P ()) (e : env) : P () :=
  invoiceData ← getFormData;
  try_catch_page
    (success ← run (Storage.saveInvoice e invoiceData);
     if success : bool
     then loadDashboard
     else alert (Message "Failed to save invoice. Please check data."))
    (λ ex, alert (ErrorMessage ex)).

(** [App.handleDelete]; [confirmed] is what [confirm(...)] returned. *)
Definition handleDelete (loadDashboard : P ()) (confirmed : bool) (e : env)
    (id : option value) : P () :=
  if confirmed then
    deleted ← run (Storage.deleteInvoice e id);
    if deleted : bool
    then loadDashboard
    else alert (Message "Failed to delete invoice.")
  else mret ().

End App.

(** ** Vocabulary of the further properties *)

Module Frame.

(** The computation leaves the state as it found it, whatever it returns
    or throws. *)
Definition read_only {A} (m : M A) : Prop := ∀ st, (m st).2 = st.

(** The computation changes no [localStorage] key outside [keys]. *)
Definition touches_only {A} (keys : list string) (m : M A) : Prop :=
  ∀ st k, k ∉ keys → localStorage (m st).2 !! k = localStorage st !! k.

(** No two invoices of the list have the same id. *)
Fixpoint distinct_ids (l : list value) : Prop :=
  match l with
  | [] => True
  | x :: l' => (∀ y, y ∈ l' → Spec.same_id (prop x "id") y = false) ∧ distinct_ids l'
  end.

(** The character occurs in the string. *)
Fixpoint occurs (c : ascii) (s : string) : bool :=
  match s with
  | EmptyString => false
  | String d s' => Ascii.eqb d c || occurs c s'
  end.

(** The stored theme is one of the two themes. *)
Definition valid_theme (theme : blob) : bool :=
  ThemeManager.theme_is theme "dark" || ThemeManager.theme_is theme "light".

(** The theme that [getStoredTheme] reads in a state. *)
Definition current_theme (st : state) : blob :=
  match localStorage st !! ThemeManager.STORAGE_KEY with
  | Some b => if blob_truthy b then b else Unparsable "dark"
  | None => Unparsable "dark"
  end.

(** The state after [toggleTheme] has stored the theme [name]. *)
Definition themed (st : state) (name : string) : state :=
  {| localStorage := <[ThemeManager.STORAGE_KEY := Unparsable name]> (localStorage st);
     heap := heap st |}.

(** The stored text under a key, at the page. *)
Definition stored_text (pg : page) (k : string) : option blob :=
  localStorage (browser pg) !! k.

(** The state after the availability probe has written and removed its
    sentinel. *)
Definition probed (st : state) : state :=
  {| localStorage := delete "__storage_test__" (localStorage st); heap := heap st |}.

(** The document that [Storage.init] hands to [saveData], if any. *)
Definition init_write (st : state) : option value :=
  match localStorage st !! Storage.STORAGE_KEY with
  | None => Some Storage._getDefaults
  | Some (Unparsable text) => if String.eqb text "" then Some Storage._getDefaults else None
  | Some (Json VNull) => None
  | Some (Json v) => if truthy (prop v "version") then None else Some (Storage.set_version v)
  end.

End Frame.

(** ** More sample data *)

Module Sample2.

(** A stored document that [Storage.init] has stamped but that never had
    invoices: [{"version": "1.0.0"}]. *)
Definition bare_browser : state :=
  {| localStorage := <["invoicer_data" := Json (VObj (Sample.obj [("version", VStr "1.0.0")]))]> ∅;
     heap := <[0 := Sample.acme]> ∅ |}.

(** A legacy document without a version tag. *)
Definition legacy_document : gmap string value :=
  Sample.obj [("invoices", VArr [VObj Sample.globex])].

Definition legacy_browser : state :=
  {| localStorage := <["invoicer_data" := Json (VObj legacy_document)]> ∅; heap := ∅ |}.

(** The stored text is the JSON text [null]. *)
Definition null_browser : state :=
  {| localStorage := <["invoicer_data" := Json VNull]> ∅; heap := ∅ |}.

(** A stored invoice whose id is the number 7. *)
Definition numbered : gmap string value :=
  Sample.obj [("id", VNum 7); ("client", VObj (Sample.obj [("name", VStr "Hooli")]));
              ("items", VArr [VObj (Sample.obj [("description", VStr "Licence")])])].

Definition numbered_document : gmap string value :=
  Sample.obj [("version", VStr "1.0.0"); ("invoices", VArr [VObj numbered])].

Definition numbered_browser : state :=
  {| localStorage := <["invoicer_data" := Json (VObj numbered_document)]> ∅; heap := ∅ |}.

(** The page of [Sample.browser], in dark mode, with one unrelated class. *)
Definition dark_page : page :=
  {| browser := Sample.browser; classList := {["dark"; "no-js"]}; alerts := [] |}.


(** [Sample.browser] after the new invoice of Acme has been saved, and
    after the invoice [a1] has been deleted. *)
Definition saved_browser : state :=
  (Storage.saveInvoice Sample.accepting (Object 0) Sample.browser).2.

Definition emptied_browser : state :=
  (Storage.deleteInvoice Sample.accepting (Some (VStr "a1")) Sample.browser).2.

(** The client name [école Ünal] and the query [ÉCOLE], in UTF-8, and a
    browser that stores one invoice of that client. *)
Definition ecole_name : string :=
  String "195"%char (String "169"%char
    (String.append "cole " (String "195"%char (String "156"%char "nal")))).

Definition ecole_query : string := String "195"%char (String "137"%char "COLE").

Definition ecole : gmap string value :=
  Sample.obj [("id", VStr "e1"); ("client", VObj (Sample.obj [("name", VStr ecole_name)]));
              ("items", VArr [VObj (Sample.obj [("description", VStr "Cours")])])].

Definition ecole_document : gmap string value :=
  Sample.obj [("version", VStr "1.0.0"); ("invoices", VArr [VObj ecole])].

Definition ecole_browser : state :=
  {| localStorage := <["invoicer_data" := Json (VObj ecole_document)]> ∅; heap := ∅ |}.

(** An invoice whose line amount has overflowed to [Infinity], in the hands
    of the caller, and a legacy document, without a version, whose stored
    text holds the numeral [1e400]. *)
Definition overflowed : gmap string value :=
  Sample.obj [("id", VStr "");
              ("client", VObj (Sample.obj [("name", VStr "Umbrella")]));
              ("items", VArr [VObj (Sample.obj [("description", VStr "Bullion");
                                                ("amount", VNonFinite Infinity)])])].

Definition overflow_browser : state :=
  {| localStorage := localStorage Sample.browser; heap := <[0 := overflowed]> ∅ |}.

Definition huge : gmap string value :=
  Sample.obj [("id", VStr "h1"); ("client", VObj (Sample.obj [("name", VStr "Hooli")]));
              ("items", VArr [VObj (Sample.obj [("description", VStr "Licence")])]);
              ("total", VNonFinite Infinity)].

Definition huge_document : gmap string value :=
  Sample.obj [("invoices", VArr [VObj huge])].

Definition huge_browser : state :=
  {| localStorage := <["invoicer_data" := Json (VObj huge_document)]> ∅; heap := ∅ |}.

(** An environment whose writes the platform refuses without a quota
    signal. *)
Definition failing : env :=
  {| now := "2026-01-15T09:30:00.000Z";
     randomUUID := "6f1c2b9e-58a4-4d7b-9c31-0a2e7d4f8b10";
     setItem_fault := Some (DOMException 18 "SecurityError");
     toLowerCase := Sample.lowercase |}.

End Sample2.

Import Storage Spec.

(** * Properties *)

(** ** Running the effect monad *)

Lemma bind_Ok {A B} (m : M A) (f : A → M B) st a st' :
  m st = (Ok a, st') → (m ≫= f) st = f a st'.
Proof. intros H. unfold mbind, M_bind. by rewrite H. Qed.

Lemma bind_Throw {A B} (m : M A) (f : A → M B) st ex st' :
  m st = (Throw ex, st') → (m ≫= f) st = (Throw ex, st').
Proof. intros H. unfold mbind, M_bind. by rewrite H. Qed.

Lemma getData_run st : getData st = (Ok (stored_document st), st).
Proof.
  unfold getData, try_catch, stored_document, mbind, M_bind, getItem.
  destruct (localStorage st !! STORAGE_KEY) as [[text|v]|]; try done.
  cbn. by destruct (negb _).
Qed.

(** ** Validation *)

Lemma get_truthy v k : truthy v = true → get v k = Ok (field v k) ∨ k = "length".
Proof.
  destruct v as [[]|]; try done; intros _; cbn [get field prop];
    try (by left); destruct (String.eqb k "length") eqn:E;
    try (by left); right; by apply String.eqb_eq.
Qed.

Lemma length_is_zero (l : list value) :
  strict_eq (Some (VNum (inject_Z (Z.of_nat (length l))))) (Some (VNum 0)) =
  match l with [] => true | _ => false end.
Proof. by destruct l. Qed.

Lemma validate_object (m : gmap string value) :
  _validateInvoice (Some (VObj m)) =
  Ok (truthy (m !! "client") && truthy (m !! "items")
      && truthy (field (m !! "client") "name") && nonempty_array (m !! "items")).
Proof.
  unfold _validateInvoice. cbn [truthy typeof_object negb orb get mbind result_bind].
  destruct (truthy (m !! "client")) eqn:Hc; cbn [negb andb]; [|done].
  destruct (truthy (m !! "items")) eqn:Hi; cbn [negb andb]; [|done].
  destruct (get_truthy _ "name" Hc) as [->|?]; [|done].
  cbn [mbind result_bind].
  destruct (truthy (field _ "name")); cbn [negb andb]; [|done].
  destruct (m !! "items") as [[]|]; try done.
  cbn [isArray negb get String.eqb Ascii.eqb Bool.eqb mbind result_bind].
  rewrite length_is_zero. by destruct l.
Qed.

Lemma validate_not_object v :
  is_object v = false → _validateInvoice v = Ok false.
Proof.
  destruct v as [[| b | q | s | l | m | x]|]; try done; intros _; unfold _validateInvoice;
    cbn [truthy typeof_object negb orb]; try done.
  - by destruct b.
  - by destruct (negb _).
  - by destruct (negb _).
  - by destruct x.
Qed.

Lemma validate_total v : ∃ b, _validateInvoice v = Ok b.
Proof.
  destruct (is_object v) eqn:E.
  - destruct v as [[]|]; try done. rewrite validate_object. eauto.
  - rewrite validate_not_object; eauto.
Qed.

Lemma validate_violates v :
  violates_validation v = true → _validateInvoice v = Ok false.
Proof.
  intros Hv. destruct (is_object v) eqn:E; [|by apply validate_not_object].
  destruct v as [[| | | | |m|]|]; try done.
  rewrite validate_object. f_equal.
  unfold violates_validation in Hv. cbn [is_object negb orb field prop] in Hv.
  destruct (m !! "client") as [c|] eqn:Hc; [|done].
  destruct (truthy (Some c)) eqn:Tc; [|done]. cbn [andb].
  destruct (m !! "items") as [i|] eqn:Hi; [|done].
  destruct (truthy (Some i)) eqn:Ti; [|done]. cbn [andb].
  destruct (field (Some c) "name") as [nm|] eqn:Hn; [|done].
  destruct (truthy (Some nm)) eqn:Tn; cbn [andb]; [|done].
  assert (strict_eq (Some nm) (Some (VStr "")) = false) as Hne.
  { destruct nm as [| | |n| | |x]; try done; [|by destruct x].
    cbn in Tn |- *. by destruct (String.eqb n ""). }
  rewrite Hne in Hv. clear Hn Hne Hc Hi.
  destruct c; try done; destruct nm; try done; by destruct i as [| | | |[]| |].
Qed.

(** ** C2: an invalid invoice is rejected without a write *)

(** C2.  An invoice that violates the validation rule (it is not an object,
    or its client is absent, or the client's name is empty, or its items
    are absent, not a sequence, or empty) makes [saveInvoice] return
    [false], not an exception, and the state, hence the stored document and
    its invoice count, is exactly what it was. *)
Theorem saveInvoice_rejects_invalid (e : env) (invoice : arg) (st : state) :
  violates_validation (value_of st invoice) = true →
  saveInvoice e invoice st = (Ok false, st).
Proof.
  intros Hv. unfold saveInvoice, deref, mbind, M_bind, lift.
  by rewrite (validate_violates _ Hv).
Qed.

(** ** Writing the document *)

Lemma saveData_accepted e data st :
  setItem_fault e = None → saveData e data st = (Ok (), written st data).
Proof.
  intros H. unfold saveData, try_catch, setItem. by rewrite H.
Qed.

Lemma saveData_rejected e data st ex :
  setItem_fault e = Some ex →
  saveData e data st = (Throw (storage_error ex st), st).
Proof.
  intros H. unfold saveData, try_catch, setItem, storage_error. rewrite H.
  destruct ex as [code name| | |]; try done.
  unfold _isQuotaExceeded, storage_length, mbind, M_bind, mret, M_ret, quota_signal.
  by destruct (_ && _).
Qed.

(** ** Running [saveInvoice] *)

Lemma assign_object r k x m st :
  heap st !! r = Some m →
  assign (Object r) k x st = (Ok (Object r), with_object st r (<[k := x]> m)).
Proof.
  intros H. unfold assign, with_object. do 2 f_equal.
  apply map_eq; intros j. rewrite lookup_alter, lookup_insert.
  destruct (decide (r = j)) as [->|]; [by rewrite H|done].
Qed.

Lemma with_object_same st r m :
  heap st !! r = Some m → with_object st r m = st.
Proof.
  intros H. destruct st as [ls hp]. unfold with_object. cbn in *.
  by rewrite insert_id.
Qed.

Lemma with_object_twice st r m m' :
  with_object (with_object st r m) r m' = with_object st r m'.
Proof. unfold with_object. cbn. by rewrite insert_insert_eq. Qed.

Lemma stamp_step r k x m st :
  heap st !! r = Some m →
  (if negb (truthy (m !! k)) then assign (Object r) k x else mret (Object r)) st =
  (Ok (Object r), with_object st r (if truthy (m !! k) then m else <[k := x]> m)).
Proof.
  intros H. destruct (truthy (m !! k)); cbn [negb].
  - by rewrite with_object_same.
  - by apply assign_object.
Qed.

Lemma heap_with_object st r m : heap (with_object st r m) !! r = Some m.
Proof. unfold with_object. cbn. apply lookup_insert_eq. Qed.

Lemma storage_error_is_StorageError ex st :
  storage_error ex st = QuotaExceeded ∨ storage_error ex st = WriteError.
Proof. unfold storage_error. destruct (_ && _); auto. Qed.

Lemma rethrow_storage_error ex st st' :
  match storage_error ex st with
  | StorageError _ _ => throw (storage_error ex st)
  | _ => mret false
  end st' = (Throw (storage_error ex st), st').
Proof. by destruct (storage_error_is_StorageError ex st) as [-> | ->]. Qed.

Lemma saveInvoice_run e r inv st data l index :
  heap st !! r = Some inv →
  _validateInvoice (Some (VObj inv)) = Ok true →
  stored_document st = VObj data →
  data !! "invoices" = Some (VArr l) →
  Array.findIndex (id_is (inv !! "id")) l = Ok index →
  saveInvoice e (Object r) st =
  match index with
  | Some i =>
      let data' := with_invoices data (<[i := VObj (merged e inv (l !! i))]> l) in
      match setItem_fault e with
      | None => (Ok true, written st data')
      | Some ex => (Throw (storage_error ex st), st)
      end
  | None =>
      let st1 := with_object st r (created e inv) in
      let data' := with_invoices data (l ++ [VObj (created e inv)]) in
      match setItem_fault e with
      | None => (Ok true, written st1 data')
      | Some ex => (Throw (storage_error ex st), st1)
      end
  end.
Proof.
  intros Hr Hv Hd Hl Hi. unfold saveInvoice.
  assert (value_of st (Object r) = Some (VObj inv)) as Hval by (cbn; by rewrite Hr).
  erewrite bind_Ok; [|unfold deref; by rewrite Hval].
  erewrite bind_Ok; [|unfold lift; by rewrite Hv].
  cbn [negb]. unfold try_catch.
  erewrite bind_Ok; [|apply getData_run].
  rewrite Hd.
  erewrite bind_Ok; [|unfold lift; cbn [get]; by rewrite Hl].
  erewrite bind_Ok; [|unfold lift; by cbn [as_array]].
  erewrite bind_Ok; [|unfold lift; by cbn [get]].
  erewrite bind_Ok; [|unfold lift; by rewrite <- Hi].
  destruct index as [i|].
  - destruct (setItem_fault e) as [ex|] eqn:F.
    + erewrite bind_Throw; [|by apply saveData_rejected].
      apply rethrow_storage_error.
    + erewrite bind_Ok; [|by apply saveData_accepted]. done.
  - erewrite bind_Ok; [|by apply stamp_step].
    erewrite bind_Ok; [|unfold deref; cbn [value_of]; by rewrite heap_with_object].
    erewrite bind_Ok; [|unfold lift; by cbn [get]].
    erewrite bind_Ok; [|apply stamp_step, heap_with_object].
    rewrite with_object_twice.
    erewrite bind_Ok; [|unfold deref; cbn [value_of]; by rewrite heap_with_object].
    change (with_object st r _) with (with_object st r (created e inv)).
    destruct (setItem_fault e) as [ex|] eqn:F.
    + erewrite bind_Throw; [|by apply saveData_rejected].
      change (storage_error ex st)
        with (storage_error ex (with_object st r (created e inv))).
      apply rethrow_storage_error.
    + erewrite bind_Ok; [|by apply saveData_accepted]. done.
Qed.

(** ** Scanning the invoices *)

Section scans.
Context (p : value → result bool) (q : value → bool).

Lemma find_pure l :
  Forall (λ x, p x = Ok (q x)) l → Array.find p l = Ok (List.find q l).
Proof.
  induction 1 as [|x l Hx _ IH]; [done|]. cbn. rewrite Hx. cbn.
  by destruct (q x).
Qed.

Lemma filter_pure l :
  Forall (λ x, p x = Ok (q x)) l → Array.filter p l = Ok (List.filter q l).
Proof.
  induction 1 as [|x l Hx _ IH]; [done|]. cbn. rewrite Hx, IH. cbn.
  by destruct (q x).
Qed.

Lemma some_pure l :
  Forall (λ x, p x = Ok (q x)) l → Array.some p l = Ok (existsb q l).
Proof.
  induction 1 as [|x l Hx _ IH]; [done|]. cbn. rewrite Hx. cbn.
  by destruct (q x).
Qed.

Lemma findIndex_first l i x :
  Forall (λ x, p x = Ok (q x)) l →
  l !! i = Some x → q x = true →
  (∀ j y, l !! j = Some y → j < i → q y = false) →
  Array.findIndex p l = Ok (Some i).
Proof.
  intros Hl. revert i. induction Hl as [|y l Hy _ IH]; intros i Hi Hq Hfirst; [done|].
  cbn. rewrite Hy. cbn. destruct i as [|i].
  - cbn in Hi. injection Hi as ->. by rewrite Hq.
  - rewrite (Hfirst 0 y); [|done|lia].
    rewrite (IH i); [done|done|done|].
    intros j z Hj Hlt. apply (Hfirst (S j) z); [done|lia].
Qed.

Lemma findIndex_none l :
  Forall (λ x, p x = Ok (q x)) l →
  (∀ x, x ∈ l → q x = false) →
  Array.findIndex p l = Ok None.
Proof.
  induction 1 as [|y l Hy _ IH]; intros Hnone; [done|].
  cbn. rewrite Hy. cbn. rewrite Hnone by apply list_elem_of_here.
  rewrite IH; [done|]. intros x Hx. apply Hnone. by apply list_elem_of_further.
Qed.

Lemma find_updated l i x x' :
  l !! i = Some x →
  (∀ j y, l !! j = Some y → j < i → q y = false) →
  q x' = true →
  List.find q (<[i := x']> l) = Some x'.
Proof.
  revert i. induction l as [|y l IH]; intros i Hi Hfirst Hq; [done|].
  destruct i as [|i]; cbn.
  - by rewrite Hq.
  - rewrite (Hfirst 0 y); [|done|lia]. apply IH; [done| |done].
    intros j z Hj Hlt. apply (Hfirst (S j) z); [done|lia].
Qed.

Lemma find_appended l x' :
  (∀ x, x ∈ l → q x = false) → q x' = true →
  List.find q (l ++ [x']) = Some x'.
Proof.
  induction l as [|y l IH]; intros Hnone Hq; cbn.
  - by rewrite Hq.
  - rewrite Hnone by apply list_elem_of_here. apply IH; [|done].
    intros x Hx. apply Hnone. by apply list_elem_of_further.
Qed.
End scans.

Lemma id_is_object id x :
  is_object (Some x) = true → id_is id x = Ok (same_id id x).
Proof. by destruct x. Qed.

Lemma id_is_objects id l :
  Forall (λ x, is_object (Some x) = true) l →
  Forall (λ x, id_is id x = Ok (same_id id x)) l.
Proof. intros H. eapply Forall_impl; [exact H|]. intros x. apply id_is_object. Qed.

Lemma loads_document st data l :
  loads st data l → stored_document st = VObj data.
Proof. intros [H _]. rewrite getData_run in H. congruence. Qed.

(** ** The two branches of [saveInvoice] *)

Lemma stamp_id_lookup e inv k :
  stamp_id e inv !! k =
  if decide (k = "id")
  then (if truthy (inv !! "id") then inv !! "id" else Some (VStr (randomUUID e)))
  else inv !! k.
Proof.
  unfold stamp_id. destruct (decide (k = "id")) as [->|Hk];
    destruct (truthy (inv !! "id")); try done.
  - apply lookup_insert_eq.
  - by apply lookup_insert_ne.
Qed.

Lemma created_lookup e inv k :
  created e inv !! k =
  if decide (k = "id")
  then (if truthy (inv !! "id") then inv !! "id" else Some (VStr (randomUUID e)))
  else if decide (k = "createdDate")
  then (if truthy (inv !! "createdDate") then inv !! "createdDate" else Some (VStr (now e)))
  else inv !! k.
Proof.
  unfold created, stamp_createdDate.
  rewrite (stamp_id_lookup e inv "createdDate"). cbn [decide].
  destruct (decide ("createdDate" = "id")) as [?|_]; [done|].
  destruct (truthy (inv !! "createdDate")) eqn:T.
  - rewrite stamp_id_lookup. by repeat case_decide; subst.
  - destruct (decide (k = "createdDate")) as [->|Hk].
    + rewrite lookup_insert_eq. by case_decide.
    + rewrite lookup_insert_ne by done. rewrite stamp_id_lookup. by repeat case_decide.
Qed.

Lemma merged_lookup e inv old k :
  merged e inv old !! k =
  if decide (k = "updatedAt") then Some (VStr (now e))
  else match inv !! k with
       | Some v => Some v
       | None => own_props old !! k
       end.
Proof.
  unfold merged. destruct (decide (k = "updatedAt")) as [->|Hk].
  - apply lookup_insert_eq.
  - rewrite lookup_insert_ne by done. rewrite lookup_union.
    destruct (inv !! k), (own_props old !! k); done.
Qed.

Lemma saveInvoice_update e st r inv data l i old :
  heap st !! r = Some inv →
  _validateInvoice (Some (VObj inv)) = Ok true →
  loads st data l →
  first_match (inv !! "id") l i old →
  saveInvoice e (Object r) st =
  match setItem_fault e with
  | None => (Ok true,
             written st (with_invoices data (<[i := VObj (merged e inv (Some old))]> l)))
  | Some ex => (Throw (storage_error ex st), st)
  end.
Proof.
  intros Hr Hv Hload (Hi & Hsame & Hfirst).
  rewrite (saveInvoice_run e r inv st data l (Some i)); try done.
  - cbn zeta. by rewrite Hi.
  - by eapply loads_document.
  - apply Hload.
  - eapply findIndex_first; eauto. apply id_is_objects, Hload.
Qed.

Lemma saveInvoice_create e st r inv data l :
  heap st !! r = Some inv →
  _validateInvoice (Some (VObj inv)) = Ok true →
  loads st data l →
  (∀ x, x ∈ l → same_id (inv !! "id") x = false) →
  saveInvoice e (Object r) st =
  match setItem_fault e with
  | None => (Ok true,
             written (with_object st r (created e inv))
                     (with_invoices data (l ++ [VObj (created e inv)])))
  | Some ex => (Throw (storage_error ex st), with_object st r (created e inv))
  end.
Proof.
  intros Hr Hv Hload Hnone.
  rewrite (saveInvoice_run e r inv st data l None); try done.
  - by eapply loads_document.
  - apply Hload.
  - eapply findIndex_none; eauto. apply id_is_objects, Hload.
Qed.

(** ** C1: [saveInvoice] is an upsert *)

(** C1.  For an invoice that passes validation, with the stored document
    loading as an application document and the platform accepting the
    write, [saveInvoice] is an upsert.  If a stored invoice has the same id,
    the first such entry is replaced by the shallow merge: [updatedAt] is
    the current timestamp, every property of the incoming object is taken
    from it, and every other property of the existing entry is kept.
    Otherwise the invoice receives the generated id when its own is
    missing, the current timestamp as [createdDate] when that is missing,
    keeps all its other properties, and is appended to the end of the
    sequence.  In both cases the whole document is written under the
    storage key and [saveInvoice] returns [true]. *)
Theorem saveInvoice_upsert (e : env) (st : state) (r : loc)
    (inv data : gmap string value) (l : list value) :
  heap st !! r = Some inv →
  _validateInvoice (Some (VObj inv)) = Ok true →
  loads st data l →
  setItem_fault e = None →
  (∀ i old, first_match (inv !! "id") l i old →
     let entry := merged e inv (Some old) in
     saveInvoice e (Object r) st =
       (Ok true, written st (with_invoices data (<[i := VObj entry]> l)))
     ∧ entry !! "updatedAt" = Some (VStr (now e))
     ∧ (∀ k v, k ≠ "updatedAt" → inv !! k = Some v → entry !! k = Some v)
     ∧ (∀ k, k ≠ "updatedAt" → inv !! k = None → entry !! k = prop old k))
  ∧ ((∀ x, x ∈ l → same_id (inv !! "id") x = false) →
     let entry := created e inv in
     saveInvoice e (Object r) st =
       (Ok true, written (with_object st r entry) (with_invoices data (l ++ [VObj entry])))
     ∧ entry !! "id" =
         (if truthy (inv !! "id") then inv !! "id" else Some (VStr (randomUUID e)))
     ∧ entry !! "createdDate" =
         (if truthy (inv !! "createdDate") then inv !! "createdDate"
          else Some (VStr (now e)))
     ∧ (∀ k, k ≠ "id" → k ≠ "createdDate" → entry !! k = inv !! k)).
Proof.
  intros Hr Hv Hload Hw. split.
  - intros i old Hm entry. split; [|split; [|split]].
    + rewrite (saveInvoice_update e st r inv data l i old) by done. by rewrite Hw.
    + unfold entry. rewrite merged_lookup. by case_decide.
    + intros k v Hk Hin. unfold entry. rewrite merged_lookup, Hin. by case_decide.
    + intros k Hk Hin. unfold entry. rewrite merged_lookup, Hin.
      case_decide; [done|].
      destruct Hm as (Hi & _). destruct Hload as (_ & _ & Hobj).
      rewrite Forall_forall in Hobj.
      assert (is_object (Some old) = true) as Ho.
      { apply Hobj. by eapply list_elem_of_lookup_2. }
      by destruct old.
  - intros Hnone entry. split; [|split; [|split]].
    + rewrite (saveInvoice_create e st r inv data l) by done. by rewrite Hw.
    + unfold entry. rewrite created_lookup. by case_decide.
    + unfold entry. rewrite created_lookup. by repeat case_decide.
    + intros k Hk1 Hk2. unfold entry. rewrite created_lookup. by repeat case_decide.
Qed.

(** ** What is written and read back *)

Lemma depth_elem l x : x ∈ l → depth x < depth (VArr l).
Proof. cbn. induction 1 as [x l|x y l _ IH]; cbn; lia. Qed.

Lemma depth_lookup (m : gmap string value) k x :
  m !! k = Some x → depth x < depth (VObj m).
Proof.
  cbn. revert k x. induction m as [|i y m Hi Hfold IH] using map_first_key_ind; intros k x Hk.
  - by rewrite lookup_empty in Hk.
  - rewrite map_fold_insert_first_key by done.
    destruct (decide (k = i)) as [->|Hne].
    + rewrite lookup_insert_eq in Hk. injection Hk as ->. lia.
    + rewrite lookup_insert_ne in Hk by done. specialize (IH _ _ Hk). lia.
Qed.

Lemma value_nested_ind (P : value → Prop) :
  P VNull → (∀ b, P (VBool b)) → (∀ q, P (VNum q)) → (∀ s, P (VStr s)) →
  (∀ l, Forall P l → P (VArr l)) →
  (∀ m, map_Forall (λ _, P) m → P (VObj m)) →
  (∀ x, P (VNonFinite x)) →
  ∀ v, P v.
Proof.
  intros Hnull Hbool Hnum Hstr Harr Hobj Hnf v.
  remember (depth v) as n eqn:Hn. revert v Hn.
  induction n as [n IH] using lt_wf_ind. intros v ->.
  destruct v; auto.
  - apply Harr. apply Forall_forall. intros x Hx. eapply IH; [|done]. by apply depth_elem.
  - apply Hobj. intros k x Hk. eapply IH; [|done]. by eapply depth_lookup.
Qed.

Lemma serialized_idempotent v : serialized (serialized v) = serialized v.
Proof.
  induction v as [| | | |l IH|m IH|] using value_nested_ind; try done; cbn; f_equal.
  - rewrite <- list_fmap_compose. apply Forall_fmap_ext_1.
    eapply Forall_impl; [exact IH|]. done.
  - rewrite <- map_fmap_compose. apply map_fmap_ext. intros k x Hk. exact (IH k x Hk).
Qed.

Lemma serialized_list_idempotent (l : list value) :
  serialized <$> (serialized <$> l) = serialized <$> l.
Proof.
  rewrite <- list_fmap_compose. apply list_fmap_ext. intros i x _. apply serialized_idempotent.
Qed.

Lemma storable_serialized v : storable (serialized v).
Proof. apply serialized_idempotent. Qed.

Lemma serialized_prop v k : prop (serialized v) k = serialized <$> prop v k.
Proof. destruct v; try done. cbn. apply lookup_fmap. Qed.

Lemma serialized_is_object v : is_object (Some (serialized v)) = is_object (Some v).
Proof. by destruct v. Qed.

Lemma serialized_json_primitive o : json_primitive o = true → serialized <$> o = o.
Proof. by destruct o as [[]|]. Qed.

Lemma storable_list (l : list value) :
  storable (VArr l) ↔ Forall storable l.
Proof.
  unfold storable. cbn. split.
  - intros [= H]. induction l as [|x l IH]; [constructor|].
    cbn in H. injection H as Hx Hl. constructor; [done|by apply IH].
  - intros H. f_equal. induction H as [|x l Hx _ IH]; [done|].
    cbn. unfold storable in Hx. by rewrite Hx, IH.
Qed.

Lemma storable_fmap (l : list value) : Forall storable l → serialized <$> l = l.
Proof. intros H. apply storable_list in H. by injection H. Qed.

Lemma storable_lookup (m : gmap string value) k v :
  storable (VObj m) → m !! k = Some v → storable v.
Proof.
  unfold storable. cbn. intros [= H] Hk.
  assert ((serialized <$> m) !! k = Some v) as Hs by (by rewrite H).
  rewrite lookup_fmap, Hk in Hs. by injection Hs.
Qed.

Lemma storable_object (m : gmap string value) : storable (VObj m) → serialized <$> m = m.
Proof. by intros [= H]. Qed.

Lemma storable_invoices (data : gmap string value) l :
  storable (VObj data) → data !! "invoices" = Some (VArr l) → Forall storable l.
Proof. intros Hd Hl. apply storable_list. by eapply storable_lookup. Qed.

Lemma storable_same_id id x : storable x → same_id id (serialized x) = same_id id x.
Proof. intros H. by rewrite H. Qed.

Lemma same_id_serialized id x :
  id ≠ Some VNull → same_id id x = false → same_id id (serialized x) = false.
Proof.
  intros Hid. unfold same_id. rewrite serialized_prop.
  destruct (prop x "id") as [[| | | | | |[]]|], id as [[| | | | | |[]]|]; cbn; try done;
    by destruct Hid.
Qed.

Lemma storable_created e inv : storable (VObj inv) → storable (VObj (created e inv)).
Proof.
  unfold storable. cbn. intros [= H]. f_equal.
  unfold created, stamp_createdDate, stamp_id.
  destruct (truthy (inv !! "id")), (truthy _); by rewrite ?fmap_insert, H.
Qed.

Lemma serialized_with_invoices data l :
  serialized (with_invoices data l) =
  with_invoices (serialized <$> data) (serialized <$> l).
Proof. unfold with_invoices. cbn. by rewrite fmap_insert. Qed.

Lemma getData_written st data :
  getData (written st data) = (Ok (serialized data), written st data).
Proof.
  rewrite getData_run. unfold stored_document, written. cbn [localStorage].
  by rewrite lookup_insert_eq.
Qed.

Lemma stored_document_written st data : stored_document (written st data) = serialized data.
Proof. unfold stored_document, written. cbn [localStorage]. by rewrite lookup_insert_eq. Qed.

Lemma stored_invoices_written st data l :
  stored_invoices (written st (with_invoices data l)) = serialized <$> l.
Proof.
  unfold stored_invoices. rewrite stored_document_written, serialized_with_invoices.
  unfold with_invoices. cbn [prop]. by rewrite lookup_insert_eq.
Qed.

(** ** C10: the create branch works on the caller's object *)

(** C10.  In the create branch (valid invoice, no stored invoice with its
    id) [saveInvoice] changes the caller's object in place: it receives the
    generated id when its id is missing and the timestamp as [createdDate]
    when that is missing, and this object is what is appended to the stored
    invoices: the stored invoices are then, as JSON writes them, the loaded
    ones followed by the caller's object, and exactly these when neither
    the stored document nor the caller's object holds a number that is not
    finite.  After the successful call the
    caller's reference therefore carries the id under which the invoice is
    stored; its [updatedAt] is what it was before, so none is stamped on
    creation; no other heap cell changes. *)
Theorem saveInvoice_create_in_place (e : env) (st : state) (r : loc)
    (inv data : gmap string value) (l : list value) :
  heap st !! r = Some inv →
  _validateInvoice (Some (VObj inv)) = Ok true →
  loads st data l →
  (∀ x, x ∈ l → same_id (inv !! "id") x = false) →
  setItem_fault e = None →
  ∃ (st' : state) (obj : gmap string value),
    saveInvoice e (Object r) st = (Ok true, st')
    ∧ heap st' !! r = Some obj
    ∧ (∀ r', r' ≠ r → heap st' !! r' = heap st !! r')
    ∧ stored_invoices st' = serialized <$> (l ++ [VObj obj])%list
    ∧ (truthy (inv !! "id") = false → obj !! "id" = Some (VStr (randomUUID e)))
    ∧ (truthy (inv !! "id") = true → obj !! "id" = inv !! "id")
    ∧ (truthy (inv !! "createdDate") = false → obj !! "createdDate" = Some (VStr (now e)))
    ∧ (truthy (inv !! "createdDate") = true → obj !! "createdDate" = inv !! "createdDate")
    ∧ obj !! "updatedAt" = inv !! "updatedAt"
    ∧ (∀ k, k ≠ "id" → k ≠ "createdDate" → obj !! k = inv !! k)
    ∧ (storable (VObj data) → storable (VObj inv) →
       stored_invoices st' = (l ++ [VObj obj])%list).
Proof.
  intros Hr Hv Hload Hnone Hw.
  eexists _, (created e inv). split.
  { rewrite (saveInvoice_create e st r inv data l) by done. by rewrite Hw. }
  split; [apply lookup_insert_eq|].
  split; [intros r' Hr'; cbn; by apply lookup_insert_ne|].
  split; [apply stored_invoices_written|].
  split; [intros T; rewrite created_lookup, T; by case_decide|].
  split; [intros T; rewrite created_lookup, T; by case_decide|].
  split; [intros T; rewrite created_lookup, T; by repeat case_decide|].
  split; [intros T; rewrite created_lookup, T; by repeat case_decide|].
  split; [rewrite created_lookup; by repeat case_decide|].
  split; [intros k Hk1 Hk2; rewrite created_lookup; by repeat case_decide|].
  intros Hdata Hinv. rewrite stored_invoices_written. apply storable_fmap.
  apply Forall_app. split.
  - exact (storable_invoices data l Hdata (proj1 (proj2 Hload))).
  - constructor; [by apply storable_created|constructor].
Qed.

(** ** C7: [getData] falls back to the defaults and writes nothing *)

(** C7.  When the stored text is absent or is not parsable, [getData]
    returns the default document, whose version is the current one, whose
    invoices are empty and whose settings are the default settings, and the
    state afterwards is the state before: the default is not written and an
    unparsable text stays where it is. *)
Theorem getData_defaults_without_write (st : state) :
  match localStorage st !! STORAGE_KEY with
  | None | Some (Unparsable _) => True
  | Some (Json _) => False
  end →
  getData st = (Ok _getDefaults, st)
  ∧ prop _getDefaults "version" = Some (VStr APP_VERSION)
  ∧ prop _getDefaults "invoices" = Some (VArr [])
  ∧ prop _getDefaults "settings" =
      Some (VObj (<["currency" := VStr "USD"]> (<["defaultTaxRate" := VNum 0]> ∅))).
Proof.
  intros H. split; [|repeat split; reflexivity].
  rewrite getData_run. unfold stored_document.
  by destruct (localStorage st !! STORAGE_KEY) as [[]|].
Qed.

(** ** Running [deleteInvoice] *)

Lemma filter_split (q : value → bool) l :
  length (List.filter q l) + length (List.filter (λ x, negb (q x)) l) = length l.
Proof.
  induction l as [|x l IH]; [done|]. cbn. destruct (q x); cbn; lia.
Qed.

Lemma filter_none (q : value → bool) l :
  (∀ x, x ∈ l → q x = false) ↔ List.filter q l = [].
Proof.
  induction l as [|x l IH]; cbn.
  - split; [done|]. intros _ x Hx. by apply not_elem_of_nil in Hx.
  - destruct (q x) eqn:Q; split.
    + intros H. specialize (H x (list_elem_of_here _ _)). congruence.
    + done.
    + intros H. apply IH. intros y Hy. apply H. by apply list_elem_of_further.
    + intros H y Hy. apply elem_of_cons in Hy as [->|Hy]; [done|].
      by apply IH.
Qed.

Lemma stored_invoices_loads st data l : loads st data l → stored_invoices st = l.
Proof.
  intros Hload. unfold stored_invoices. rewrite (loads_document _ _ _ Hload).
  cbn. destruct Hload as (_ & -> & _). done.
Qed.

Lemma deleteInvoice_run e id st data l :
  loads st data l →
  let kept := List.filter (λ x, negb (same_id id x)) l in
  deleteInvoice e id st =
  if Nat.eqb (length kept) (length l) then (Ok false, st)
  else match setItem_fault e with
       | None => (Ok true, written st (with_invoices data kept))
       | Some _ => (Ok false, st)
       end.
Proof.
  intros Hload kept. unfold deleteInvoice, try_catch.
  erewrite bind_Ok; [|apply getData_run].
  rewrite (loads_document _ _ _ Hload).
  destruct Hload as (_ & Hl & Hobj).
  erewrite bind_Ok; [|unfold lift; cbn [get]; by rewrite Hl].
  erewrite bind_Ok; [|unfold lift; by cbn [as_array]].
  erewrite bind_Ok.
  2:{ unfold lift. erewrite (filter_pure _ (λ x, negb (same_id id x))); [done|].
      eapply Forall_impl; [exact Hobj|]. intros x Hx. by destruct x. }
  fold kept. destruct (Nat.eqb (length kept) (length l)); cbn [negb]; [done|].
  destruct (setItem_fault e) as [ex|] eqn:F.
  - erewrite bind_Throw; [|by apply saveData_rejected]. done.
  - erewrite bind_Ok; [|by apply saveData_accepted]. done.
Qed.

(** ** C6: [deleteInvoice] *)

(** C6.  With the stored document loading as an application document,
    [deleteInvoice] always returns a boolean: [true] exactly when an
    invoice with the id existed and the platform accepted the write, which
    is exactly when an invoice with the id existed and none is stored
    afterwards.  (This second reading leaves out one case: the id [null]
    with a stored text that holds a numeral beyond the range of the
    doubles, since such a numeral, stored as an id, is written back as
    [null].)
    When no invoice has the id it returns [false] and leaves the state as
    it was, so nothing is written and the count is unchanged.  When it
    returns [true], the document with the other invoices, in their order,
    has been written.  When one invoice has the id and the platform accepts
    the write, it returns [true] and the stored count has gone down by
    exactly one. *)
Theorem deleteInvoice_removes_by_id (e : env) (id : option value) (st : state)
    (data : gmap string value) (l : list value) :
  loads st data l →
  ∃ (b : bool) (st' : state),
    deleteInvoice e id st = (Ok b, st')
    ∧ (id ≠ Some VNull ∨ storable (VObj data) →
       (b = true ↔
          (∃ x, x ∈ l ∧ same_id id x = true)
          ∧ (∀ x, x ∈ stored_invoices st' → same_id id x = false)))
    ∧ ((∀ x, x ∈ l → same_id id x = false) → b = false ∧ st' = st)
    ∧ (b = true →
         st' = written st (with_invoices data (List.filter (λ x, negb (same_id id x)) l)))
    ∧ (length (List.filter (same_id id) l) = 1 → setItem_fault e = None →
         b = true ∧ length (stored_invoices st') + 1 = length l)
    ∧ (b = true ↔ (∃ x, x ∈ l ∧ same_id id x = true) ∧ setItem_fault e = None).
Proof.
  intros Hload. rewrite (deleteInvoice_run e id st data l Hload). cbn zeta.
  pose proof (filter_split (same_id id) l) as Hsplit.
  pose proof (filter_none (same_id id) l) as Hnone.
  pose proof (stored_invoices_loads _ _ _ Hload) as Hst.
  set (kept := List.filter (λ x, negb (same_id id x)) l) in *.
  assert (∀ x, x ∈ kept → same_id id x = false) as Hkept.
  { intros x Hx. apply list_elem_of_In, filter_In in Hx as [_ Hx].
    by destruct (same_id id x). }
  assert (length kept = length l → ∀ x, x ∈ l → same_id id x = false) as Hall.
  { intros Hlen. apply Hnone. apply length_zero_iff_nil. lia. }
  assert ((∀ x, x ∈ l → same_id id x = false) → length kept = length l) as Hall'.
  { intros H. apply Hnone in H. rewrite H in Hsplit. cbn in Hsplit. lia. }
  assert (length kept ≠ length l → ∃ x, x ∈ l ∧ same_id id x = true) as Hsome.
  { intros Hne. destruct (List.filter (same_id id) l) as [|x m] eqn:Hf.
    - cbn in Hsplit. lia.
    - exists x.
      assert (In x (List.filter (same_id id) l)) as Hin by (rewrite Hf; by left).
      apply filter_In in Hin as [H1 H2]. split; [by apply list_elem_of_In|done]. }
  destruct (Nat.eqb_spec (length kept) (length l)) as [Heq|Hne].
  - exists false, st. split; [done|]. rewrite Hst. split; [|split; [|split; [|split]]].
    + intros _. split; [done|].
      intros [(x & Hx & Hs) _]. rewrite (Hall Heq x Hx) in Hs. done.
    + done.
    + done.
    + intros H1 _. rewrite H1 in Hsplit. lia.
    + split; [done|]. intros [(x & Hx & Hs) _]. rewrite (Hall Heq x Hx) in Hs. done.
  - destruct (setItem_fault e) as [ex|] eqn:F.
    + exists false, st. split; [done|]. rewrite Hst. split; [|split; [|split; [|split]]].
      * intros _. split; [done|].
        intros [(x & Hx & Hs) Hrem]. rewrite (Hrem x Hx) in Hs. done.
      * intros H. by apply Hall' in H.
      * done.
      * done.
      * split; [done|]. by intros [_ ?].
    + exists true, (written st (with_invoices data kept)). split; [done|].
      rewrite stored_invoices_written. split; [|split; [|split; [|split]]].
      * intros Hcase. split; [|done]. intros _. split; [by apply Hsome|].
        intros y [x [-> Hx]]%list_elem_of_fmap. destruct Hcase as [Hid|Hstorable].
        -- by apply same_id_serialized, Hkept.
        -- rewrite storable_same_id; [by apply Hkept|].
           pose proof (storable_invoices data l Hstorable (proj1 (proj2 Hload))) as Hl.
           rewrite Forall_forall in Hl. apply Hl.
           apply list_elem_of_In, filter_In in Hx as [Hx _]. by apply list_elem_of_In.
      * intros H. by apply Hall' in H.
      * done.
      * intros H1 _. split; [done|]. rewrite length_fmap. lia.
      * split; [|done]. intros _. split; [by apply Hsome|done].
Qed.

(** ** Write failures *)

Lemma findIndex_total (p : value → result bool) (q : value → bool) l :
  Forall (λ x, p x = Ok (q x)) l → ∃ index, Array.findIndex p l = Ok index.
Proof.
  induction 1 as [|x l Hx _ [index IH]]; [by eexists|].
  cbn. rewrite Hx, IH. cbn. destruct (q x); by eexists.
Qed.

Lemma saveInvoice_rejected e ex st r inv data l :
  setItem_fault e = Some ex →
  heap st !! r = Some inv →
  _validateInvoice (Some (VObj inv)) = Ok true →
  loads st data l →
  ∃ st', saveInvoice e (Object r) st = (Throw (storage_error ex st), st')
         ∧ localStorage st' = localStorage st.
Proof.
  intros F Hr Hv Hload.
  destruct (findIndex_total _ _ l (id_is_objects (inv !! "id") l (proj2 (proj2 Hload))))
    as [index Hi].
  rewrite (saveInvoice_run e r inv st data l index); try done.
  - destruct index; cbn zeta; rewrite F; by eexists.
  - by eapply loads_document.
  - apply Hload.
Qed.

Lemma saveSettings_rejected e ex st settings :
  setItem_fault e = Some ex →
  saveSettings e settings st = (Throw (storage_error ex st), st).
Proof.
  intros F. unfold saveSettings.
  erewrite bind_Ok; [|apply getData_run].
  erewrite bind_Throw; [done|by apply saveData_rejected].
Qed.

Lemma deleteInvoice_rejected e ex st id data l :
  setItem_fault e = Some ex → loads st data l →
  deleteInvoice e id st = (Ok false, st).
Proof.
  intros F Hload. rewrite (deleteInvoice_run e id st data l Hload). cbn zeta.
  rewrite F. by destruct (Nat.eqb _ _).
Qed.

Lemma storage_error_cases ex st :
  (quota_signal ex = true → size (localStorage st) ≠ 0 →
     storage_error ex st =
     StorageError "Storage full. Please delete some invoices." "QUOTA_EXCEEDED")
  ∧ (quota_signal ex = false ∨ size (localStorage st) = 0 →
     storage_error ex st = StorageError "Failed to save data." "WRITE_ERROR").
Proof.
  unfold storage_error. split.
  - intros -> Hn. by destruct (Nat.eqb_spec (size (localStorage st)) 0).
  - intros [-> | ->]; [done|]. by rewrite andb_false_r.
Qed.

(** ** C4: the errors of [saveData] *)

(** C4, as stated, fails twice.  A quota signal that meets an empty
    [localStorage] is reported as the write error, and where the quota error
    is raised its message is the application's own text, not the one the
    claim quotes. *)
Lemma saveData_quota_counterexample :
  quota_signal Sample.quota_error = true
  ∧ saveData Sample.full _getDefaults Sample.fresh_browser =
      (Throw (StorageError "Failed to save data." "WRITE_ERROR"), Sample.fresh_browser)
  ∧ saveData Sample.full (VObj Sample.document) Sample.browser =
      (Throw (StorageError "Storage full. Please delete some invoices." "QUOTA_EXCEEDED"),
       Sample.browser)
  ∧ "Storage full. Please delete some invoices." ≠ "storage full, delete some records".
Proof. repeat split; try reflexivity. discriminate. Qed.

(** C4, amended.  When the platform rejects the write, [saveData] stores
    nothing and raises a storage error: the quota error, with the message
    "Storage full. Please delete some invoices.", when the rejection is a
    quota signal and [localStorage] already holds an entry; the write error,
    with the message "Failed to save data.", in every other case.  The same
    error reaches the caller of [saveInvoice], for a valid invoice and a
    stored document that loads, and the caller of [saveSettings]; neither
    returns [false] and neither changes [localStorage]. *)
Theorem saveData_storage_errors (e : env) (ex : exn) (st : state) :
  setItem_fault e = Some ex →
  (∀ data, saveData e data st = (Throw (storage_error ex st), st))
  ∧ (quota_signal ex = true → size (localStorage st) ≠ 0 →
       storage_error ex st =
       StorageError "Storage full. Please delete some invoices." "QUOTA_EXCEEDED")
  ∧ (quota_signal ex = false ∨ size (localStorage st) = 0 →
       storage_error ex st = StorageError "Failed to save data." "WRITE_ERROR")
  ∧ (∀ r inv data l,
       heap st !! r = Some inv →
       _validateInvoice (Some (VObj inv)) = Ok true →
       loads st data l →
       ∃ st', saveInvoice e (Object r) st = (Throw (storage_error ex st), st')
              ∧ localStorage st' = localStorage st)
  ∧ (∀ settings, saveSettings e settings st = (Throw (storage_error ex st), st)).
Proof.
  intros F. split; [intros data; by apply saveData_rejected|].
  split; [apply storage_error_cases|]. split; [apply storage_error_cases|].
  split.
  - intros r inv data l. by apply saveInvoice_rejected.
  - intros settings. by apply saveSettings_rejected.
Qed.

(** ** C8: which operations let a write failure through *)

(** C8, as stated, fails for [deleteInvoice]: with an invoice of the given
    id stored and the platform rejecting the write, [saveData] raises the
    quota error, and [deleteInvoice] returns [false] with nothing removed. *)
Lemma deleteInvoice_absorbs_counterexample :
  (∃ x, x ∈ stored_invoices Sample.browser ∧ same_id (Some (VStr "a1")) x = true)
  ∧ (∀ data, saveData Sample.full data Sample.browser = (Throw QuotaExceeded, Sample.browser))
  ∧ deleteInvoice Sample.full (Some (VStr "a1")) Sample.browser = (Ok false, Sample.browser).
Proof.
  split; [|split].
  - exists (VObj Sample.globex). split; [|reflexivity].
    replace (stored_invoices Sample.browser) with [VObj Sample.globex] by reflexivity.
    apply list_elem_of_here.
  - intros data. by rewrite (saveData_rejected _ _ _ Sample.quota_error).
  - reflexivity.
Qed.

(** C8, amended.  When the platform rejects the write and the stored
    document loads, [saveInvoice], for a valid invoice, and [saveSettings]
    raise the storage error of [saveData], which is the quota error or the
    write error, and leave [localStorage] as it was; [deleteInvoice] catches
    the error and returns [false], the state being what it was. *)
Theorem write_failure_outcomes (e : env) (ex : exn) (st : state)
    (data : gmap string value) (l : list value) :
  setItem_fault e = Some ex →
  loads st data l →
  (storage_error ex st = QuotaExceeded ∨ storage_error ex st = WriteError)
  ∧ (∀ r inv,
       heap st !! r = Some inv →
       _validateInvoice (Some (VObj inv)) = Ok true →
       ∃ st', saveInvoice e (Object r) st = (Throw (storage_error ex st), st')
              ∧ localStorage st' = localStorage st)
  ∧ (∀ settings, saveSettings e settings st = (Throw (storage_error ex st), st))
  ∧ (∀ id, deleteInvoice e id st = (Ok false, st)).
Proof.
  intros F Hload. split; [apply storage_error_is_StorageError|]. split; [|split].
  - intros r inv Hr Hv. by eapply saveInvoice_rejected.
  - intros settings. by apply saveSettings_rejected.
  - intros id. by eapply deleteInvoice_rejected.
Qed.

(** ** Substrings *)

Lemma append_cons c a b : String.append (String c a) b = String c (String.append a b).
Proof. reflexivity. Qed.

Lemma append_empty b : String.append "" b = b.
Proof. reflexivity. Qed.

Lemma prefix_occurs t s :
  String.prefix t s = true ↔ ∃ b, s = String.append t b.
Proof.
  revert s. induction t as [|c t IH]; intros s.
  - destruct s; simpl; split; eauto.
  - destruct s as [|d s]; simpl; [split; [done|by intros [b ?]]|].
    destruct (ascii_dec c d) as [->|Hne].
    + rewrite IH. split; intros [b Hb]; exists b.
      * by rewrite append_cons, Hb.
      * rewrite append_cons in Hb. congruence.
    + split; [done|]. intros [b Hb]. rewrite append_cons in Hb. congruence.
Qed.

Lemma includes_occurs s t : includes s t = true ↔ occurs_in t s.
Proof.
  unfold occurs_in. induction s as [|c s IH]; cbn [includes].
  - rewrite orb_false_r, prefix_occurs. split.
    + intros [b Hb]. by exists "", b.
    + intros (a & b & Hab). destruct a; [by exists b|done].
  - rewrite orb_true_iff, prefix_occurs, IH. split.
    + intros [[b Hb]|(a & b & Hab)]; [by exists "", b|].
      exists (String c a), b. by rewrite append_cons, Hab.
    + intros (a & b & Hab). destruct a as [|c' a]; [left; by exists b|].
      right. exists a, b. rewrite append_cons in Hab. congruence.
Qed.

Lemma includes_empty t : t ≠ "" → includes "" t = false.
Proof. by destruct t. Qed.

(** ** Letter case *)

Lemma ascii_lowercase_append a b :
  ascii_lowercase (String.append a b) =
  String.append (ascii_lowercase a) (ascii_lowercase b).
Proof.
  induction a as [|c a IH]; [done|]. rewrite append_cons. cbn [ascii_lowercase].
  by rewrite IH, append_cons.
Qed.

Lemma ascii_lowercase_split s a b :
  ascii_lowercase s = String.append a b →
  ∃ s1 s2, s = String.append s1 s2 ∧ ascii_lowercase s1 = a ∧ ascii_lowercase s2 = b.
Proof.
  revert s. induction a as [|c a IH]; intros s H.
  - exists "", s. by rewrite !append_empty in *.
  - destruct s as [|d s]; [done|]. rewrite append_cons in H. cbn [ascii_lowercase] in H.
    injection H as Hc H. destruct (IH s H) as (s1 & s2 & -> & H1 & H2).
    exists (String d s1), s2. rewrite append_cons. cbn [ascii_lowercase].
    by rewrite Hc, H1.
Qed.

Lemma ascii_code c : nat_of_ascii c < 256.
Proof. apply nat_ascii_bounded. Qed.

Lemma ascii_code_inj c d : nat_of_ascii c = nat_of_ascii d → c = d.
Proof. intros H. by rewrite <- (ascii_nat_embedding c), <- (ascii_nat_embedding d), H. Qed.

Lemma ascii_lower_code c :
  nat_of_ascii (ascii_lower c) =
  if (65 <=? nat_of_ascii c)%nat && (nat_of_ascii c <=? 90)%nat
  then nat_of_ascii c + 32 else nat_of_ascii c.
Proof.
  unfold ascii_lower. cbn zeta. pose proof (ascii_code c).
  destruct (Nat.leb_spec 65 (nat_of_ascii c)), (Nat.leb_spec (nat_of_ascii c) 90);
    cbn [andb]; try done.
  apply nat_ascii_embedding. lia.
Qed.

Lemma ascii_lower_same_letter c d : ascii_lower c = ascii_lower d ↔ same_letter c d.
Proof.
  unfold same_letter, capital. split.
  - intros H. apply (f_equal nat_of_ascii) in H. rewrite !ascii_lower_code in H.
    destruct (Nat.leb_spec 65 (nat_of_ascii c)), (Nat.leb_spec (nat_of_ascii c) 90),
      (Nat.leb_spec 65 (nat_of_ascii d)), (Nat.leb_spec (nat_of_ascii d) 90);
      cbn [andb] in H;
      first [ left; apply ascii_code_inj; lia
            | right; left; lia
            | right; right; lia ].
  - intros H. apply ascii_code_inj. rewrite !ascii_lower_code.
    destruct H as [->|[[Hc Hd]|[Hd Hc]]]; [done| |];
      destruct (Nat.leb_spec 65 (nat_of_ascii c)), (Nat.leb_spec (nat_of_ascii c) 90),
        (Nat.leb_spec 65 (nat_of_ascii d)), (Nat.leb_spec (nat_of_ascii d) 90);
      cbn [andb]; lia.
Qed.

Lemma ascii_lowercase_equal s t :
  ascii_lowercase s = ascii_lowercase t ↔ equal_ignoring_case s t.
Proof.
  revert t. induction s as [|c s IH]; intros [|d t]; cbn; try done.
  rewrite <- IH, <- ascii_lower_same_letter. split; [by intros [= -> ->]|by intros [-> ->]].
Qed.

Lemma occurs_ignoring_case q s :
  occurs_in (ascii_lowercase q) (ascii_lowercase s) ↔
  ∃ t, occurs_in t s ∧ equal_ignoring_case t q.
Proof.
  split.
  - intros (a & b & H).
    destruct (ascii_lowercase_split _ _ _ H) as (s1 & s2 & -> & _ & H2).
    destruct (ascii_lowercase_split _ _ _ H2) as (t & s3 & -> & Ht & _).
    exists t. split; [by exists s1, s3|]. by apply ascii_lowercase_equal.
  - intros (t & (a & b & ->) & Ht). apply ascii_lowercase_equal in Ht.
    exists (ascii_lowercase a), (ascii_lowercase b).
    by rewrite !ascii_lowercase_append, Ht.
Qed.

(** ** Running [searchInvoices] *)

Lemma getInvoices_run st data l :
  loads st data l → getInvoices st = (Ok (VArr l), st).
Proof.
  intros Hload. unfold getInvoices.
  erewrite bind_Ok; [|apply getData_run].
  rewrite (loads_document _ _ _ Hload). destruct Hload as (_ & Hl & _).
  erewrite bind_Ok; [|unfold lift; cbn [get]; by rewrite Hl]. done.
Qed.

Lemma lower_includes_textual e q v :
  textual v = true →
  lower_includes e v (toLowerCase e q) = Ok (hit e q v).
Proof.
  intros Hv. unfold lower_includes, hit, textual in *.
  destruct (truthy v) eqn:T; cbn [negb orb] in Hv.
  - destruct v as [[| | |s| | |]|]; try done. cbn in T. by rewrite T.
  - destruct v as [[| | |s| | |]|]; try done. cbn in T. by rewrite T.
Qed.

Lemma falsy_field c k : truthy c = false → field c k = None.
Proof. by destruct c as [[]|]. Qed.

Lemma guarded_includes_textual e q c k :
  k ≠ "length" → textual (field c k) = true →
  guarded_includes e c k (toLowerCase e q) = Ok (hit e q (field c k)).
Proof.
  intros Hk Hv. unfold guarded_includes.
  destruct (truthy c) eqn:T.
  - destruct (get_truthy c k T) as [->|?]; [|done].
    cbn [mbind result_bind]. by apply lower_includes_textual.
  - by rewrite (falsy_field c k T).
Qed.

Lemma get_object m k : get (Some (VObj m)) k = Ok (m !! k).
Proof. reflexivity. Qed.

Lemma search_match_run e q inv :
  searchable inv = true →
  search_match e (toLowerCase e q) inv = Ok (matches e q inv).
Proof.
  intros Hs. unfold searchable in Hs.
  repeat (apply andb_prop in Hs as [Hs ?]).
  destruct inv as [| | | | |m|]; try done. clear Hs. cbn [prop] in *.
  unfold search_match, matches, or_cond, line_items. cbn [prop].
  rewrite !get_object. cbn [mbind result_bind].
  rewrite (lower_includes_textual e q (m !! "id")) by done.
  rewrite (guarded_includes_textual e q _ "name") by done.
  rewrite (guarded_includes_textual e q _ "email") by done.
  rewrite (lower_includes_textual e q (m !! "status")) by done.
  destruct (hit e q (m !! "id")); cbn [orb]; [done|].
  destruct (hit e q (field (m !! "client") "name")); cbn [orb]; [done|].
  destruct (hit e q (field (m !! "client") "email")); cbn [orb]; [done|].
  destruct (hit e q (m !! "status")); cbn [orb]; [done|].
  destruct (m !! "items") as [[| | | |items| |x]|];
    try (cbn [isArray]; by rewrite andb_false_r).
  - cbn [truthy isArray andb as_array mbind result_bind].
    apply some_pure.
    apply Forall_forall. intros item Hitem.
    rewrite forallb_forall in H. specialize (H item).
    rewrite <- list_elem_of_In in H. apply H in Hitem.
    apply andb_prop in Hitem as [Ho Ht].
    destruct item; try done. rewrite get_object. cbn [mbind result_bind prop] in *.
    by apply lower_includes_textual.
Qed.

Lemma hit_found e q v : hit e q v = true ↔ found_in e q v.
Proof.
  unfold hit, found_in. split.
  - destruct v as [[| | |s| | |]|]; try done.
    intros [Hs Hi]%andb_prop. exists s. split; [done|]. split.
    + intros ->. done.
    + by apply includes_occurs.
  - intros (s & -> & Hs & Hi). apply andb_true_intro. split.
    + by rewrite (proj2 (String.eqb_neq _ _) Hs).
    + by apply includes_occurs.
Qed.

Lemma matches_found e q inv :
  matches e q inv = true ↔
  found_in e q (prop inv "id")
  ∨ found_in e q (field (prop inv "client") "name")
  ∨ found_in e q (field (prop inv "client") "email")
  ∨ found_in e q (prop inv "status")
  ∨ ∃ item, item ∈ line_items inv ∧ found_in e q (prop item "description").
Proof.
  unfold matches. rewrite !orb_true_iff, existsb_exists, !hit_found.
  setoid_rewrite hit_found. setoid_rewrite <- list_elem_of_In. tauto.
Qed.

(** ** C5: [searchInvoices] *)

(** C5.  With the stored document loading as an application document, an
    absent or empty query returns all invoices in their stored order.  A
    non-empty query, over invoices whose searched properties are strings
    where present, returns the stored invoices that match, in their stored
    order; an invoice matches exactly when the lowercased query is a
    substring of its lowercased id, client name, client email or status, or
    of the lowercased description of one of its line items.  The state is
    left as it was.  Lowercasing is the platform's [toLowerCase], on the
    query and on the text alike; on a platform that lowercases the letters
    A to Z of an ASCII text, the lowercased query is a substring of the
    lowercased text exactly when the text has a part that is the query up
    to the case of its letters: the match is case-insensitive. *)
Theorem searchInvoices_filters (e : env) (st : state) (data : gmap string value)
    (l : list value) :
  loads st data l →
  searchInvoices e None st = (Ok (VArr l), st)
  ∧ searchInvoices e (Some "") st = (Ok (VArr l), st)
  ∧ (∀ q, q ≠ "" → Forall (λ x, searchable x = true) l →
       searchInvoices e (Some q) st = (Ok (VArr (List.filter (matches e q) l)), st))
  ∧ (∀ q inv,
       matches e q inv = true ↔
       found_in e q (prop inv "id")
       ∨ found_in e q (field (prop inv "client") "name")
       ∨ found_in e q (field (prop inv "client") "email")
       ∨ found_in e q (prop inv "status")
       ∨ ∃ item, item ∈ line_items inv ∧ found_in e q (prop item "description"))
  ∧ (lowercases_ascii e →
     ∀ q s, is_ascii q = true → is_ascii s = true →
       (occurs_in (toLowerCase e q) (toLowerCase e s) ↔
        ∃ t, occurs_in t s ∧ equal_ignoring_case t q)).
Proof.
  intros Hload. pose proof (getInvoices_run _ _ _ Hload) as Hget.
  split; [done|]. split; [done|]. split; [|split; [apply matches_found|]].
  - intros q Hq Hs. unfold searchInvoices.
    assert (truthy (VStr <$> Some q) = true) as -> by (by destruct q).
    cbn [negb default].
    erewrite bind_Ok; [|exact Hget].
    erewrite bind_Ok; [|unfold lift; by cbn [as_array]].
    erewrite bind_Ok; [done|]. unfold lift. f_equal. apply filter_pure.
    eapply Forall_impl; [exact Hs|]. intros x Hx. by apply search_match_run.
  - intros Hlower q s Hq Hs. rewrite (Hlower q Hq), (Hlower s Hs).
    apply occurs_ignoring_case.
Qed.

(** The search example of the specification: of Acme, with a hosting item,
    and Globex, the query [hosting] finds only the first, and the empty
    query returns both. *)
Example search_hosting :
  ∃ acme globex,
    stored_invoices Sample.search_browser = [acme; globex]
    ∧ searchInvoices Sample.accepting (Some "hosting") Sample.search_browser =
        (Ok (VArr [acme]), Sample.search_browser)
    ∧ searchInvoices Sample.accepting (Some "") Sample.search_browser =
        (Ok (VArr [acme; globex]), Sample.search_browser).
Proof. eexists _, _. repeat split; reflexivity. Qed.

(** ** Reading back what was saved *)

Lemma strict_eq_refl v : json_primitive v = true → strict_eq v v = true.
Proof.
  destruct v as [[| b | q | s | | |]|]; try done; intros _; cbn.
  - by destruct b.
  - apply Qeq_bool_iff. reflexivity.
  - apply String.eqb_refl.
Qed.

Lemma strict_eq_undefined v : strict_eq v None = true → v = None.
Proof. by destruct v as [[| | | | | |[]]|]. Qed.

Section scan_inversion.
Context (p : value → result bool) (q : value → bool).

Lemma findIndex_inv l index :
  Forall (λ x, p x = Ok (q x)) l →
  Array.findIndex p l = Ok index →
  match index with
  | Some i => ∃ x, l !! i = Some x ∧ q x = true ∧
                   ∀ j y, l !! j = Some y → j < i → q y = false
  | None => ∀ x, x ∈ l → q x = false
  end.
Proof.
  intros Hl. revert index. induction Hl as [|y l Hy _ IH]; intros index; cbn.
  - intros [= <-]. intros x Hx. by apply not_elem_of_nil in Hx.
  - rewrite Hy. cbn. destruct (q y) eqn:Q.
    + intros [= <-]. exists y. split; [done|]. split; [done|]. intros; lia.
    + destruct (Array.findIndex p l) as [i'|] eqn:Hi'; [|done]. cbn.
      intros [= <-]. specialize (IH i' eq_refl). destruct i' as [i|]; cbn.
      * destruct IH as (x & Hx & Hq & Hfirst). exists x.
        split; [done|]. split; [done|].
        intros [|j] z Hz Hlt; cbn in Hz; [congruence|].
        apply (Hfirst j z Hz). lia.
      * intros x Hx. apply elem_of_cons in Hx as [->|Hx]; [done|by apply IH].
Qed.
End scan_inversion.

Lemma loads_written st data l' :
  Forall (λ x, is_object (Some x) = true) l' →
  loads (written st (with_invoices data l'))
        (<["invoices" := VArr (serialized <$> l')]> (serialized <$> data))
        (serialized <$> l').
Proof.
  intros Hobj. split; [|split].
  - rewrite getData_written. by rewrite serialized_with_invoices.
  - apply lookup_insert_eq.
  - apply Forall_fmap. eapply Forall_impl; [exact Hobj|].
    intros x Hx. unfold compose. by rewrite serialized_is_object.
Qed.

Lemma first_match_unique id l i j x y :
  first_match id l i x → first_match id l j y → i = j ∧ x = y.
Proof.
  intros (Hi & Hx & Hfi) (Hj & Hy & Hfj).
  assert (i = j) as ->.
  { destruct (Nat.lt_total i j) as [Hlt|[->|Hlt]]; [|done|].
    - rewrite (Hfj i x Hi Hlt) in Hx. done.
    - rewrite (Hfi j y Hj Hlt) in Hy. done. }
  split; [done|]. congruence.
Qed.

Lemma getInvoice_run st data l id :
  loads st data l →
  getInvoice id st = (Ok (or_else (List.find (same_id id) l) VNull), st).
Proof.
  intros Hload. unfold getInvoice.
  erewrite bind_Ok; [|by eapply getInvoices_run].
  erewrite bind_Ok; [|unfold lift; by cbn [as_array]].
  erewrite bind_Ok; [done|]. unfold lift. f_equal.
  apply (find_pure _ (same_id id)), id_is_objects, Hload.
Qed.

Lemma saveInvoice_invalid e a st :
  _validateInvoice (value_of st a) = Ok false → saveInvoice e a st = (Ok false, st).
Proof.
  intros Hv. unfold saveInvoice, deref, mbind, M_bind, lift. by rewrite Hv.
Qed.

Lemma valid_fields inv :
  _validateInvoice (Some (VObj inv)) = Ok true →
  is_Some (inv !! "client") ∧ is_Some (inv !! "items").
Proof.
  rewrite validate_object. intros [= H].
  repeat (apply andb_prop in H as [H ?]).
  split; [by destruct (inv !! "client")|by destruct (inv !! "items")].
Qed.

Lemma merged_same_id e inv old :
  same_id (inv !! "id") old = true →
  is_object (Some old) = true →
  json_primitive (inv !! "id") = true →
  same_id (inv !! "id") (serialized (VObj (merged e inv (Some old)))) = true.
Proof.
  intros Hsame Hold Hprim. unfold same_id in *. rewrite serialized_prop. cbn [prop].
  rewrite merged_lookup. case_decide; [done|].
  destruct (inv !! "id") as [v|] eqn:Hid.
  - rewrite serialized_json_primitive by done. by apply strict_eq_refl.
  - destruct old; try done. cbn [own_props prop] in *.
    apply strict_eq_undefined in Hsame. by rewrite Hsame.
Qed.

Lemma created_json_primitive e inv :
  json_primitive (inv !! "id") = true → json_primitive (created e inv !! "id") = true.
Proof.
  intros Hprim. rewrite created_lookup. destruct (decide ("id" = "id")); [|done].
  by destruct (truthy (inv !! "id")).
Qed.

Lemma created_same_id e inv :
  json_primitive (inv !! "id") = true →
  same_id (created e inv !! "id") (serialized (VObj (created e inv))) = true.
Proof.
  intros Hprim. apply (created_json_primitive e) in Hprim.
  unfold same_id. rewrite serialized_prop. cbn [prop].
  rewrite serialized_json_primitive by done. by apply strict_eq_refl.
Qed.

Lemma getInvoice_after_update e st data l i old inv :
  loads st data l →
  storable (VObj data) →
  first_match (inv !! "id") l i old →
  json_primitive (inv !! "id") = true →
  let st' := written st (with_invoices data (<[i := VObj (merged e inv (Some old))]> l)) in
  getInvoice (inv !! "id") st' = (Ok (serialized (VObj (merged e inv (Some old)))), st').
Proof.
  intros Hload Hstorable (Hi & Hsame & Hfirst) Hprim st'.
  assert (is_object (Some old) = true) as Hold.
  { destruct Hload as (_ & _ & Hobj). rewrite Forall_forall in Hobj.
    apply Hobj. by eapply list_elem_of_lookup_2. }
  assert (Forall (λ x, is_object (Some x) = true)
            (<[i := VObj (merged e inv (Some old))]> l)) as Hobj'.
  { apply Forall_insert; [apply Hload|done]. }
  unfold st'. erewrite getInvoice_run; [|by apply loads_written].
  rewrite list_fmap_insert, (storable_fmap l)
    by (eapply storable_invoices; [exact Hstorable|apply Hload]).
  erewrite find_updated; [done|exact Hi|exact Hfirst|].
  by apply merged_same_id.
Qed.

Lemma getInvoice_after_create e st r data l inv :
  loads st data l →
  storable (VObj data) →
  (∀ x, x ∈ l → same_id (inv !! "id") x = false) →
  (truthy (inv !! "id") = false →
   ∀ x, x ∈ l → same_id (Some (VStr (randomUUID e))) x = false) →
  json_primitive (inv !! "id") = true →
  let st' := written (with_object st r (created e inv))
                     (with_invoices data (l ++ [VObj (created e inv)])) in
  getInvoice (created e inv !! "id") st' =
    (Ok (serialized (VObj (created e inv))), st').
Proof.
  intros Hload Hstorable Hnone Hfresh Hprim st'.
  assert (Forall (λ x, is_object (Some x) = true) (l ++ [VObj (created e inv)])) as Hobj'.
  { apply Forall_app. split; [apply Hload|]. by repeat constructor. }
  unfold st'. erewrite getInvoice_run; [|by apply loads_written].
  rewrite fmap_app, (storable_fmap l)
    by (eapply storable_invoices; [exact Hstorable|apply Hload]).
  cbn [fmap list_fmap].
  erewrite (find_appended _ l); [done| |].
  - intros x Hx. rewrite created_lookup. cbn [decide].
    destruct (decide ("id" = "id")); [|done].
    destruct (truthy (inv !! "id")); [by apply Hnone|by apply Hfresh].
  - by apply created_same_id.
Qed.

(** ** The stored document stays an application document

    [loads] is the standing assumption of the properties of the invoice
    operations.  It holds in a browser that has stored nothing, and a
    successful [saveInvoice] or [deleteInvoice] re-establishes it. *)

Lemma loads_nothing_stored st :
  localStorage st !! STORAGE_KEY = None →
  ∃ data, loads st data [] ∧ VObj data = _getDefaults.
Proof.
  intros H. eexists. split; [|reflexivity]. split; [|split].
  - rewrite getData_run. unfold stored_document. by rewrite H.
  - reflexivity.
  - constructor.
Qed.

Lemma saveInvoice_keeps_loads e st st' r inv data l :
  heap st !! r = Some inv →
  loads st data l →
  saveInvoice e (Object r) st = (Ok true, st') →
  ∃ data' l', loads st' data' l'.
Proof.
  intros Hr Hload Hsave.
  destruct (validate_total (Some (VObj inv))) as [[|] Hv].
  2:{ rewrite saveInvoice_invalid in Hsave; [done|]. cbn. by rewrite Hr. }
  pose proof (id_is_objects (inv !! "id") l (proj2 (proj2 Hload))) as Hpure.
  destruct (findIndex_total _ _ l Hpure) as [index Hi].
  rewrite (saveInvoice_run e r inv st data l index) in Hsave; try done;
    [|by eapply loads_document|apply Hload].
  destruct index as [i|]; cbn zeta in Hsave;
    destruct (setItem_fault e) as [ex|]; try done; injection Hsave as <-;
    eexists _, _; apply loads_written.
  - apply Forall_insert; [apply Hload|done].
  - apply Forall_app. split; [apply Hload|]. by repeat constructor.
Qed.

Lemma deleteInvoice_keeps_loads e id st st' data l b :
  loads st data l →
  deleteInvoice e id st = (Ok b, st') →
  ∃ data' l', loads st' data' l'.
Proof.
  intros Hload Hrun. rewrite (deleteInvoice_run e id st data l Hload) in Hrun.
  cbn zeta in Hrun.
  destruct (Nat.eqb _ _); [injection Hrun as <- <-; by eauto|].
  destruct (setItem_fault e); injection Hrun as <- <-; [by eauto|].
  eexists _, _. apply loads_written.
  destruct Hload as (_ & _ & Hobj). rewrite Forall_forall in Hobj |- *.
  intros x Hx. apply Hobj. apply list_elem_of_In in Hx.
  apply filter_In in Hx as [Hx _]. by apply list_elem_of_In.
Qed.

(** ** C9: reading back a saved invoice *)

(** C9, as stated, fails for [notes]: updating the stored invoice [a1] with
    an object that has no [notes] succeeds, and reading [a1] back gives the
    notes stored before, which the saved input does not have. *)
Lemma roundtrip_notes_counterexample :
  heap Sample.browser !! 1 = Some Sample.globex_update
  ∧ _validateInvoice (Some (VObj Sample.globex_update)) = Ok true
  ∧ ∃ (st' : state) (rec : gmap string value),
      saveInvoice Sample.accepting (Object 1) Sample.browser = (Ok true, st')
      ∧ getInvoice (Sample.globex_update !! "id") st' = (Ok (VObj rec), st')
      ∧ rec !! "notes" = Some (VStr "net 30")
      ∧ Sample.globex_update !! "notes" = None.
Proof.
  split; [reflexivity|]. split; [reflexivity|].
  eexists _, _. split; [reflexivity|]. split; [reflexivity|].
  split; reflexivity.
Qed.

(** C9, amended.  When [saveInvoice] succeeds on the caller's invoice, whose
    id is [undefined] or a primitive value that JSON can write, with the
    stored document loading as an application document without a numeral
    beyond the range of the doubles, and the generated id not yet in use,
    [getInvoice] of the id the caller's object then carries returns a record
    whose [client] and [items] are those of the saved input as JSON writes
    them: they are equal to the input's when the input holds no NaN and no
    infinity, which are read back as [null].  Its [notes] are those of the
    input, in the same sense, when the input has a [notes] property, or
    when no stored invoice had the input's id; an update without [notes]
    keeps the stored ones. *)
Theorem saveInvoice_getInvoice_roundtrip (e : env) (st st' : state) (r : loc)
    (inv data : gmap string value) (l : list value) :
  heap st !! r = Some inv →
  loads st data l →
  storable (VObj data) →
  json_primitive (inv !! "id") = true →
  (truthy (inv !! "id") = false →
   ∀ x, x ∈ l → same_id (Some (VStr (randomUUID e))) x = false) →
  saveInvoice e (Object r) st = (Ok true, st') →
  ∃ obj rec : gmap string value,
    heap st' !! r = Some obj
    ∧ getInvoice (obj !! "id") st' = (Ok (VObj rec), st')
    ∧ rec !! "client" = serialized <$> inv !! "client"
    ∧ rec !! "items" = serialized <$> inv !! "items"
    ∧ (storable (VObj inv) →
       rec !! "client" = inv !! "client" ∧ rec !! "items" = inv !! "items")
    ∧ (is_Some (inv !! "notes") → rec !! "notes" = serialized <$> inv !! "notes")
    ∧ ((∀ x, x ∈ l → same_id (inv !! "id") x = false) →
       rec !! "notes" = serialized <$> inv !! "notes")
    ∧ (∀ i old, first_match (inv !! "id") l i old → inv !! "notes" = None →
       rec !! "notes" = prop old "notes").
Proof.
  intros Hr Hload Hstorable Hprim Hfresh Hsave.
  destruct (validate_total (Some (VObj inv))) as [[|] Hv].
  2:{ rewrite saveInvoice_invalid in Hsave; [done|]. cbn. by rewrite Hr. }
  destruct (valid_fields inv Hv) as [[c Hc] [it Hit]].
  pose proof (id_is_objects (inv !! "id") l (proj2 (proj2 Hload))) as Hpure.
  destruct (findIndex_total _ _ l Hpure) as [index Hi].
  pose proof (findIndex_inv _ _ l index Hpure Hi) as Hinv.
  rewrite (saveInvoice_run e r inv st data l index) in Hsave; try done;
    [|by eapply loads_document|apply Hload].
  assert (∀ k, storable (VObj inv) → serialized <$> inv !! k = inv !! k) as Hkeep.
  { intros k Hs. destruct (inv !! k) as [v|] eqn:Hk; [|done]. cbn. f_equal.
    by eapply storable_lookup. }
  destruct index as [i|]; cbn zeta in Hsave;
    destruct (setItem_fault e) as [ex|]; try done; injection Hsave as <-.
  - destruct Hinv as (old & Hold & Hsame & Hfirst). rewrite Hold.
    exists inv, (serialized <$> merged e inv (Some old)).
    split; [done|].
    split; [by apply getInvoice_after_update|].
    split; [rewrite lookup_fmap, merged_lookup, Hc; by case_decide|].
    split; [rewrite lookup_fmap, merged_lookup, Hit; by case_decide|].
    split.
    { intros Hs. rewrite !lookup_fmap, !merged_lookup, Hc, Hit. cbn [decide].
      repeat case_decide; try done. rewrite <- Hc, <- Hit. split; by apply Hkeep. }
    split; [|split].
    + intros [n Hn]. rewrite lookup_fmap, merged_lookup, Hn. by case_decide.
    + intros Hnone. rewrite Hnone in Hsame; [done|]. by eapply list_elem_of_lookup_2.
    + intros j old' Hm Hnotes.
      destruct (first_match_unique _ _ _ _ _ _ Hm (conj Hold (conj Hsame Hfirst)))
        as [-> ->].
      rewrite lookup_fmap, merged_lookup, Hnotes. case_decide; [done|].
      assert (storable old) as Hso.
      { pose proof (storable_invoices data l Hstorable (proj1 (proj2 Hload))) as Hl.
        rewrite Forall_forall in Hl. apply Hl. by eapply list_elem_of_lookup_2. }
      assert (is_object (Some old) = true) as Ho.
      { destruct Hload as (_ & _ & Hobj). rewrite Forall_forall in Hobj.
        apply Hobj. by eapply list_elem_of_lookup_2. }
      destruct old as [| | | | |m|]; try done. cbn [own_props prop].
      destruct (m !! "notes") as [v|] eqn:Hn; [|done]. cbn. f_equal.
      by eapply storable_lookup.
  - exists (created e inv), (serialized <$> created e inv).
    split; [apply heap_with_object|].
    split; [by apply getInvoice_after_create|].
    split; [rewrite lookup_fmap, created_lookup; by repeat case_decide|].
    split; [rewrite lookup_fmap, created_lookup; by repeat case_decide|].
    split.
    { intros Hs. rewrite !lookup_fmap, !created_lookup. cbn [decide].
      repeat case_decide; try done. split; by apply Hkeep. }
    split; [|split].
    + intros _. rewrite lookup_fmap, created_lookup. by repeat case_decide.
    + intros _. rewrite lookup_fmap, created_lookup. by repeat case_decide.
    + intros j old' (Hj & Hsame & _) _. rewrite Hinv in Hsame; [done|].
      by eapply list_elem_of_lookup_2.
Qed.

(** Why the id has to be a primitive value: an invoice whose id is an
    object is saved, but the stored copy of that id is another object, and
    [getInvoice] finds nothing. *)
Example object_id_is_not_found :
  ∃ (st' : state) (obj : gmap string value),
    saveInvoice Sample.accepting (Object 3) Sample.browser = (Ok true, st')
    ∧ heap st' !! 3 = Some obj
    ∧ obj !! "id" = Some (VObj ∅)
    ∧ getInvoice (obj !! "id") st' = (Ok VNull, st').
Proof. eexists _, _. repeat split; reflexivity. Qed.

(** ** C3: the calculation engine *)

Lemma amount_of_with_amount x :
  Model.number (prop (Model.with_amount x) "amount") = Model.amount_of x.
Proof.
  destruct x; try done. cbn [Model.with_amount prop]. by rewrite lookup_insert_eq.
Qed.

Lemma sum_amounts_result items :
  foldr (λ x acc, Model.number (prop x "amount") + acc)%Q 0%Q (Model.with_amount <$> items)
  = Model.sum_amounts items.
Proof.
  induction items as [|x items IH]; [done|]. cbn [fmap list_fmap foldr].
  fold (fmap Model.with_amount items). rewrite amount_of_with_amount.
  unfold Model.sum_amounts. cbn [foldr]. f_equal. exact IH.
Qed.

(** C3.  [calculateInvoice] gives every line item the amount
    [quantity × rate], sets [subtotal] to the sum of the amounts of the
    items it returns, [taxAmount] to [subtotal × taxRate / 100] and [total]
    to [subtotal + taxAmount], and leaves the other properties alone; a
    missing quantity, rate or tax rate counts as [0].  It is a function of
    the invoice alone.  For forty units at 75 and one at 500, taxed at 8.5
    percent, the subtotal is 3500, the tax 297.5 and the total 3797.5. *)
Theorem calculateInvoice_totals (invoice : gmap string value) :
  let result := Model.calculateInvoice invoice in
  let items := Model.with_amount <$> Model.items_of invoice in
  (∀ l, invoice !! "items" = Some (VArr l) → result !! "items" = Some (VArr items))
  ∧ (∀ i m, Model.items_of invoice !! i = Some (VObj m) →
       ∃ amount, items !! i = Some (VObj (<["amount" := VNum amount]> m))
                 ∧ (amount == Model.number (m !! "quantity") * Model.number (m !! "rate"))%Q)
  ∧ (∃ subtotal taxAmount total,
       result !! "subtotal" = Some (VNum subtotal)
       ∧ result !! "taxAmount" = Some (VNum taxAmount)
       ∧ result !! "total" = Some (VNum total)
       ∧ (subtotal == foldr (λ x acc, Model.number (prop x "amount") + acc) 0 items)%Q
       ∧ (taxAmount == subtotal * Model.number (invoice !! "taxRate") / 100)%Q
       ∧ (total == subtotal + taxAmount)%Q)
  ∧ (∀ k, k ≠ "items" → k ≠ "subtotal" → k ≠ "taxAmount" → k ≠ "total" →
       result !! k = invoice !! k)
  ∧ Model.number None = 0%Q
  ∧ (∃ subtotal taxAmount total,
       Model.calculateInvoice Sample.consulting !! "subtotal" = Some (VNum subtotal)
       ∧ Model.calculateInvoice Sample.consulting !! "taxAmount" = Some (VNum taxAmount)
       ∧ Model.calculateInvoice Sample.consulting !! "total" = Some (VNum total)
       ∧ (subtotal == 3500.00)%Q ∧ (taxAmount == 297.50)%Q ∧ (total == 3797.50)%Q).
Proof.
  intros result items. unfold result, Model.calculateInvoice.
  split.
  { intros l Hl. rewrite !lookup_insert_ne by done.
    unfold items, Model.with_amounts, Model.items_of. rewrite Hl.
    apply lookup_insert_eq. }
  split.
  { intros i m Hi. exists (Model.amount_of (VObj m)). split.
    - unfold items. by rewrite list_lookup_fmap, Hi.
    - unfold Model.amount_of. cbn [prop]. apply Qred_correct. }
  split.
  { eexists _, _, _.
    split; [by rewrite !lookup_insert_ne, lookup_insert_eq by done|].
    split; [by rewrite !lookup_insert_ne, lookup_insert_eq by done|].
    split; [by rewrite lookup_insert_eq|].
    split; [|split]; try apply Qred_correct.
    unfold items. rewrite sum_amounts_result. apply Qred_correct. }
  split.
  { intros k ? ? ? ?. rewrite !lookup_insert_ne by done.
    unfold Model.with_amounts. destruct (invoice !! "items") as [[]|]; try done.
    by rewrite lookup_insert_ne. }
  split; [done|].
  eexists _, _, _. repeat split; try reflexivity; by vm_compute.
Qed.

(** ** The properties at the sample data *)

Lemma sample_loads : loads Sample.browser Sample.document [VObj Sample.globex].
Proof.
  split; [reflexivity|]. split; [reflexivity|]. by repeat constructor.
Qed.

Lemma sample_first_match :
  first_match (Sample.globex_update !! "id") [VObj Sample.globex] 0 (VObj Sample.globex).
Proof.
  split; [done|]. split; [reflexivity|]. intros j y _ Hj. lia.
Qed.

Lemma sample_no_match (id : option value) :
  same_id id (VObj Sample.globex) = false →
  ∀ x, x ∈ [VObj Sample.globex] → same_id id x = false.
Proof. intros H x Hx. apply list_elem_of_singleton in Hx. by subst. Qed.

Lemma saveInvoice_upsert_witness :
  saveInvoice Sample.accepting (Object 1) Sample.browser =
    (Ok true,
     written Sample.browser
       (with_invoices Sample.document
          (<[0 := VObj (merged Sample.accepting Sample.globex_update (Some (VObj Sample.globex)))]>
             [VObj Sample.globex])))
  ∧ saveInvoice Sample.accepting (Object 0) Sample.browser =
    (Ok true,
     written (with_object Sample.browser 0 (created Sample.accepting Sample.acme))
       (with_invoices Sample.document
          ([VObj Sample.globex] ++ [VObj (created Sample.accepting Sample.acme)]))).
Proof.
  split.
  - destruct (saveInvoice_upsert Sample.accepting Sample.browser 1 Sample.globex_update
                Sample.document [VObj Sample.globex]) as [Hupdate _];
      [reflexivity|reflexivity|exact sample_loads|reflexivity|].
    exact (proj1 (Hupdate 0 (VObj Sample.globex) sample_first_match)).
  - destruct (saveInvoice_upsert Sample.accepting Sample.browser 0 Sample.acme
                Sample.document [VObj Sample.globex]) as [_ Hcreate];
      [reflexivity|reflexivity|exact sample_loads|reflexivity|].
    refine (proj1 (Hcreate (sample_no_match _ _))). reflexivity.
Defined.

Lemma saveInvoice_rejects_invalid_witness :
  violates_validation (value_of Sample.browser (Object 2)) = true
  ∧ saveInvoice Sample.accepting (Object 2) Sample.browser = (Ok false, Sample.browser).
Proof.
  split; [reflexivity|]. apply saveInvoice_rejects_invalid. reflexivity.
Defined.

Lemma calculateInvoice_totals_witness :
  Model.items_of Sample.consulting !! 1 =
    Some (VObj (Sample.obj [("quantity", VNum 1); ("rate", VNum 500)]))
  ∧ (∃ amount,
      (Model.with_amount <$> Model.items_of Sample.consulting) !! 1 =
        Some (VObj (<["amount" := VNum amount]>
                      (Sample.obj [("quantity", VNum 1); ("rate", VNum 500)])))
      ∧ (amount ==
         Model.number (Sample.obj [("quantity", VNum 1); ("rate", VNum 500)] !! "quantity")
         * Model.number (Sample.obj [("quantity", VNum 1); ("rate", VNum 500)] !! "rate"))%Q)
  ∧ Model.calculateInvoice Sample.consulting !! "items" =
      Some (VArr (Model.with_amount <$> Model.items_of Sample.consulting))
  ∧ Model.calculateInvoice Sample.consulting !! "taxRate" = Sample.consulting !! "taxRate".
Proof.
  destruct (calculateInvoice_totals Sample.consulting) as (Hitems & Hamount & _ & Hother & _).
  split; [reflexivity|]. split; [apply (Hamount 1); reflexivity|].
  split; [eapply Hitems; reflexivity|]. by apply Hother.
Defined.

Lemma saveData_storage_errors_witness :
  setItem_fault Sample.full = Some Sample.quota_error
  ∧ (∀ data, saveData Sample.full data Sample.browser =
             (Throw (storage_error Sample.quota_error Sample.browser), Sample.browser))
  ∧ storage_error Sample.quota_error Sample.browser =
      StorageError "Storage full. Please delete some invoices." "QUOTA_EXCEEDED"
  ∧ (∃ st', saveInvoice Sample.full (Object 0) Sample.browser =
              (Throw (storage_error Sample.quota_error Sample.browser), st')
            ∧ localStorage st' = localStorage Sample.browser)
  ∧ ∀ settings, saveSettings Sample.full settings Sample.browser =
                (Throw (storage_error Sample.quota_error Sample.browser), Sample.browser).
Proof.
  destruct (saveData_storage_errors Sample.full Sample.quota_error Sample.browser eq_refl)
    as (Hdata & Hquota & _ & Hinvoice & Hsettings).
  split; [reflexivity|]. split; [exact Hdata|].
  split; [apply Hquota; [reflexivity|by vm_compute]|].
  split; [|exact Hsettings].
  apply (Hinvoice 0 Sample.acme Sample.document [VObj Sample.globex]);
    [reflexivity|reflexivity|exact sample_loads].
Defined.

Lemma sample_lowercase_ascii c t :
  (nat_of_ascii c <? 128)%nat = true →
  Sample.lowercase (String c t) = String (ascii_lower c) (Sample.lowercase t).
Proof.
  intros Hc. apply Nat.ltb_lt in Hc. cbn [Sample.lowercase]. destruct t as [|d t]; [done|].
  unfold Sample.latin1_capital.
  destruct (Nat.eqb_spec (nat_of_ascii c) 195) as [?|_]; [lia|done].
Qed.

Lemma sample_lowercases_ascii : lowercases_ascii Sample.accepting.
Proof.
  intros s. cbn [toLowerCase Sample.accepting].
  induction s as [|c s IH]; [done|]. cbn [is_ascii].
  intros [Hc Hs]%andb_prop. rewrite sample_lowercase_ascii by done.
  cbn [ascii_lowercase]. by rewrite IH.
Qed.

Lemma ecole_loads :
  loads Sample2.ecole_browser Sample2.ecole_document [VObj Sample2.ecole].
Proof. split; [reflexivity|]. split; [reflexivity|]. by repeat constructor. Qed.

Lemma searchInvoices_filters_witness :
  searchInvoices Sample.accepting (Some "GLOB") Sample.browser =
    (Ok (VArr [VObj Sample.globex]), Sample.browser)
  ∧ searchInvoices Sample.accepting (Some "globus") Sample.browser =
    (Ok (VArr []), Sample.browser)
  ∧ searchInvoices Sample.accepting (Some Sample2.ecole_query) Sample2.ecole_browser =
    (Ok (VArr [VObj Sample2.ecole]), Sample2.ecole_browser)
  ∧ (occurs_in (toLowerCase Sample.accepting "GLOB") (toLowerCase Sample.accepting "Globex") ↔
     ∃ t, occurs_in t "Globex" ∧ equal_ignoring_case t "GLOB").
Proof.
  destruct (searchInvoices_filters Sample.accepting Sample.browser Sample.document
              [VObj Sample.globex] sample_loads) as (_ & _ & Hsearch & _ & Hcase).
  destruct (searchInvoices_filters Sample.accepting Sample2.ecole_browser
              Sample2.ecole_document [VObj Sample2.ecole] ecole_loads)
    as (_ & _ & Hecole & _).
  split; [|split; [|split]].
  - apply (Hsearch "GLOB"); [discriminate|]. by repeat constructor.
  - apply (Hsearch "globus"); [discriminate|]. by repeat constructor.
  - apply (Hecole Sample2.ecole_query); [discriminate|]. by repeat constructor.
  - apply (Hcase sample_lowercases_ascii); reflexivity.
Defined.

Lemma deleteInvoice_removes_by_id_witness :
  ∃ (b : bool) (st' : state),
    deleteInvoice Sample.accepting (Some (VStr "a1")) Sample.browser = (Ok b, st')
    ∧ (b = true ↔
         (∃ x, x ∈ [VObj Sample.globex] ∧ same_id (Some (VStr "a1")) x = true)
         ∧ (∀ x, x ∈ stored_invoices st' → same_id (Some (VStr "a1")) x = false))
    ∧ b = true
    ∧ length (stored_invoices st') + 1 = length [VObj Sample.globex].
Proof.
  destruct (deleteInvoice_removes_by_id Sample.accepting (Some (VStr "a1")) Sample.browser
              Sample.document [VObj Sample.globex] sample_loads)
    as (b & st' & Hrun & Hiff & _ & _ & Hone & _).
  exists b, st'. split; [done|]. split; [apply Hiff; by left|]. apply Hone; reflexivity.
Defined.

Lemma getData_defaults_without_write_witness :
  getData Sample.damaged_browser = (Ok _getDefaults, Sample.damaged_browser)
  ∧ getData Sample.fresh_browser = (Ok _getDefaults, Sample.fresh_browser).
Proof.
  split.
  - apply (getData_defaults_without_write Sample.damaged_browser). reflexivity.
  - apply (getData_defaults_without_write Sample.fresh_browser). reflexivity.
Defined.

Lemma write_failure_outcomes_witness :
  setItem_fault Sample.full = Some Sample.quota_error
  ∧ (∃ st', saveInvoice Sample.full (Object 1) Sample.browser =
              (Throw (storage_error Sample.quota_error Sample.browser), st')
            ∧ localStorage st' = localStorage Sample.browser)
  ∧ (∀ settings, saveSettings Sample.full settings Sample.browser =
                 (Throw (storage_error Sample.quota_error Sample.browser), Sample.browser))
  ∧ ∀ id, deleteInvoice Sample.full id Sample.browser = (Ok false, Sample.browser).
Proof.
  destruct (write_failure_outcomes Sample.full Sample.quota_error Sample.browser
              Sample.document [VObj Sample.globex] eq_refl sample_loads)
    as (_ & Hinvoice & Hsettings & Hdelete).
  split; [reflexivity|]. split; [|by split].
  apply (Hinvoice 1 Sample.globex_update); reflexivity.
Defined.

Lemma saveInvoice_getInvoice_roundtrip_witness :
  (∃ obj rec : gmap string value,
    heap (saveInvoice Sample.accepting (Object 0) Sample.browser).2 !! 0 = Some obj
    ∧ getInvoice (obj !! "id") (saveInvoice Sample.accepting (Object 0) Sample.browser).2 =
        (Ok (VObj rec), (saveInvoice Sample.accepting (Object 0) Sample.browser).2)
    ∧ rec !! "client" = Sample.acme !! "client"
    ∧ rec !! "items" = Sample.acme !! "items"
    ∧ rec !! "notes" = Sample.acme !! "notes")
  ∧ (∃ obj rec : gmap string value,
      heap (saveInvoice Sample.accepting (Object 1) Sample.browser).2 !! 1 = Some obj
      ∧ getInvoice (obj !! "id") (saveInvoice Sample.accepting (Object 1) Sample.browser).2 =
          (Ok (VObj rec), (saveInvoice Sample.accepting (Object 1) Sample.browser).2)
      ∧ rec !! "client" = Sample.globex_update !! "client"
      ∧ rec !! "notes" = Sample.globex !! "notes").
Proof.
  split.
  - destruct (saveInvoice_getInvoice_roundtrip Sample.accepting Sample.browser
                (saveInvoice Sample.accepting (Object 0) Sample.browser).2 0 Sample.acme
                Sample.document [VObj Sample.globex])
      as (obj & rec & H1 & H2 & H3 & H4 & _ & H5 & _);
      [reflexivity|exact sample_loads|reflexivity|reflexivity
      |intros _; apply sample_no_match; reflexivity|reflexivity|].
    exists obj, rec. repeat (split; [done|]). apply H5. by eexists.
  - destruct (saveInvoice_getInvoice_roundtrip Sample.accepting Sample.browser
                (saveInvoice Sample.accepting (Object 1) Sample.browser).2 1
                Sample.globex_update Sample.document [VObj Sample.globex])
      as (obj & rec & H1 & H2 & H3 & _ & _ & _ & _ & H8);
      [reflexivity|exact sample_loads|reflexivity|reflexivity
      |intros _; apply sample_no_match; reflexivity|reflexivity|].
    exists obj, rec. repeat (split; [done|]).
    apply (H8 0 (VObj Sample.globex) sample_first_match). reflexivity.
Defined.

(** An invoice whose line amount has overflowed to [Infinity] is saved,
    and read back with the amount [null]: the client and the description
    are as given, the items are not. *)
Example overflowed_amount_read_back :
  ∃ st' rec,
    saveInvoice Sample.accepting (Object 0) Sample2.overflow_browser = (Ok true, st')
    ∧ getInvoice (Some (VStr (randomUUID Sample.accepting))) st' = (Ok (VObj rec), st')
    ∧ rec !! "client" = Sample2.overflowed !! "client"
    ∧ Sample2.overflowed !! "items" =
        Some (VArr [VObj (Sample.obj [("description", VStr "Bullion");
                                      ("amount", VNonFinite Infinity)])])
    ∧ rec !! "items" =
        Some (VArr [VObj (Sample.obj [("description", VStr "Bullion"); ("amount", VNull)])]).
Proof.
  eexists _, _. split; [reflexivity|]. split; [reflexivity|].
  split; [reflexivity|]. split; reflexivity.
Qed.

Lemma saveInvoice_create_in_place_witness :
  ∃ (st' : state) (obj : gmap string value),
    saveInvoice Sample.accepting (Object 0) Sample.browser = (Ok true, st')
    ∧ heap st' !! 0 = Some obj
    ∧ obj !! "id" = Some (VStr (randomUUID Sample.accepting))
    ∧ obj !! "createdDate" = Some (VStr (now Sample.accepting))
    ∧ obj !! "updatedAt" = Sample.acme !! "updatedAt".
Proof.
  destruct (saveInvoice_create_in_place Sample.accepting Sample.browser 0 Sample.acme
              Sample.document [VObj Sample.globex])
    as (st' & obj & H1 & H2 & _ & _ & H5 & _ & H7 & _ & H9 & _);
    [reflexivity|reflexivity|exact sample_loads
    |apply sample_no_match; reflexivity|reflexivity|].
  exists st', obj. split; [done|]. split; [done|].
  split; [apply H5; reflexivity|]. split; [apply H7; reflexivity|done].
Defined.

(** * Further properties of the code *)

Import Frame.

(** ** What the operations leave alone

    Both predicates are closed under the constructions of the effect monad,
    so that an operation is handled by following its text. *)

Create HintDb frame.

Lemma read_only_ret {A} (a : A) : read_only (mret a).
Proof. done. Qed.

Lemma read_only_lift {A} (r : result A) : read_only (lift r).
Proof. done. Qed.

Lemma read_only_throw {A} ex : read_only (@throw A ex).
Proof. done. Qed.

Lemma read_only_getItem k : read_only (getItem k).
Proof. done. Qed.

Lemma read_only_deref a : read_only (deref a).
Proof. done. Qed.

Lemma read_only_bind {A B} (m : M A) (f : A → M B) :
  read_only m → (∀ a, read_only (f a)) → read_only (m ≫= f).
Proof.
  intros Hm Hf st. unfold mbind, M_bind. specialize (Hm st).
  destruct (m st) as [[a|ex] st1]; cbn in Hm; subst; [apply Hf|done].
Qed.

Lemma read_only_try_catch {A} (m : M A) (h : exn → M A) :
  read_only m → (∀ ex, read_only (h ex)) → read_only (try_catch m h).
Proof.
  intros Hm Hh st. unfold try_catch. specialize (Hm st).
  destruct (m st) as [[a|ex] st1]; cbn in Hm; subst; [done|apply Hh].
Qed.

Lemma read_only_if {A} (b : bool) (m1 m2 : M A) :
  read_only m1 → read_only m2 → read_only (if b then m1 else m2).
Proof. by destruct b. Qed.

#[local] Hint Resolve read_only_ret read_only_lift read_only_throw read_only_getItem
  read_only_deref read_only_if : frame.

Ltac read_only_steps :=
  repeat first
    [ solve [auto with frame]
    | apply read_only_ret
    | apply read_only_lift
    | apply read_only_if
    | apply read_only_bind; [|intros ?]
    | apply read_only_try_catch; [|intros ?] ].

Lemma getData_read_only : read_only getData.
Proof.
  unfold getData. read_only_steps.
  destruct a as [b|]; auto with frame.
Qed.

#[local] Hint Resolve getData_read_only : frame.

Lemma getInvoices_read_only : read_only getInvoices.
Proof. unfold getInvoices. read_only_steps. Qed.

#[local] Hint Resolve getInvoices_read_only : frame.

(** X1.  The four reading operations leave the state, that is the whole of
    [localStorage] and every object of the caller, exactly as they found
    it: for every stored text, every id, every query and every platform,
    and also when they throw. *)
Theorem reads_never_write (e : env) (st : state) (id : option value)
    (query : option string) :
  (getData st).2 = st
  ∧ (getInvoices st).2 = st
  ∧ (getInvoice id st).2 = st
  ∧ (searchInvoices e query st).2 = st.
Proof.
  split; [apply getData_read_only|]. split; [apply getInvoices_read_only|]. split.
  - revert st. change (read_only (getInvoice id)). unfold getInvoice. read_only_steps.
  - revert st. change (read_only (searchInvoices e query)). unfold searchInvoices.
    read_only_steps.
Qed.

Lemma touches_only_read {A} keys (m : M A) : read_only m → touches_only keys m.
Proof. intros Hm st k _. by rewrite Hm. Qed.

Lemma touches_only_setItem keys e k b : k ∈ keys → touches_only keys (setItem e k b).
Proof.
  intros Hk st j Hj. unfold setItem. destruct (setItem_fault e); [done|].
  cbn. apply lookup_insert_ne. by intros ->.
Qed.

Lemma touches_only_removeItem keys k : k ∈ keys → touches_only keys (removeItem k).
Proof.
  intros Hk st j Hj. cbn. apply lookup_delete_ne. by intros ->.
Qed.

Lemma touches_only_assign keys a k x : touches_only keys (assign a k x).
Proof. intros st j _. by destruct a as [|[]|]. Qed.

Lemma touches_only_bind {A B} keys (m : M A) (f : A → M B) :
  touches_only keys m → (∀ a, touches_only keys (f a)) → touches_only keys (m ≫= f).
Proof.
  intros Hm Hf st k Hk. unfold mbind, M_bind. specialize (Hm st k Hk).
  destruct (m st) as [[a|ex] st1]; cbn in Hm; [|done].
  by rewrite Hf.
Qed.

Lemma touches_only_try_catch {A} keys (m : M A) (h : exn → M A) :
  touches_only keys m → (∀ ex, touches_only keys (h ex)) →
  touches_only keys (try_catch m h).
Proof.
  intros Hm Hh st k Hk. unfold try_catch. specialize (Hm st k Hk).
  destruct (m st) as [[a|ex] st1]; cbn in Hm; [done|].
  by rewrite Hh.
Qed.

Lemma touches_only_if {A} keys (b : bool) (m1 m2 : M A) :
  touches_only keys m1 → touches_only keys m2 → touches_only keys (if b then m1 else m2).
Proof. by destruct b. Qed.

Ltac touches_only_steps :=
  repeat first
    [ solve [auto with frame]
    | apply touches_only_read; solve [read_only_steps]
    | apply touches_only_assign
    | apply touches_only_if
    | apply touches_only_bind; [|intros ?]
    | apply touches_only_try_catch; [|intros ?] ].

Lemma isQuotaExceeded_read_only ex : read_only (_isQuotaExceeded ex).
Proof. by destruct ex. Qed.

Lemma saveData_touches keys e data :
  STORAGE_KEY ∈ keys → touches_only keys (saveData e data).
Proof.
  intros Hk. unfold saveData. apply touches_only_try_catch.
  - by apply touches_only_setItem.
  - intros ex. apply touches_only_bind.
    + apply touches_only_read, isQuotaExceeded_read_only.
    + intros []; by apply touches_only_read.
Qed.

#[local] Hint Resolve saveData_touches : frame.

Lemma saveInvoice_touches keys e invoice :
  STORAGE_KEY ∈ keys → touches_only keys (saveInvoice e invoice).
Proof.
  intros Hk. unfold saveInvoice.
  apply touches_only_bind; [by apply touches_only_read|intros arg0].
  apply touches_only_bind; [by apply touches_only_read|intros valid].
  apply touches_only_if; [by apply touches_only_read|].
  apply touches_only_try_catch; [|intros []; by apply touches_only_read].
  do 5 (apply touches_only_bind; [apply touches_only_read; read_only_steps|intros ?]).
  destruct a3; touches_only_steps.
Qed.

Lemma deleteInvoice_touches keys e id :
  STORAGE_KEY ∈ keys → touches_only keys (deleteInvoice e id).
Proof.
  intros Hk. unfold deleteInvoice.
  apply touches_only_try_catch; [|intros ?; by apply touches_only_read].
  do 4 (apply touches_only_bind; [apply touches_only_read; read_only_steps|intros ?]).
  touches_only_steps.
Qed.

Lemma getStoredTheme_lookup st :
  ThemeManager.getStoredTheme st =
  (Ok (match localStorage st !! "invoicer-theme" with
       | Some b => if blob_truthy b then b else Unparsable "dark"
       | None => Unparsable "dark"
       end), st).
Proof. reflexivity. Qed.

(** X2.  A write of the repository changes no [localStorage] key other than
    [invoicer_data]: for every argument, stored text and answer of the
    platform, every other key holds after [saveInvoice], [deleteInvoice] and
    [saveData] what it held before.  In particular the stored theme is what
    it was. *)
Theorem writes_touch_only_the_document (e : env) (invoice : arg) (id : option value)
    (data : value) (st : state) (k : string) :
  k ≠ "invoicer_data" →
  localStorage (saveInvoice e invoice st).2 !! k = localStorage st !! k
  ∧ localStorage (deleteInvoice e id st).2 !! k = localStorage st !! k
  ∧ localStorage (saveData e data st).2 !! k = localStorage st !! k
  ∧ (ThemeManager.getStoredTheme (saveInvoice e invoice st).2).1 =
      (ThemeManager.getStoredTheme st).1
  ∧ (ThemeManager.getStoredTheme (deleteInvoice e id st).2).1 =
      (ThemeManager.getStoredTheme st).1.
Proof.
  intros Hk.
  assert (STORAGE_KEY ∈ [STORAGE_KEY]) as Hin by apply list_elem_of_here.
  assert (∀ j, j ≠ "invoicer_data" → j ∉ [STORAGE_KEY]) as Hout.
  { intros j Hj Hj'. apply list_elem_of_singleton in Hj'. done. }
  pose proof (saveInvoice_touches _ e invoice Hin st) as Hsave.
  pose proof (deleteInvoice_touches _ e id Hin st) as Hdelete.
  split; [by apply Hsave, Hout|]. split; [by apply Hdelete, Hout|].
  split; [by apply (saveData_touches _ e data Hin st), Hout|].
  rewrite !getStoredTheme_lookup. cbn [fst].
  by rewrite Hsave, Hdelete by by apply Hout.
Qed.

(** ** Edge cases of reading *)

Lemma get_invoices_prop doc :
  doc ≠ VNull → get (Some doc) "invoices" = Ok (prop doc "invoices").
Proof. by destruct doc. Qed.

Lemma stored_document_null st :
  stored_document st = VNull ↔ localStorage st !! STORAGE_KEY = Some (Json VNull).
Proof.
  unfold stored_document. destruct (localStorage st !! STORAGE_KEY) as [[t|v]|]; split;
    try done; [by intros ->|by intros [= ->]].
Qed.

(** X3.  [getInvoices] raises an exception, a [TypeError], exactly when the
    stored text is the JSON text [null].  With nothing stored, with an
    unparsable text, and with a stored document that has no [invoices]
    property it returns the empty sequence. *)
Theorem getInvoices_edge_cases (st : state) :
  ((∃ ex st', getInvoices st = (Throw ex, st')) ↔
     localStorage st !! STORAGE_KEY = Some (Json VNull))
  ∧ (localStorage st !! STORAGE_KEY = Some (Json VNull) →
     getInvoices st = (Throw TypeError, st))
  ∧ (match localStorage st !! STORAGE_KEY with
     | None | Some (Unparsable _) => True
     | Some (Json doc) => doc ≠ VNull ∧ prop doc "invoices" = None
     end →
     getInvoices st = (Ok (VArr []), st)).
Proof.
  assert (∀ doc, stored_document st = doc → doc ≠ VNull →
            getInvoices st = (Ok (or_else (prop doc "invoices") (VArr [])), st)) as Hok.
  { intros doc Hdoc Hnn. unfold getInvoices.
    erewrite bind_Ok; [|apply getData_run]. rewrite Hdoc.
    erewrite bind_Ok; [done|]. unfold lift. by rewrite get_invoices_prop. }
  assert (stored_document st = VNull → getInvoices st = (Throw TypeError, st)) as Hnull.
  { intros Hdoc. unfold getInvoices.
    erewrite bind_Ok; [|apply getData_run]. by rewrite Hdoc. }
  split; [|split].
  - split.
    + intros (ex & st' & Hrun). apply stored_document_null.
      destruct (stored_document st) eqn:Hdoc; try done;
        by rewrite (Hok _ eq_refl) in Hrun.
    + intros H. apply stored_document_null in H. eauto.
  - intros H. by apply Hnull, stored_document_null.
  - intros H. unfold stored_document in Hok.
    destruct (localStorage st !! STORAGE_KEY) as [[t|doc]|].
    + by rewrite (Hok _ eq_refl).
    + destruct H as [Hnn Hnone]. by rewrite (Hok _ eq_refl Hnn), Hnone.
    + by rewrite (Hok _ eq_refl).
Qed.

Lemma find_first_match id l i x :
  first_match id l i x → List.find (same_id id) l = Some x.
Proof.
  revert i. induction l as [|y l IH]; intros i (Hi & Hsame & Hfirst); [done|].
  destruct i as [|i]; cbn in *.
  - injection Hi as ->. by rewrite Hsame.
  - rewrite (Hfirst 0 y); [|done|lia]. apply (IH i). split; [done|]. split; [done|].
    intros j z Hj Hlt. apply (Hfirst (S j) z); [done|lia].
Qed.

Lemma find_no_match id l :
  (∀ x, x ∈ l → same_id id x = false) → List.find (same_id id) l = None.
Proof.
  induction l as [|y l IH]; intros H; [done|]. cbn.
  rewrite H by apply list_elem_of_here. apply IH. intros x Hx. apply H.
  by apply list_elem_of_further.
Qed.

Lemma same_id_not_primitive id x : primitive id = false → same_id id x = false.
Proof.
  unfold same_id. destruct id as [[]|]; try done; intros _;
    by destruct (prop x "id") as [[| | | | | |[]]|].
Qed.

(** X4.  With the stored document loading as an application document,
    [getInvoice] returns the first stored invoice that has the id, returns
    [null] when no stored invoice has it, and always returns [null] for an
    id that is an array or an object. *)
Theorem getInvoice_first_or_null (st : state) (data : gmap string value)
    (l : list value) (id : option value) :
  loads st data l →
  (∀ i x, first_match id l i x → getInvoice id st = (Ok x, st))
  ∧ ((∀ x, x ∈ l → same_id id x = false) → getInvoice id st = (Ok VNull, st))
  ∧ (primitive id = false → getInvoice id st = (Ok VNull, st)).
Proof.
  intros Hload. rewrite (getInvoice_run st data l id Hload).
  split; [|split].
  - intros i x Hm. rewrite (find_first_match _ _ _ _ Hm).
    destruct Hm as (Hi & _). destruct Hload as (_ & _ & Hobj).
    rewrite Forall_forall in Hobj.
    assert (is_object (Some x) = true) as Hx.
    { apply Hobj. by eapply list_elem_of_lookup_2. }
    by destruct x.
  - intros Hnone. by rewrite find_no_match.
  - intros Hid. rewrite find_no_match; [done|]. intros x _.
    by apply same_id_not_primitive.
Qed.

(** ** A stored document without its invoices *)

Lemma as_array_fails o :
  (∀ l, o ≠ Some (VArr l)) → as_array o = Throw TypeError.
Proof. intros H. destruct o as [[]|]; try done. by destruct (H l). Qed.

Lemma invoices_unreadable doc :
  (∀ l, prop doc "invoices" ≠ Some (VArr l)) →
  get (Some doc) "invoices" = Throw TypeError
  ∨ ∃ o, get (Some doc) "invoices" = Ok o ∧ as_array o = Throw TypeError.
Proof.
  intros H. destruct doc; [by left|right; eexists; split; [done|]..];
    apply as_array_fails; try done.
Qed.

(** X5.  When the stored document has no [invoices] sequence, as for the
    stored text [{"version":"1.0.0"}] or [null], [saveInvoice] returns
    [false] for every argument, valid invoices included, and [deleteInvoice]
    returns [false] for every id; neither throws and neither changes the
    state, whatever the platform would answer to a write. *)
Theorem missing_invoices_block_writes (e : env) (st : state) (invoice : arg)
    (id : option value) :
  (∀ l, prop (stored_document st) "invoices" ≠ Some (VArr l)) →
  saveInvoice e invoice st = (Ok false, st)
  ∧ deleteInvoice e id st = (Ok false, st).
Proof.
  intros Hmissing. split.
  - destruct (validate_total (value_of st invoice)) as [[|] Hv];
      [|by apply saveInvoice_invalid].
    unfold saveInvoice.
    erewrite bind_Ok; [|done].
    erewrite bind_Ok; [|unfold lift; by rewrite Hv].
    cbn [negb]. unfold try_catch.
    erewrite bind_Ok; [|apply getData_run].
    destruct (invoices_unreadable _ Hmissing) as [Hget|(o & Hget & Harr)].
    + erewrite bind_Throw; [|unfold lift; by rewrite Hget]. reflexivity.
    + erewrite bind_Ok; [|unfold lift; by rewrite Hget].
      erewrite bind_Throw; [|unfold lift; by rewrite Harr]. reflexivity.
  - unfold deleteInvoice, try_catch.
    erewrite bind_Ok; [|apply getData_run].
    destruct (invoices_unreadable _ Hmissing) as [Hget|(o & Hget & Harr)].
    + erewrite bind_Throw; [|unfold lift; by rewrite Hget]. reflexivity.
    + erewrite bind_Ok; [|unfold lift; by rewrite Hget].
      erewrite bind_Throw; [|unfold lift; by rewrite Harr]. reflexivity.
Qed.

(** ** The first save over nothing, or over a damaged text *)

Lemma loads_defaults st :
  match localStorage st !! STORAGE_KEY with
  | None | Some (Unparsable _) => True
  | Some (Json _) => False
  end →
  ∃ defaults, _getDefaults = VObj defaults ∧ loads st defaults [].
Proof.
  intros H. eexists. split; [reflexivity|]. split; [|split].
  - rewrite getData_run. unfold stored_document.
    by destruct (localStorage st !! STORAGE_KEY) as [[]|].
  - reflexivity.
  - constructor.
Qed.

(** X6.  When nothing is stored, or the stored text cannot be parsed, a
    successful [saveInvoice] writes, as JSON, the default document with the
    invoice as its only entry: an unparsable text is replaced and cannot be
    recovered afterwards.  [deleteInvoice] in the same state returns
    [false] and leaves the text where it is. *)
Theorem first_save_replaces_stored_text (e : env) (st : state) (r : loc)
    (inv : gmap string value) :
  match localStorage st !! STORAGE_KEY with
  | None | Some (Unparsable _) => True
  | Some (Json _) => False
  end →
  heap st !! r = Some inv →
  _validateInvoice (Some (VObj inv)) = Ok true →
  setItem_fault e = None →
  ∃ (defaults : gmap string value) (st' : state),
    _getDefaults = VObj defaults
    ∧ saveInvoice e (Object r) st = (Ok true, st')
    ∧ localStorage st' !! STORAGE_KEY =
        Some (JSON_stringify (VObj (<["invoices" := VArr [VObj (created e inv)]]> defaults)))
    ∧ ∀ id, deleteInvoice e id st = (Ok false, st).
Proof.
  intros Hstored Hr Hv Hw. destruct (loads_defaults st Hstored) as (defaults & Hd & Hload).
  exists defaults. eexists. split; [done|]. split; [|split].
  - rewrite (saveInvoice_create e st r inv defaults []); [by rewrite Hw|done..|].
    intros x Hx. by apply not_elem_of_nil in Hx.
  - unfold written. cbn [localStorage]. by rewrite lookup_insert_eq.
  - intros id. by rewrite (deleteInvoice_run e id st defaults [] Hload).
Qed.

(** ** Ids stay distinct *)

Lemma Qeq_bool_sym x y : Qeq_bool x y = Qeq_bool y x.
Proof.
  destruct (Qeq_bool x y) eqn:E1, (Qeq_bool y x) eqn:E2; try done.
  - apply Qeq_bool_iff in E1. symmetry in E1. apply Qeq_bool_iff in E1. congruence.
  - apply Qeq_bool_iff in E2. symmetry in E2. apply Qeq_bool_iff in E2. congruence.
Qed.

Lemma strict_eq_sym a b : strict_eq a b = strict_eq b a.
Proof.
  destruct a as [[| x | x | x | | | []]|], b as [[| y | y | y | | | []]|]; try done; cbn.
  - by destruct x, y.
  - apply Qeq_bool_sym.
  - apply String.eqb_sym.
Qed.

Lemma strict_eq_trans a b c : strict_eq a b = true → strict_eq c a = strict_eq c b.
Proof.
  destruct a as [[| x | x | x | | | []]|], b as [[| y | y | y | | | []]|]; try done;
    cbn; intros H.
  - apply Bool.eqb_prop in H. by subst.
  - destruct c as [[| z | z | z | | | z]|]; try done. cbn.
    apply Qeq_bool_iff in H.
    destruct (Qeq_bool z x) eqn:E1, (Qeq_bool z y) eqn:E2; try done.
    + apply Qeq_bool_iff in E1. rewrite H in E1. apply Qeq_bool_iff in E1. congruence.
    + apply Qeq_bool_iff in E2. rewrite <- H in E2. apply Qeq_bool_iff in E2. congruence.
  - apply String.eqb_eq in H. by subst.
Qed.

Lemma distinct_ids_filter (p : value → bool) l :
  distinct_ids l → distinct_ids (List.filter p l).
Proof.
  induction l as [|x l IH]; [done|]. intros [Hx Hl]. cbn.
  destruct (p x); [|by apply IH]. split; [|by apply IH].
  intros y Hy. apply Hx. apply list_elem_of_In in Hy. apply filter_In in Hy as [Hy _].
  by apply list_elem_of_In.
Qed.

Lemma distinct_ids_snoc l x :
  distinct_ids l → (∀ y, y ∈ l → same_id (prop x "id") y = false) →
  distinct_ids (l ++ [x]).
Proof.
  induction l as [|z l IH]; intros Hl Hx; [done|]. destruct Hl as [Hz Hl].
  cbn. split.
  - intros y Hy. apply elem_of_app in Hy as [Hy|Hy]; [by apply Hz|].
    apply list_elem_of_singleton in Hy as ->.
    unfold same_id. rewrite strict_eq_sym. apply (Hx z), list_elem_of_here.
  - apply IH; [done|]. intros y Hy. apply Hx. by apply list_elem_of_further.
Qed.

Lemma elem_of_insert_inv (l : list value) i x y :
  y ∈ <[i := x]> l → y = x ∨ y ∈ l.
Proof.
  revert i. induction l as [|z l IH]; intros i Hy; [by right|].
  destruct i as [|i]; cbn in Hy; apply elem_of_cons in Hy as [->|Hy].
  - by left.
  - right. by apply list_elem_of_further.
  - right. apply list_elem_of_here.
  - destruct (IH i Hy) as [->|?]; [by left|right; by apply list_elem_of_further].
Qed.

Lemma distinct_ids_insert l i old new :
  distinct_ids l → l !! i = Some old →
  (∀ c, strict_eq c (prop new "id") = strict_eq c (prop old "id")) →
  distinct_ids (<[i := new]> l).
Proof.
  revert i. induction l as [|z l IH]; intros i Hl Hi Hid; [done|].
  destruct Hl as [Hz Hl]. destruct i as [|i]; cbn in Hi |- *.
  - injection Hi as ->. split; [|done]. intros y Hy.
    unfold same_id in *. rewrite Hid. by apply Hz.
  - split; [|by apply (IH i)]. intros y Hy.
    destruct (elem_of_insert_inv _ _ _ _ Hy) as [->|Hy']; [|by apply Hz].
    unfold same_id in *. rewrite strict_eq_sym, Hid, strict_eq_sym.
    apply Hz. by eapply list_elem_of_lookup_2.
Qed.

Lemma merged_id e inv old i l :
  first_match (inv !! "id") l i old → is_object (Some old) = true →
  ∀ c, strict_eq c (merged e inv (Some old) !! "id") = strict_eq c (prop old "id").
Proof.
  intros (_ & Hsame & _) Hold c. rewrite merged_lookup.
  destruct (decide ("id" = "updatedAt")); [done|].
  destruct (inv !! "id") as [v|] eqn:Hid.
  - symmetry. by apply strict_eq_trans.
  - by destruct old.
Qed.

Lemma merged_id_serialized e inv old :
  same_id (inv !! "id") old = true →
  is_object (Some old) = true →
  json_primitive (inv !! "id") = true →
  serialized <$> merged e inv (Some old) !! "id" = merged e inv (Some old) !! "id".
Proof.
  intros Hsame Hold Hprim. rewrite merged_lookup. case_decide; [done|].
  destruct (inv !! "id") as [v|] eqn:Hid; [by apply serialized_json_primitive|].
  destruct old; try done. cbn [own_props]. unfold same_id in Hsame. cbn [prop] in Hsame.
  apply strict_eq_undefined in Hsame. by rewrite Hsame.
Qed.

Lemma loads_storable_list st data l :
  loads st data l → storable (VObj data) → serialized <$> l = l.
Proof.
  intros Hload Hs. apply storable_fmap. eapply storable_invoices; [exact Hs|apply Hload].
Qed.

(** X7.  The repository keeps the ids of the stored invoices pairwise
    distinct: if they are distinct in a stored document that loads and
    holds no numeral beyond the range of the doubles, they are distinct
    after every successful [saveInvoice] of an invoice whose id JSON can
    write (when the id it generates is not already stored) and after every
    [deleteInvoice]. *)
Theorem repository_keeps_ids_distinct (e : env) (st st' : state)
    (data : gmap string value) (l : list value) :
  loads st data l →
  storable (VObj data) →
  distinct_ids l →
  (∀ r inv,
     heap st !! r = Some inv →
     json_primitive (inv !! "id") = true →
     (truthy (inv !! "id") = false →
      ∀ x, x ∈ l → same_id (Some (VStr (randomUUID e))) x = false) →
     saveInvoice e (Object r) st = (Ok true, st') →
     distinct_ids (stored_invoices st'))
  ∧ (∀ id b, deleteInvoice e id st = (Ok b, st') → distinct_ids (stored_invoices st')).
Proof.
  intros Hload Hstorable Hdistinct.
  pose proof (loads_storable_list _ _ _ Hload Hstorable) as Hl. split.
  - intros r inv Hr Hprim Hfresh Hsave.
    destruct (validate_total (Some (VObj inv))) as [[|] Hv].
    2:{ rewrite saveInvoice_invalid in Hsave; [done|]. cbn. by rewrite Hr. }
    pose proof (id_is_objects (inv !! "id") l (proj2 (proj2 Hload))) as Hpure.
    destruct (findIndex_total _ _ l Hpure) as [index Hi].
    pose proof (findIndex_inv _ _ l index Hpure Hi) as Hinv.
    rewrite (saveInvoice_run e r inv st data l index) in Hsave; try done;
      [|by eapply loads_document|apply Hload].
    destruct index as [i|]; cbn zeta in Hsave;
      destruct (setItem_fault e) as [ex|]; try done; injection Hsave as <-;
      rewrite stored_invoices_written.
    + destruct Hinv as (old & Hold & Hsame & Hfirst). rewrite Hold.
      rewrite list_fmap_insert, Hl.
      eapply distinct_ids_insert; [done|done|].
      assert (is_object (Some old) = true) as Hobj.
      { destruct Hload as (_ & _ & Hobj). rewrite Forall_forall in Hobj.
        apply Hobj. by eapply list_elem_of_lookup_2. }
      intros c. rewrite serialized_prop. cbn [prop].
      rewrite merged_id_serialized by done. by eapply merged_id.
    + rewrite fmap_app, Hl. cbn [fmap list_fmap].
      apply distinct_ids_snoc; [done|]. intros y Hy.
      rewrite serialized_prop. cbn [prop].
      rewrite serialized_json_primitive by by apply created_json_primitive.
      rewrite created_lookup. destruct (decide ("id" = "id")); [|done].
      destruct (truthy (inv !! "id")) eqn:T; [by apply Hinv|by apply Hfresh].
  - intros id b Hrun. rewrite (deleteInvoice_run e id st data l Hload) in Hrun.
    cbn zeta in Hrun.
    destruct (Nat.eqb _ _).
    { injection Hrun as <- <-. by rewrite (stored_invoices_loads _ _ _ Hload). }
    destruct (setItem_fault e); injection Hrun as <- <-.
    + by rewrite (stored_invoices_loads _ _ _ Hload).
    + rewrite stored_invoices_written, storable_fmap; [by apply distinct_ids_filter|].
      pose proof (storable_invoices data l Hstorable (proj1 (proj2 Hload))) as Hs.
      rewrite Forall_forall in Hs |- *. intros x Hx. apply Hs.
      apply list_elem_of_In, filter_In in Hx as [Hx _]. by apply list_elem_of_In.
Qed.

(** ** Saving twice, and deleting what was saved *)

Lemma validate_same_fields inv inv' :
  inv' !! "client" = inv !! "client" → inv' !! "items" = inv !! "items" →
  _validateInvoice (Some (VObj inv')) = _validateInvoice (Some (VObj inv)).
Proof. intros Hc Hi. by rewrite !validate_object, Hc, Hi. Qed.

Lemma created_valid e inv :
  _validateInvoice (Some (VObj (created e inv))) = _validateInvoice (Some (VObj inv)).
Proof. apply validate_same_fields; rewrite created_lookup; by repeat case_decide. Qed.

Lemma created_first_match e inv l :
  json_primitive (inv !! "id") = true →
  (∀ x, x ∈ l → same_id (inv !! "id") x = false) →
  (truthy (inv !! "id") = false →
   ∀ x, x ∈ l → same_id (Some (VStr (randomUUID e))) x = false) →
  first_match (created e inv !! "id") (l ++ [serialized (VObj (created e inv))]) (length l)
    (serialized (VObj (created e inv))).
Proof.
  intros Hprim Hnone Hfresh. split; [|split].
  - rewrite lookup_app_r by lia. by rewrite Nat.sub_diag.
  - by apply created_same_id.
  - intros j y Hj Hlt. rewrite lookup_app_l in Hj by done.
    apply list_elem_of_lookup_2 in Hj.
    rewrite created_lookup. destruct (decide ("id" = "id")); [|done].
    destruct (truthy (inv !! "id")) eqn:T; [by apply Hnone|by apply Hfresh].
Qed.

Lemma merged_first_match e inv l i old :
  first_match (inv !! "id") l i old →
  is_object (Some old) = true →
  json_primitive (inv !! "id") = true →
  first_match (inv !! "id") (<[i := serialized (VObj (merged e inv (Some old)))]> l) i
    (serialized (VObj (merged e inv (Some old)))).
Proof.
  intros (Hi & Hsame & Hfirst) Hold Hprim. split; [|split].
  - apply list_lookup_insert_eq. by eapply lookup_lt_Some.
  - by apply merged_same_id.
  - intros j y Hj Hlt. rewrite list_lookup_insert_ne in Hj by lia. by eapply Hfirst.
Qed.

(** X8.  Saving the same object twice stores it once.  After a successful
    [saveInvoice] of the caller's object (an id that JSON can write, a
    generated id not already stored, a stored document without a numeral
    beyond the range of the doubles), a second [saveInvoice] of that
    object, accepted by the platform, takes the update branch on the entry
    the first call wrote: the entry is merged in place, as JSON writes the
    merge, and the number of stored invoices does not change. *)
Theorem saving_twice_stores_once (e e2 : env) (st st1 : state) (r : loc)
    (inv data : gmap string value) (l : list value) :
  heap st !! r = Some inv →
  loads st data l →
  storable (VObj data) →
  json_primitive (inv !! "id") = true →
  (truthy (inv !! "id") = false →
   ∀ x, x ∈ l → same_id (Some (VStr (randomUUID e))) x = false) →
  saveInvoice e (Object r) st = (Ok true, st1) →
  setItem_fault e2 = None →
  ∃ (st2 : state) (obj : gmap string value) (i : nat) (old : value),
    heap st1 !! r = Some obj
    ∧ first_match (obj !! "id") (stored_invoices st1) i old
    ∧ saveInvoice e2 (Object r) st1 = (Ok true, st2)
    ∧ stored_invoices st2 =
        <[i := serialized (VObj (merged e2 obj (Some old)))]> (stored_invoices st1)
    ∧ length (stored_invoices st2) = length (stored_invoices st1).
Proof.
  intros Hr Hload Hstorable Hprim Hfresh Hsave Hw2.
  pose proof (loads_storable_list _ _ _ Hload Hstorable) as Hl.
  destruct (validate_total (Some (VObj inv))) as [[|] Hv].
  2:{ rewrite saveInvoice_invalid in Hsave; [done|]. cbn. by rewrite Hr. }
  pose proof (id_is_objects (inv !! "id") l (proj2 (proj2 Hload))) as Hpure.
  destruct (findIndex_total _ _ l Hpure) as [index Hi].
  pose proof (findIndex_inv _ _ l index Hpure Hi) as Hinv.
  rewrite (saveInvoice_run e r inv st data l index) in Hsave; try done;
    [|by eapply loads_document|apply Hload].
  assert (∀ x, x ∈ l → is_object (Some x) = true) as Hobj.
  { destruct Hload as (_ & _ & Hobj). by rewrite Forall_forall in Hobj. }
  assert (∀ (st0 : state) (d : gmap string value) (l1 : list value) (obj : gmap string value)
            (i : nat) (old : value),
            Forall (λ x, is_object (Some x) = true) l1 →
            heap (written st0 (with_invoices d l1)) !! r = Some obj →
            _validateInvoice (Some (VObj obj)) = Ok true →
            first_match (obj !! "id") (serialized <$> l1) i old →
            ∃ st2,
              saveInvoice e2 (Object r) (written st0 (with_invoices d l1)) = (Ok true, st2)
              ∧ stored_invoices st2 =
                  <[i := serialized (VObj (merged e2 obj (Some old)))]> (serialized <$> l1)
              ∧ length (stored_invoices st2) = length (serialized <$> l1)) as Hsecond.
  { intros st0 d l1 obj i old Hobj1 Hheap Hvalid Hm. eexists. split; [|split].
    - erewrite saveInvoice_update; [by rewrite Hw2|exact Hheap|exact Hvalid| |exact Hm].
      by apply loads_written.
    - by rewrite stored_invoices_written, list_fmap_insert, serialized_list_idempotent.
    - by rewrite stored_invoices_written, length_fmap, length_insert. }
  destruct index as [i|]; cbn zeta in Hsave;
    destruct (setItem_fault e) as [ex|]; try done; injection Hsave as <-.
  - destruct Hinv as (old & Hold & Hsame & Hfirst). rewrite Hold.
    assert (first_match (inv !! "id") l i old) as Hm by done.
    assert (is_object (Some old) = true) as Ho.
    { apply Hobj. by eapply list_elem_of_lookup_2. }
    pose proof (merged_first_match e inv l i old Hm Ho Hprim) as Hm'.
    rewrite stored_invoices_written.
    rewrite <- Hl in Hm' at 1. rewrite <- list_fmap_insert in Hm'.
    destruct (Hsecond st data (<[i := VObj (merged e inv (Some old))]> l) inv i
                (serialized (VObj (merged e inv (Some old)))))
      as (st2 & H1 & H2 & H3); [|done|done|exact Hm'|].
    { apply Forall_insert; [apply Hload|done]. }
    by exists st2, inv, i, (serialized (VObj (merged e inv (Some old)))).
  - pose proof (created_first_match e inv l Hprim Hinv Hfresh) as Hm'.
    rewrite stored_invoices_written.
    rewrite <- Hl in Hm' at 1.
    change [serialized (VObj (created e inv))] with (serialized <$> [VObj (created e inv)])
      in Hm'.
    rewrite <- fmap_app in Hm'.
    destruct (Hsecond (with_object st r (created e inv)) data
                (l ++ [VObj (created e inv)])%list (created e inv) (length l) (serialized (VObj (created e inv))))
      as (st2 & H1 & H2 & H3); [|apply heap_with_object|by rewrite created_valid|exact Hm'|].
    { apply Forall_app. split; [apply Hload|by repeat constructor]. }
    exists st2, (created e inv), (length l), (serialized (VObj (created e inv))).
    split; [apply heap_with_object|done].
Qed.

Lemma filter_keeps_all (p : value → bool) l :
  (∀ x, x ∈ l → p x = true) → List.filter p l = l.
Proof.
  induction l as [|x l IH]; intros H; [done|]. cbn.
  rewrite H by apply list_elem_of_here. f_equal. apply IH. intros y Hy. apply H.
  by apply list_elem_of_further.
Qed.

(** X9.  Deleting undoes a creation.  When a valid invoice with no stored
    counterpart, and with an id that JSON can write, is saved and then
    deleted by the id its object carries, both writes being accepted,
    [deleteInvoice] returns [true] and the stored document, if it held no
    numeral beyond the range of the doubles, is again the document that was
    loaded before the save, with the same invoices in the same order. *)
Theorem delete_undoes_create (e e2 : env) (st : state) (r : loc)
    (inv data : gmap string value) (l : list value) :
  heap st !! r = Some inv →
  _validateInvoice (Some (VObj inv)) = Ok true →
  loads st data l →
  storable (VObj data) →
  (∀ x, x ∈ l → same_id (inv !! "id") x = false) →
  json_primitive (inv !! "id") = true →
  (truthy (inv !! "id") = false →
   ∀ x, x ∈ l → same_id (Some (VStr (randomUUID e))) x = false) →
  setItem_fault e = None →
  setItem_fault e2 = None →
  ∃ (st1 st2 : state) (obj : gmap string value),
    saveInvoice e (Object r) st = (Ok true, st1)
    ∧ heap st1 !! r = Some obj
    ∧ deleteInvoice e2 (obj !! "id") st1 = (Ok true, st2)
    ∧ getData st2 = (Ok (VObj data), st2)
    ∧ stored_invoices st2 = l.
Proof.
  intros Hr Hv Hload Hstorable Hnone Hprim Hfresh Hw Hw2.
  pose proof (loads_storable_list _ _ _ Hload Hstorable) as Hl.
  pose proof (storable_object _ Hstorable) as Hdata.
  pose proof (created_first_match e inv l Hprim Hnone Hfresh) as (_ & Hsame & Hearlier).
  assert (List.filter (λ x, negb (same_id (created e inv !! "id") x)) (l ++ [serialized (VObj (created e inv))]) = l)
    as Hkept.
  { rewrite List.filter_app. cbn [List.filter]. rewrite Hsame. cbn [negb].
    rewrite app_nil_r. apply filter_keeps_all. intros x Hx.
    apply list_elem_of_lookup_1 in Hx as [j Hj].
    rewrite (Hearlier j x); [done| |by eapply lookup_lt_Some].
    by rewrite lookup_app_l by by eapply lookup_lt_Some. }
  assert (serialized <$> (l ++ [VObj (created e inv)]) = l ++ [serialized (VObj (created e inv))])%list as Hstored.
  { by rewrite fmap_app, Hl. }
  assert (serialized
            (with_invoices
               (<["invoices" := VArr (l ++ [serialized (VObj (created e inv))])]>
                  (serialized <$> data)) l) = VObj data) as Hback.
  { rewrite serialized_with_invoices, Hl. unfold with_invoices. f_equal.
    rewrite fmap_insert, insert_insert_eq.
    rewrite <- map_fmap_compose.
    assert (serialized ∘ serialized <$> data = data) as ->.
    { rewrite map_fmap_compose. by rewrite !Hdata. }
    apply insert_id, Hload. }
  eexists _, _, (created e inv). split.
  { rewrite (saveInvoice_create e st r inv data l) by done. by rewrite Hw. }
  split; [apply heap_with_object|].
  split.
  { erewrite deleteInvoice_run.
    2:{ apply loads_written. apply Forall_app.
        split; [apply Hload|by repeat constructor]. }
    cbn zeta. rewrite Hstored, Hkept, Hw2, length_app. cbn [length].
    destruct (Nat.eqb_spec (length l) (length l + 1)) as [?|_]; [lia|]. done. }
  split.
  - rewrite getData_written. by rewrite Hback.
  - unfold stored_invoices. rewrite stored_document_written, Hback. cbn [prop].
    by destruct Hload as (_ & -> & _).
Qed.

Lemma find_filter (p q : value → bool) l :
  (∀ x, x ∈ l → q x = true → p x = true) →
  List.find q (List.filter p l) = List.find q l.
Proof.
  induction l as [|x l IH]; intros H; [done|]. cbn.
  assert (List.find q (List.filter p l) = List.find q l) as IH'.
  { apply IH. intros y Hy. apply H. by apply list_elem_of_further. }
  destruct (q x) eqn:Q.
  - rewrite (H x (list_elem_of_here _ _) Q). cbn. by rewrite Q.
  - destruct (p x); cbn; by rewrite ?Q.
Qed.

(** X10.  After [deleteInvoice] has returned [true] for an id, on a stored
    document without a numeral beyond the range of the doubles,
    [getInvoice] of that id returns [null] and a second [deleteInvoice] of
    it returns [false] without changing anything; looking up any id whose
    invoices were not deleted gives what it gave before. *)
Theorem deleted_invoice_is_gone (e : env) (st st' : state) (id : option value)
    (data : gmap string value) (l : list value) :
  loads st data l →
  storable (VObj data) →
  deleteInvoice e id st = (Ok true, st') →
  getInvoice id st' = (Ok VNull, st')
  ∧ (∀ e2, deleteInvoice e2 id st' = (Ok false, st'))
  ∧ (∀ id2, (∀ x, x ∈ l → same_id id2 x = true → same_id id x = false) →
       (getInvoice id2 st').1 = (getInvoice id2 st).1).
Proof.
  intros Hload Hstorable Hrun. rewrite (deleteInvoice_run e id st data l Hload) in Hrun.
  cbn zeta in Hrun. destruct (Nat.eqb _ _); [done|].
  destruct (setItem_fault e); [done|]. injection Hrun as <-.
  set (kept := List.filter (λ x, negb (same_id id x)) l).
  assert (∀ x, x ∈ kept → same_id id x = false) as Hkept.
  { intros x Hx. apply list_elem_of_In, filter_In in Hx as [_ Hx].
    by destruct (same_id id x). }
  assert (serialized <$> kept = kept) as Hk.
  { apply storable_fmap.
    pose proof (storable_invoices data l Hstorable (proj1 (proj2 Hload))) as Hs.
    rewrite Forall_forall in Hs |- *. intros x Hx. apply Hs.
    apply list_elem_of_In, filter_In in Hx as [Hx _]. by apply list_elem_of_In. }
  assert (loads (written st (with_invoices data kept))
            (<["invoices" := VArr kept]> (serialized <$> data)) kept) as Hload'.
  { rewrite <- Hk at 2 3. apply loads_written. destruct Hload as (_ & _ & Hobj).
    rewrite Forall_forall in Hobj |- *. intros x Hx. apply Hobj.
    apply list_elem_of_In, filter_In in Hx as [Hx _]. by apply list_elem_of_In. }
  split; [|split].
  - rewrite (getInvoice_run _ _ _ id Hload'). by rewrite find_no_match.
  - intros e2. rewrite (deleteInvoice_run e2 id _ _ _ Hload'). cbn zeta.
    rewrite filter_keeps_all; [by rewrite Nat.eqb_refl|].
    intros x Hx. by rewrite Hkept.
  - intros id2 Hother.
    rewrite (getInvoice_run _ _ _ id2 Hload'), (getInvoice_run _ _ _ id2 Hload). cbn [fst].
    unfold kept. rewrite find_filter; [done|]. intros x Hx Hq. by rewrite Hother.
Qed.

(** ** Searching *)

(** X11.  The query reaches the search only through its truthiness and its
    lowercase form: two queries with the same lowercase form, both empty or
    both not, give the same answer, the same invoices or the same
    exception, in every state and on every platform; in particular a query
    and its lowercase form do, where lowercasing that form changes nothing
    and only the empty text has an empty lowercase form. *)
Theorem search_ignores_query_case (e : env) (st : state) (q1 q2 : string) :
  toLowerCase e q1 = toLowerCase e q2 →
  (q1 = "" ↔ q2 = "") →
  searchInvoices e (Some q1) st = searchInvoices e (Some q2) st
  ∧ (toLowerCase e (toLowerCase e q1) = toLowerCase e q1 →
     (q1 = "" ↔ toLowerCase e q1 = "") →
     searchInvoices e (Some q1) st = searchInvoices e (Some (toLowerCase e q1)) st).
Proof.
  assert (∀ a b, toLowerCase e a = toLowerCase e b → (a = "" ↔ b = "") →
            searchInvoices e (Some a) st = searchInvoices e (Some b) st) as Hcase.
  { intros a b Hab Hempty. unfold searchInvoices.
    change (default "" (Some a)) with a. change (default "" (Some b)) with b. rewrite Hab.
    assert (truthy (VStr <$> Some a) = truthy (VStr <$> Some b)) as ->; [|done].
    cbn. destruct (String.eqb_spec a ""), (String.eqb_spec b ""); try done; tauto. }
  intros H Hempty. split; [by apply Hcase|].
  intros Hidem Hempty'. apply Hcase; [by rewrite Hidem|done].
Qed.

Lemma filter_sublist (p : value → result bool) l hits :
  Array.filter p l = Ok hits → sublist hits l.
Proof.
  revert hits. induction l as [|x l IH]; intros hits; cbn.
  - by intros [= <-].
  - destruct (p x) as [b|]; [|done]. cbn.
    destruct (Array.filter p l) as [r|]; [|done]. cbn. intros [= <-].
    destruct b; [apply sublist_skip|apply sublist_cons]; by apply IH.
Qed.

(** X12.  Whatever is stored, a search that returns a sequence returns a
    subsequence of what [getInvoices] returns: every hit is a stored
    invoice, no invoice appears more often than it is stored, and the stored
    order is kept. *)
Theorem search_returns_stored_invoices (e : env) (st st' : state)
    (query : option string) (hits : list value) :
  searchInvoices e query st = (Ok (VArr hits), st') →
  ∃ l, getInvoices st = (Ok (VArr l), st) ∧ sublist hits l ∧ st' = st.
Proof.
  unfold searchInvoices. pose proof (getInvoices_read_only st) as Hro.
  destruct (negb (truthy (VStr <$> query))).
  - intros H. rewrite H in Hro. cbn in Hro. subst. by exists hits.
  - unfold mbind at 1, M_bind at 1.
    destruct (getInvoices st) as [[invoices|ex] st1]; [|done]. cbn in Hro. subst st1.
    unfold mbind at 1, M_bind at 1, lift at 1.
    destruct invoices as [| | | |l| |]; try done. cbn [as_array].
    unfold mbind at 1, M_bind at 1, lift at 1.
    destruct (Array.filter _ l) as [r|] eqn:Hf; [|done].
    intros [= <- <-]. exists l. split; [done|]. split; [|done].
    by eapply filter_sublist.
Qed.

Lemma get_throws v k ex : get v k = Throw ex → ex = TypeError.
Proof. destruct v as [[]|]; cbn; congruence. Qed.

Lemma lower_includes_throws e v term ex :
  lower_includes e v term = Throw ex → ex = TypeError.
Proof.
  unfold lower_includes. destruct (truthy v); [|done].
  destruct v as [[]|]; congruence.
Qed.

Lemma result_bind_throws {A B} (a : result A) (k : A → result B) ex :
  (∀ ex, a = Throw ex → ex = TypeError) →
  (∀ x ex, k x = Throw ex → ex = TypeError) →
  (a ≫= k) = Throw ex → ex = TypeError.
Proof.
  intros Ha Hk. destruct a as [x|ex'] eqn:E; cbn; [apply Hk|].
  intros [= <-]. by apply Ha.
Qed.

Lemma or_cond_throws a b ex :
  (∀ ex, a = Throw ex → ex = TypeError) → (∀ ex, b = Throw ex → ex = TypeError) →
  or_cond a b = Throw ex → ex = TypeError.
Proof.
  intros Ha Hb. apply result_bind_throws; [done|]. by intros [].
Qed.

Lemma get_lower_includes_throws e v k term ex :
  (x ← get v k; lower_includes e x term) = Throw ex → ex = TypeError.
Proof.
  apply result_bind_throws; [intros ?; apply get_throws|intros ??; apply lower_includes_throws].
Qed.

Lemma get_guarded_includes_throws e v k term ex :
  (c ← get v "client"; guarded_includes e c k term) = Throw ex → ex = TypeError.
Proof.
  apply result_bind_throws; [intros ?; apply get_throws|].
  intros c ?. unfold guarded_includes. destruct (truthy c); [|done].
  apply get_lower_includes_throws.
Qed.

Lemma some_throws (p : value → result bool) l ex :
  (∀ x ex, p x = Throw ex → ex = TypeError) → Array.some p l = Throw ex → ex = TypeError.
Proof.
  intros Hp. revert ex. induction l as [|x l IH]; intros ex; cbn [Array.some]; [done|].
  apply result_bind_throws; [apply Hp|]. intros [] ?; [done|apply IH].
Qed.

Lemma search_match_throws e term inv ex :
  search_match e term inv = Throw ex → ex = TypeError.
Proof.
  unfold search_match. apply result_bind_throws.
  - intros ?. apply or_cond_throws; [intros ?; apply get_lower_includes_throws|].
    intros ?. apply or_cond_throws; [intros ?; apply get_guarded_includes_throws|].
    intros ?. apply or_cond_throws; [intros ?; apply get_guarded_includes_throws|].
    intros ?. apply get_lower_includes_throws.
  - intros [] ?; [done|]. apply result_bind_throws; [intros ?; apply get_throws|].
    intros items ?. destruct (truthy items && isArray items); [|done].
    apply result_bind_throws.
    + intros ?. destruct items as [[]|]; cbn; congruence.
    + intros l ?. apply some_throws. intros ??. apply get_lower_includes_throws.
Qed.

Lemma filter_throws (p : value → result bool) l x :
  (∀ y ex, p y = Throw ex → ex = TypeError) →
  x ∈ l → p x = Throw TypeError → Array.filter p l = Throw TypeError.
Proof.
  intros Hp Hx Px. induction l as [|y l IH]; [by apply elem_of_nil in Hx|].
  cbn. destruct (p y) as [b|ex] eqn:P; cbn.
  - apply elem_of_cons in Hx as [->|Hx]; [congruence|]. by rewrite (IH Hx).
  - by rewrite (Hp _ _ P).
Qed.

(** X13.  Validation does not look at the id, and the search does not guard
    it: as soon as one stored invoice has a truthy id that is not a string
    (a number, [true], an object), every search with a non-empty query
    throws a [TypeError], whatever the query, the platform and the other
    invoices are; nothing is written. *)
Theorem search_throws_on_unsearchable_id (e : env) (st : state)
    (data : gmap string value) (l : list value) (x : value) (q : string) :
  loads st data l →
  x ∈ l →
  truthy (prop x "id") = true →
  (∀ s, prop x "id" ≠ Some (VStr s)) →
  q ≠ "" →
  searchInvoices e (Some q) st = (Throw TypeError, st).
Proof.
  intros Hload Hx Hid Hstr Hq. unfold searchInvoices.
  assert (truthy (VStr <$> Some q) = true) as ->. { by destruct q. }
  cbn [negb]. erewrite bind_Ok; [|by eapply getInvoices_run].
  erewrite bind_Ok; [|reflexivity].
  erewrite bind_Throw; [done|]. unfold lift.
  rewrite (filter_throws _ l x); [done|intros y ex; apply search_match_throws|done|].
  unfold search_match, or_cond.
  destruct x as [| | | | |m|]; try done. cbn [get prop] in *.
  cbn. unfold lower_includes. rewrite Hid.
  destruct (m !! "id") as [[]|]; try done. by destruct (Hstr s).
Qed.

(** ** Initialisation *)

Lemma isStorageAvailable_run probe st :
  _isStorageAvailable probe st =
  match setItem_fault probe with
  | Some _ => (Ok false, st)
  | None => (Ok true, probed st)
  end.
Proof.
  unfold _isStorageAvailable, try_catch, mbind, M_bind, setItem.
  destruct (setItem_fault probe); [done|]. cbn. unfold probed. cbn.
  by rewrite delete_insert_eq.
Qed.

Lemma probed_document st :
  localStorage (probed st) !! STORAGE_KEY = localStorage st !! STORAGE_KEY.
Proof. unfold probed. cbn [localStorage]. by rewrite lookup_delete_ne. Qed.

Lemma get_not_null v k : v ≠ VNull → k ≠ "length" → get (Some v) k = Ok (prop v k).
Proof.
  intros Hv Hk. destruct v; try done; cbn; by rewrite (proj2 (String.eqb_neq _ _) Hk).
Qed.

Lemma init_run probe e st :
  init probe e st =
  (Ok (),
   match setItem_fault probe with
   | Some _ => st
   | None =>
       match init_write st, setItem_fault e with
       | Some v, None => written (probed st) v
       | _, _ => probed st
       end
   end).
Proof.
  unfold init, try_catch at 1.
  pose proof (isStorageAvailable_run probe st) as Ha.
  destruct (setItem_fault probe) as [ex|].
  { erewrite bind_Ok; [|exact Ha]. done. }
  erewrite bind_Ok; [|exact Ha]. cbn [negb].
  erewrite bind_Ok; [|reflexivity]. rewrite probed_document. unfold init_write.
  assert (∀ v,
     match saveData e v (probed st) with
     | (Ok a, st') => (Ok a, st')
     | (Throw _, st') => (Ok (), st')
     end = (Ok (), match setItem_fault e with
                   | None => written (probed st) v | Some _ => probed st end)) as Hwrite.
  { intros v. destruct (setItem_fault e) as [ex|] eqn:F.
    - by rewrite (saveData_rejected _ _ _ _ F).
    - by rewrite (saveData_accepted _ _ _ F). }
  destruct (localStorage st !! STORAGE_KEY) as [[text|v]|].
  - cbn [blob_truthy]. destruct (String.eqb text ""); cbn [negb].
    + unfold _initializeDefaults. apply Hwrite.
    + erewrite bind_Throw; [|reflexivity]. done.
  - cbn [blob_truthy]. erewrite bind_Ok; [|reflexivity].
    assert (v = VNull ∨ v ≠ VNull) as [->|Hv]. { destruct v; auto. }
    { erewrite bind_Throw; [|reflexivity]. done. }
    erewrite bind_Ok; [|unfold lift; by rewrite get_not_null].
    assert (match v with
            | VNull => None
            | _ => if truthy (prop v "version") then None else Some (set_version v)
            end = if truthy (prop v "version") then None else Some (set_version v)) as ->.
    { by destruct v. }
    destruct (truthy (prop v "version")); cbn [negb]; [done|]. apply Hwrite.
  - unfold _initializeDefaults. apply Hwrite.
Qed.

Lemma probed_lookup st k :
  k ≠ "__storage_test__" → localStorage (probed st) !! k = localStorage st !! k.
Proof. intros Hk. unfold probed. cbn [localStorage]. by rewrite lookup_delete_ne. Qed.

Lemma probed_sentinel st : localStorage (probed st) !! "__storage_test__" = None.
Proof. unfold probed. cbn [localStorage]. by rewrite lookup_delete_eq. Qed.

Lemma probed_idempotent st : probed (probed st) = probed st.
Proof.
  unfold probed. cbn [localStorage heap]. f_equal.
  apply delete_id. by rewrite lookup_delete_eq.
Qed.

Lemma probed_written st v : probed (written st v) = written (probed st) v.
Proof.
  unfold probed, written. cbn [localStorage heap]. f_equal.
  by rewrite delete_insert_ne.
Qed.

Lemma written_lookup st v k :
  k ≠ STORAGE_KEY → localStorage (written st v) !! k = localStorage st !! k.
Proof. intros Hk. unfold written. cbn [localStorage]. by rewrite lookup_insert_ne. Qed.

Lemma written_document st v :
  localStorage (written st v) !! STORAGE_KEY = Some (JSON_stringify v).
Proof. unfold written. cbn [localStorage]. by rewrite lookup_insert_eq. Qed.

Lemma written_same st v :
  localStorage st !! STORAGE_KEY = Some (JSON_stringify v) → written st v = st.
Proof.
  intros H. unfold written. destruct st as [ls hp]. cbn in *. f_equal. by apply insert_id.
Qed.

(** X14.  [Storage.init] never throws, whatever the browser holds and
    whether or not its writes are accepted.  It leaves the caller's objects
    and every key other than the document and the probe's sentinel
    [__storage_test__] alone; when the probe's write is refused nothing
    changes at all, and when it is accepted any text stored under the
    sentinel key is gone afterwards. *)
Theorem init_never_throws (probe e : env) (st : state) :
  ∃ st', init probe e st = (Ok (), st')
    ∧ heap st' = heap st
    ∧ (∀ k, k ≠ "invoicer_data" → k ≠ "__storage_test__" →
         localStorage st' !! k = localStorage st !! k)
    ∧ (setItem_fault probe ≠ None → st' = st)
    ∧ (setItem_fault probe = None → localStorage st' !! "__storage_test__" = None).
Proof.
  rewrite init_run. eexists. split; [reflexivity|].
  destruct (setItem_fault probe) as [ex|]; [by repeat split|].
  destruct (init_write st) as [v|], (setItem_fault e) as [ex|];
    (split; [done|]; split; [|split; [done|]]).
  all: try (intros k Hk Hs; rewrite ?written_lookup by done; by apply probed_lookup).
  all: intros _; rewrite ?written_lookup by done; apply probed_sentinel.
Qed.

Lemma getInvoices_of_document st1 st2 :
  get (Some (stored_document st1)) "invoices" = get (Some (stored_document st2)) "invoices" →
  (getInvoices st1).1 = (getInvoices st2).1.
Proof.
  intros H. unfold getInvoices, mbind, M_bind. rewrite !getData_run.
  unfold lift. rewrite H. by destruct (get (Some (stored_document st2)) "invoices").
Qed.

Lemma stored_document_probed st : stored_document (probed st) = stored_document st.
Proof. unfold stored_document. by rewrite probed_document. Qed.

Lemma init_write_document st v :
  init_write st = Some v →
  v = _getDefaults ∧ stored_document st = _getDefaults
  ∨ v = set_version (stored_document st)
    ∧ localStorage st !! STORAGE_KEY = Some (Json (stored_document st))
    ∧ stored_document st ≠ VNull
    ∧ truthy (prop (stored_document st) "version") = false.
Proof.
  unfold init_write, stored_document.
  destruct (localStorage st !! STORAGE_KEY) as [[text|d]|].
  - destruct (String.eqb text ""); [|done]. intros [= <-]. by left.
  - assert (d = VNull ∨ d ≠ VNull) as [->|Hd]; [destruct d; auto|done|].
    assert (match d with
            | VNull => None
            | _ => if truthy (prop d "version") then None else Some (set_version d)
            end = if truthy (prop d "version") then None else Some (set_version d)) as ->.
    { by destruct d. }
    destruct (truthy (prop d "version")) eqn:T; [done|]. intros [= <-]. by right.
  - intros [= <-]. by left.
Qed.

Lemma set_version_prop v k : k ≠ "version" → prop (set_version v) k = prop v k.
Proof. intros Hk. destruct v; try done. cbn. by rewrite lookup_insert_ne. Qed.

Lemma set_version_get v k : k ≠ "version" → get (Some (set_version v)) k = get (Some v) k.
Proof. intros Hk. destruct v; try done. cbn. by rewrite lookup_insert_ne. Qed.

Lemma serialized_set_version v : serialized (set_version v) = set_version (serialized v).
Proof. destruct v; try done. cbn. by rewrite fmap_insert. Qed.

Lemma getInvoices_object st m :
  stored_document st = VObj m →
  (getInvoices st).1 = Ok (or_else (m !! "invoices") (VArr [])).
Proof.
  intros Hd. unfold getInvoices, mbind, M_bind. rewrite getData_run, Hd. done.
Qed.

(** X15.  [Storage.init] does not change the invoices of a stored document
    that holds no numeral beyond the range of the doubles: [getInvoices]
    returns (or throws) after it exactly what it returned before, also when
    [init] stamps a version on a legacy document, writes the defaults, or
    has its writes refused.  Whatever numerals a stored object holds, its
    invoices are afterwards what they were, or what they were as JSON
    writes them, such a numeral being then read back as [null]. *)
Theorem init_keeps_invoices (probe e : env) (st : state) :
  (storable (stored_document st) →
   (getInvoices (init probe e st).2).1 = (getInvoices st).1)
  ∧ (∀ m l, stored_document st = VObj m → m !! "invoices" = Some (VArr l) →
       (getInvoices (init probe e st).2).1 = Ok (VArr l)
       ∨ (getInvoices (init probe e st).2).1 = Ok (VArr (serialized <$> l))).
Proof.
  rewrite init_run. cbn [snd]. split.
  - intros Hs. destruct (setItem_fault probe) as [ex|]; [done|].
    destruct (init_write st) as [v|] eqn:W, (setItem_fault e) as [ex|];
      apply getInvoices_of_document;
      rewrite ?stored_document_written, ?stored_document_probed; try done.
    apply init_write_document in W as [[-> ->]|(-> & _)]; [done|].
    rewrite serialized_set_version, Hs. by apply set_version_get.
  - intros m l Hd Hl.
    assert ((getInvoices st).1 = Ok (VArr l)) as Hbefore.
    { rewrite (getInvoices_object st m Hd), Hl. done. }
    destruct (setItem_fault probe) as [ex|]; [by left|].
    assert ((getInvoices (probed st)).1 = Ok (VArr l)) as Hprobed.
    { rewrite <- Hbefore. apply getInvoices_of_document. by rewrite stored_document_probed. }
    destruct (init_write st) as [v|] eqn:W; [|by left].
    destruct (setItem_fault e) as [ex|]; [by left|].
    apply init_write_document in W as [[-> Hdef]|(-> & _)].
    + left. rewrite <- Hbefore. apply getInvoices_of_document.
      by rewrite stored_document_written, Hdef.
    + right. rewrite Hd. cbn [set_version].
      erewrite getInvoices_object.
      2:{ rewrite stored_document_written. cbn [serialized]. reflexivity. }
      rewrite lookup_fmap, lookup_insert_ne by done. by rewrite Hl.
Qed.

Lemma init_write_probed st : init_write (probed st) = init_write st.
Proof. unfold init_write. by rewrite probed_document. Qed.

Lemma init_rewrites_same st v :
  init_write st = Some v →
  init_write (written st v) = None ∨ init_write (written st v) = Some (serialized v).
Proof.
  intros W. unfold init_write at 1 2. rewrite written_document. unfold JSON_stringify.
  apply init_write_document in W as [[-> _]|(-> & _ & Hn & Hv)]; [by left|].
  destruct (stored_document st) as [| | | | |m|x] eqn:D; try done; try by right.
  - left. cbn. rewrite lookup_fmap, lookup_insert_eq. done.
  - by left.
Qed.

(** X16.  Initialising is idempotent: after one [Storage.init] whose writes
    were accepted, any further [Storage.init] leaves the browser as it is,
    whether or not its own writes are accepted. *)
Theorem init_idempotent (probe e probe2 e2 : env) (st : state) :
  setItem_fault probe = None →
  setItem_fault e = None →
  init probe2 e2 (init probe e st).2 = (Ok (), (init probe e st).2).
Proof.
  intros Hp He. rewrite (init_run probe e st), Hp, He. cbn [snd].
  rewrite init_run. f_equal.
  destruct (setItem_fault probe2) as [ex|]; [done|].
  destruct (init_write st) as [v|] eqn:W.
  - rewrite probed_written, probed_idempotent.
    destruct (init_rewrites_same (probed st) v) as [->| ->];
      [by rewrite init_write_probed|done|].
    destruct (setItem_fault e2); [done|].
    apply written_same. rewrite written_document. unfold JSON_stringify.
    by rewrite serialized_idempotent.
  - rewrite probed_idempotent, init_write_probed, W. done.
Qed.

(** X17.  When the writes are accepted and the stored text is missing,
    empty, or a JSON object, the document stored after [Storage.init] is an
    object with a truthy [version] ([1.0.0] when it had none or a falsy
    one).  Every other property is the one [getData] returned before, or
    that property as JSON writes it: the same when the stored document
    holds no numeral beyond the range of the doubles, so that a legacy
    document keeps its invoices and settings; such a numeral may be read
    back as [null]. *)
Theorem init_establishes_version (probe e : env) (st : state) :
  setItem_fault probe = None →
  setItem_fault e = None →
  is_object (Some (stored_document st)) = true →
  (∀ text, localStorage st !! "invoicer_data" = Some (Unparsable text) → text = "") →
  ∃ m m',
    getData st = (Ok (VObj m), st)
    ∧ localStorage (init probe e st).2 !! "invoicer_data" = Some (Json (VObj m'))
    ∧ truthy (m' !! "version") = true
    ∧ (m !! "version" = m' !! "version" ∨ m' !! "version" = Some (VStr "1.0.0"))
    ∧ (∀ k, k ≠ "version" → m' !! k = m !! k ∨ m' !! k = serialized <$> m !! k)
    ∧ (storable (VObj m) → ∀ k, k ≠ "version" → m' !! k = m !! k).
Proof.
  intros Hp He Hobj Htext. rewrite init_run, Hp, He. cbn [snd].
  rewrite getData_run.
  destruct (stored_document st) as [| | | | |m|] eqn:D; try done.
  destruct (init_write st) as [v|] eqn:W.
  - rewrite written_document. unfold JSON_stringify.
    apply init_write_document in W as [[-> Hd]|(-> & _)].
    + rewrite D in Hd. exists m, m. rewrite Hd. injection Hd as ->.
      by repeat split; auto.
    + rewrite D. cbn [set_version serialized].
      exists m, (serialized <$> <["version" := VStr APP_VERSION]> m).
      split; [done|]. split; [done|]. rewrite lookup_fmap, lookup_insert_eq.
      split; [done|]. split; [by right|]. split.
      * intros k Hk. right. by rewrite lookup_fmap, lookup_insert_ne.
      * intros Hs k Hk. rewrite lookup_fmap, lookup_insert_ne by done.
        by rewrite <- lookup_fmap, (storable_object m Hs).
  - rewrite probed_document. exists m, m.
    unfold init_write, stored_document in *.
    change "invoicer_data" with STORAGE_KEY in Htext.
    destruct (localStorage st !! STORAGE_KEY) as [[text|d]|]; [| |done].
    + rewrite (Htext text eq_refl) in W. done.
    + subst d. cbn [prop] in W. destruct (truthy (m !! "version")) eqn:T; [|done].
      by repeat split; auto.
Qed.

(** A legacy document whose stored text holds the numeral [1e400] as the
    total of an invoice: [getInvoices] returns the total as [Infinity]
    before [Storage.init], and as [null] after it has stamped the version
    and written the document back. *)
Example init_rewrites_huge_total :
  getInvoices Sample2.huge_browser = (Ok (VArr [VObj Sample2.huge]), Sample2.huge_browser)
  ∧ Sample2.huge !! "total" = Some (VNonFinite Infinity)
  ∧ ∃ st' after,
      init Sample.accepting Sample.accepting Sample2.huge_browser = (Ok (), st')
      ∧ getInvoices st' = (Ok (VArr [VObj after]), st')
      ∧ after !! "total" = Some VNull
      ∧ after !! "id" = Sample2.huge !! "id".
Proof.
  split; [reflexivity|]. split; [reflexivity|].
  eexists _, _. split; [reflexivity|]. split; [reflexivity|]. split; reflexivity.
Qed.

(** X18.  [Storage.init] does not repair or overwrite: the stored text is
    left exactly as it is when the probe or the write is refused, when the
    text is not JSON (and not empty), when it is the JSON [null], and when
    the document already carries a truthy version. *)
Theorem init_leaves_document (probe e : env) (st : state) :
  setItem_fault probe ≠ None
  ∨ setItem_fault e ≠ None
  ∨ (∃ text, localStorage st !! "invoicer_data" = Some (Unparsable text) ∧ text ≠ "")
  ∨ localStorage st !! "invoicer_data" = Some (Json VNull)
  ∨ (∃ v, localStorage st !! "invoicer_data" = Some (Json v)
          ∧ truthy (prop v "version") = true) →
  localStorage (init probe e st).2 !! "invoicer_data" = localStorage st !! "invoicer_data".
Proof.
  intros H. rewrite init_run. cbn [snd].
  destruct (setItem_fault probe) as [ex|]; [done|].
  assert (setItem_fault e ≠ None ∨ init_write st = None) as [He|W].
  { destruct H as [H|[H|[(text & H & Ht)|[H|(v & H & Hv)]]]]; [done|by left|right..];
      unfold init_write; change STORAGE_KEY with "invoicer_data"; rewrite H.
    - by rewrite (proj2 (String.eqb_neq _ _) Ht).
    - done.
    - rewrite Hv. by destruct v. }
  - destruct (init_write st), (setItem_fault e); try done; apply probed_document.
  - rewrite W. apply probed_document.
Qed.

(** ** The theme manager *)

Set Warnings "-clear-no-such-hyp".

Lemma getStoredTheme_run st :
  ThemeManager.getStoredTheme st = (Ok (current_theme st), st).
Proof. reflexivity. Qed.

Lemma applyTheme_run theme pg :
  ThemeManager.applyTheme theme pg =
  (Ok (), {| browser := browser pg;
             classList := classList (ThemeManager.applyTheme theme pg).2;
             alerts := alerts pg |}).
Proof. reflexivity. Qed.

Lemma toggleTheme_run e pg :
  ThemeManager.toggleTheme e pg =
  let name := if ThemeManager.theme_is (current_theme (browser pg)) "dark"
              then "light" else "dark" in
  match setItem_fault e with
  | Some ex => (Throw ex, pg)
  | None =>
      ThemeManager.applyTheme (Unparsable name)
        {| browser := themed (browser pg) name; classList := classList pg;
           alerts := alerts pg |}
  end.
Proof.
  unfold ThemeManager.toggleTheme, mbind, P_bind, run.
  rewrite getStoredTheme_run. cbn [browser classList alerts].
  unfold setItem. destruct pg as [st cl al]. cbn [browser classList alerts].
  by destruct (setItem_fault e).
Qed.

Lemma current_theme_themed st name :
  name ≠ "" → current_theme (themed st name) = Unparsable name.
Proof.
  intros Hn. unfold current_theme, themed. cbn [localStorage].
  rewrite lookup_insert_eq. cbn [blob_truthy].
  by rewrite (proj2 (String.eqb_neq _ _) Hn).
Qed.

(** X19.  [applyTheme] leaves the root element with exactly one of the two
    theme classes, [light] for the theme [light] and [dark] for anything
    else, and leaves every other class, the stored data and the alerts as
    they were. *)
Theorem applyTheme_shows_one_theme (theme : blob) (pg : page) :
  ∃ pg', ThemeManager.applyTheme theme pg = (Ok (), pg')
    ∧ browser pg' = browser pg ∧ alerts pg' = alerts pg
    ∧ ("light" ∈ classList pg' ↔ ThemeManager.theme_is theme "light" = true)
    ∧ ("dark" ∈ classList pg' ↔ ThemeManager.theme_is theme "light" = false)
    ∧ ∀ c, c ≠ "dark" → c ≠ "light" → (c ∈ classList pg' ↔ c ∈ classList pg).
Proof.
  eexists. split; [reflexivity|]. cbn [browser alerts classList].
  unfold ThemeManager.DARK_CLASS, ThemeManager.LIGHT_CLASS.
  split; [done|]. split; [done|].
  destruct (ThemeManager.theme_is theme "light"); (split; [|split]); set_solver.
Qed.

(** X20.  When its write is accepted, [toggleTheme] stores the other theme:
    [light] when the stored theme was [dark] (or none was stored), [dark]
    in every other case, so that the stored theme is one of the two
    afterwards also when it was neither before.  The root element shows the
    stored theme, and the invoice document, every other key, the caller's
    objects and the alerts are untouched. *)
Theorem toggleTheme_flips (e : env) (pg : page) :
  setItem_fault e = None →
  ∃ pg' old new,
    ThemeManager.getStoredTheme (browser pg) = (Ok old, browser pg)
    ∧ ThemeManager.toggleTheme e pg = (Ok (), pg')
    ∧ ThemeManager.getStoredTheme (browser pg') = (Ok new, browser pg')
    ∧ valid_theme new = true
    ∧ ThemeManager.theme_is new "light" = ThemeManager.theme_is old "dark"
    ∧ ("light" ∈ classList pg' ↔ ThemeManager.theme_is new "light" = true)
    ∧ ("dark" ∈ classList pg' ↔ ThemeManager.theme_is new "dark" = true)
    ∧ (∀ k, k ≠ "invoicer-theme" → stored_text pg' k = stored_text pg k)
    ∧ heap (browser pg') = heap (browser pg)
    ∧ alerts pg' = alerts pg.
Proof.
  intros He. rewrite toggleTheme_run, He. cbn zeta.
  set (old := current_theme (browser pg)).
  set (name := if ThemeManager.theme_is old "dark" then "light" else "dark").
  assert (name ≠ "") as Hname. { unfold name. by destruct (ThemeManager.theme_is old "dark"). }
  eexists _, old, (Unparsable name). split; [apply getStoredTheme_run|].
  split; [apply applyTheme_run|]. cbn [browser alerts classList].
  split. { rewrite getStoredTheme_run. by rewrite current_theme_themed. }
  split. { unfold name. by destruct (ThemeManager.theme_is old "dark"). }
  split. { unfold name. by destruct (ThemeManager.theme_is old "dark"). }
  unfold ThemeManager.DARK_CLASS, ThemeManager.LIGHT_CLASS.
  split; [|split; [|split; [|done]]].
  - unfold name. destruct (ThemeManager.theme_is old "dark"); cbn; set_solver.
  - unfold name. destruct (ThemeManager.theme_is old "dark"); cbn; set_solver.
  - intros k Hk. unfold stored_text, themed. cbn [browser localStorage].
    by rewrite lookup_insert_ne.
Qed.



(** X22.  [toggleTheme] has no handler around its write: when the platform
    refuses it, the platform's own exception reaches the caller, nothing is
    stored and the root element keeps its classes. *)
Theorem toggleTheme_write_refused (e : env) (pg : page) (ex : exn) :
  setItem_fault e = Some ex →
  ThemeManager.toggleTheme e pg = (Throw ex, pg).
Proof. intros He. by rewrite toggleTheme_run, He. Qed.

(** ** Escaping *)

Lemma occurs_append c a b :
  occurs c (String.append a b) = occurs c a || occurs c b.
Proof.
  induction a as [|d a IH]; [done|]. rewrite append_cons. cbn [occurs].
  by rewrite IH, orb_assoc.
Qed.

Lemma occurs_replaceAll_same c r s :
  occurs c r = false → occurs c (UI.replaceAll c r s) = false.
Proof.
  intros Hr. induction s as [|d s IH]; [done|]. cbn [UI.replaceAll].
  destruct (Ascii.eqb d c) eqn:E.
  - by rewrite occurs_append, Hr, IH.
  - cbn [occurs]. by rewrite E, IH.
Qed.

Lemma occurs_replaceAll_other c d r s :
  occurs c r = false → occurs c s = false → occurs c (UI.replaceAll d r s) = false.
Proof.
  intros Hr. induction s as [|x s IH]; [done|]. cbn [occurs UI.replaceAll].
  intros [Hx Hs]%orb_false_iff. destruct (Ascii.eqb x d).
  - by rewrite occurs_append, Hr, IH.
  - cbn [occurs]. by rewrite Hx, IH.
Qed.

Lemma replaceAll_absent c r s : occurs c s = false → UI.replaceAll c r s = s.
Proof.
  induction s as [|x s IH]; [done|]. cbn [occurs UI.replaceAll].
  intros [Hx Hs]%orb_false_iff. by rewrite Hx, IH.
Qed.

Lemma replaceAll_itself c s : UI.replaceAll c (String c "") s = s.
Proof.
  induction s as [|x s IH]; [done|]. cbn [UI.replaceAll].
  destruct (Ascii.eqb_spec x c) as [->|]; by rewrite IH.
Qed.

(** X23.  The text returned by [escapeHtml] contains neither a double nor
    a single quote, whatever the input.  The replacements of [&], [<] and
    [>] put the character itself, so a text without quotes is returned
    as it is, markup included. *)
Theorem escapeHtml_quotes_only (str : option string) :
  occurs UI.dquote (UI.escapeHtml str) = false
  ∧ occurs "'"%char (UI.escapeHtml str) = false
  ∧ (∀ s, str = Some s → occurs UI.dquote s = false → occurs "'"%char s = false →
       UI.escapeHtml str = s).
Proof.
  unfold UI.escapeHtml.
  destruct (negb (truthy (VStr <$> str))) eqn:T.
  - split; [done|]. split; [done|]. intros s -> _ _. by destruct s.
  - rewrite !replaceAll_itself. split; [|split].
    + apply occurs_replaceAll_other; [done|]. by apply occurs_replaceAll_same.
    + by apply occurs_replaceAll_same.
    + intros s -> Hd Hs. change (default "" (Some s)) with s.
      by rewrite (replaceAll_absent UI.dquote), replaceAll_absent.
Qed.

(** ** The save and delete handlers *)

Lemma deleteInvoice_returns e id st : ∃ b st', deleteInvoice e id st = (Ok b, st').
Proof.
  unfold deleteInvoice, try_catch.
  match goal with |- context [match ?x with _ => _ end] => destruct x as [[b|ex] st'] end;
    by eexists _, _.
Qed.

(** X24.  [handleSave] reads the form first.  When the invoice read from
    the form fails validation, it shows the alert [Failed to save invoice.
    Please check data.] and does nothing else after the reading of the
    form: nothing is stored, and the dashboard is not reloaded. *)
Theorem handleSave_invalid_invoice (getFormData : P arg) (loadDashboard : P ()) (e : env)
    (invoiceData : arg) (pg pg1 : page) :
  getFormData pg = (Ok invoiceData, pg1) →
  violates_validation (value_of (browser pg1) invoiceData) = true →
  App.handleSave getFormData loadDashboard e pg =
  alert (Message "Failed to save invoice. Please check data.") pg1.
Proof.
  intros Hform Hv. unfold App.handleSave, mbind, P_bind. rewrite Hform.
  unfold try_catch_page, run.
  by rewrite (saveInvoice_invalid _ _ _ (validate_violates _ Hv)).
Qed.

(** X25.  When the form has been read and the platform refuses the write
    of the valid invoice read from it, [handleSave] catches the storage
    error and shows it in an alert, the quota error or the write error;
    [localStorage] and the classes are as the reading of the form left
    them, and the dashboard is not reloaded. *)
Theorem handleSave_write_refused (getFormData : P arg) (loadDashboard : P ()) (e : env)
    (ex : exn) (pg pg1 : page) (r : loc) (inv data : gmap string value) (l : list value) :
  getFormData pg = (Ok (Object r), pg1) →
  setItem_fault e = Some ex →
  heap (browser pg1) !! r = Some inv →
  _validateInvoice (Some (VObj inv)) = Ok true →
  loads (browser pg1) data l →
  ∃ pg', App.handleSave getFormData loadDashboard e pg = (Ok (), pg')
    ∧ alerts pg' = (alerts pg1 ++ [ErrorMessage (storage_error ex (browser pg1))])%list
    ∧ (storage_error ex (browser pg1) = QuotaExceeded
       ∨ storage_error ex (browser pg1) = WriteError)
    ∧ localStorage (browser pg') = localStorage (browser pg1)
    ∧ classList pg' = classList pg1.
Proof.
  intros Hform F Hr Hv Hload.
  destruct (saveInvoice_rejected e ex _ r inv data l F Hr Hv Hload) as (st' & Hrun & Hls).
  unfold App.handleSave, mbind, P_bind. rewrite Hform.
  unfold try_catch_page, run. rewrite Hrun.
  eexists. split; [reflexivity|]. cbn [alerts browser classList].
  split; [done|]. split; [apply storage_error_is_StorageError|]. done.
Qed.

(** X26.  [handleDelete] does nothing at all when the user does not
    confirm.  When the user confirms, a refused write and an id that no
    stored invoice has end in the same way: the alert [Failed to delete
    invoice.], nothing else changed and the dashboard not reloaded. *)
Theorem handleDelete_failure (loadDashboard : P ()) (e : env) (id : option value)
    (pg : page) (data : gmap string value) (l : list value) :
  loads (browser pg) data l →
  setItem_fault e ≠ None ∨ (∀ x, x ∈ l → same_id id x = false) →
  App.handleDelete loadDashboard true e id pg = alert (Message "Failed to delete invoice.") pg
  ∧ App.handleDelete loadDashboard false e id pg = (Ok (), pg).
Proof.
  intros Hload H. split; [|done].
  assert (deleteInvoice e id (browser pg) = (Ok false, browser pg)) as Hrun.
  { rewrite (deleteInvoice_run e id _ data l Hload). cbn zeta.
    destruct H as [H|H].
    - destruct (setItem_fault e); [|done]. by destruct (Nat.eqb _ _).
    - rewrite filter_keeps_all; [by rewrite Nat.eqb_refl|]. intros x Hx. by rewrite H. }
  unfold App.handleDelete, mbind, P_bind, run. by rewrite Hrun.
Qed.

(** X27.  [handleSave] reads the form before its [try]: what the reading
    of the form throws, [handleSave] throws, with nothing saved and no
    alert of its own.  Once the form is read [handleSave] does not throw:
    what [saveInvoice] or the reload of the dashboard throws ends in an
    alert.  [handleDelete] has no handler, but [deleteInvoice] never
    throws, so [handleDelete] throws only what the reload of the dashboard
    throws. *)
Theorem handlers_contain_exceptions (getFormData : P arg) (loadDashboard : P ()) (e : env)
    (confirmed : bool) (id : option value) (pg : page) :
  (∀ ex pg1, getFormData pg = (Throw ex, pg1) →
     App.handleSave getFormData loadDashboard e pg = (Throw ex, pg1))
  ∧ (∀ invoiceData pg1, getFormData pg = (Ok invoiceData, pg1) →
       ∃ pg', App.handleSave getFormData loadDashboard e pg = (Ok (), pg'))
  ∧ ((∀ pg0, ∃ pg1, loadDashboard pg0 = (Ok (), pg1)) →
     ∃ pg', App.handleDelete loadDashboard confirmed e id pg = (Ok (), pg')).
Proof.
  split; [|split].
  - intros ex pg1 Hform. unfold App.handleSave, mbind, P_bind. by rewrite Hform.
  - intros invoiceData pg1 Hform. unfold App.handleSave, mbind, P_bind. rewrite Hform.
    unfold try_catch_page, run.
    destruct (saveInvoice e invoiceData (browser pg1)) as [[[]|ex] st']; try by eexists.
    destruct (loadDashboard _) as [[[]|ex] pg']; by eexists.
  - intros Hld. unfold App.handleDelete. destruct confirmed; [|by eexists].
    unfold mbind, P_bind, run.
    destruct (deleteInvoice_returns e id (browser pg)) as (b & st' & ->).
    destruct b; [apply Hld|by eexists].
Qed.

(** ** The properties above, at the sample data *)

Lemma sample_distinct : distinct_ids [VObj Sample.globex].
Proof. split; [|exact I]. intros y Hy. by apply elem_of_nil in Hy. Qed.

Lemma numbered_loads :
  loads Sample2.numbered_browser Sample2.numbered_document [VObj Sample2.numbered].
Proof. split; [reflexivity|]. split; [reflexivity|]. by repeat constructor. Qed.

Lemma writes_touch_only_the_document_witness :
  "invoicer-theme" ≠ "invoicer_data"
  ∧ localStorage (saveInvoice Sample.accepting (Object 0) Sample.browser).2 !! "invoicer-theme" =
      localStorage Sample.browser !! "invoicer-theme"
  ∧ (ThemeManager.getStoredTheme
       (deleteInvoice Sample.accepting (Some (VStr "a1")) Sample.browser).2).1 =
      (ThemeManager.getStoredTheme Sample.browser).1.
Proof.
  destruct (writes_touch_only_the_document Sample.accepting (Object 0) (Some (VStr "a1"))
              VNull Sample.browser "invoicer-theme") as (H1 & _ & _ & _ & H5); [discriminate|].
  split; [discriminate|]. split; [exact H1|exact H5].
Defined.

Lemma getInvoices_edge_cases_witness :
  localStorage Sample2.null_browser !! STORAGE_KEY = Some (Json VNull)
  ∧ getInvoices Sample2.null_browser = (Throw TypeError, Sample2.null_browser)
  ∧ getInvoices Sample.damaged_browser = (Ok (VArr []), Sample.damaged_browser).
Proof.
  split; [reflexivity|]. split.
  - apply (proj1 (proj2 (getInvoices_edge_cases Sample2.null_browser))). reflexivity.
  - apply (proj2 (proj2 (getInvoices_edge_cases Sample.damaged_browser))). exact I.
Defined.

Lemma getInvoice_first_or_null_witness :
  loads Sample.browser Sample.document [VObj Sample.globex]
  ∧ getInvoice (Some (VStr "a1")) Sample.browser = (Ok (VObj Sample.globex), Sample.browser)
  ∧ getInvoice (Some (VStr "b2")) Sample.browser = (Ok VNull, Sample.browser).
Proof.
  split; [exact sample_loads|]. split.
  - destruct (getInvoice_first_or_null Sample.browser Sample.document [VObj Sample.globex]
                (Some (VStr "a1")) sample_loads) as (H & _).
    exact (H 0 (VObj Sample.globex) sample_first_match).
  - destruct (getInvoice_first_or_null Sample.browser Sample.document [VObj Sample.globex]
                (Some (VStr "b2")) sample_loads) as (_ & H & _).
    apply H, sample_no_match. reflexivity.
Defined.

Lemma missing_invoices_block_writes_witness :
  prop (stored_document Sample2.bare_browser) "invoices" = None
  ∧ saveInvoice Sample.accepting (Object 0) Sample2.bare_browser = (Ok false, Sample2.bare_browser)
  ∧ deleteInvoice Sample.accepting (Some (VStr "a1")) Sample2.bare_browser =
      (Ok false, Sample2.bare_browser).
Proof.
  split; [reflexivity|].
  apply missing_invoices_block_writes. intros l.
  assert (prop (stored_document Sample2.bare_browser) "invoices" = None) as -> by reflexivity.
  discriminate.
Defined.

Lemma first_save_replaces_stored_text_witness :
  localStorage Sample.fresh_browser !! STORAGE_KEY = None
  ∧ ∃ (defaults : gmap string value) (st' : state),
      _getDefaults = VObj defaults
      ∧ saveInvoice Sample.accepting (Object 0) Sample.fresh_browser = (Ok true, st')
      ∧ localStorage st' !! STORAGE_KEY =
          Some (JSON_stringify
                  (VObj (<["invoices" := VArr [VObj (created Sample.accepting Sample.acme)]]>
                           defaults)))
      ∧ ∀ id, deleteInvoice Sample.accepting id Sample.fresh_browser =
              (Ok false, Sample.fresh_browser).
Proof.
  split; [reflexivity|].
  apply (first_save_replaces_stored_text Sample.accepting Sample.fresh_browser 0 Sample.acme);
    [exact I|reflexivity|reflexivity|reflexivity].
Defined.

Lemma repository_keeps_ids_distinct_witness :
  saveInvoice Sample.accepting (Object 0) Sample.browser = (Ok true, Sample2.saved_browser)
  ∧ distinct_ids (stored_invoices Sample2.saved_browser).
Proof.
  split; [reflexivity|].
  destruct (repository_keeps_ids_distinct Sample.accepting Sample.browser Sample2.saved_browser
              Sample.document [VObj Sample.globex] sample_loads eq_refl sample_distinct)
    as [H _].
  apply (H 0 Sample.acme); [reflexivity|reflexivity| |reflexivity].
  intros _. apply sample_no_match. reflexivity.
Defined.

Lemma saving_twice_stores_once_witness :
  saveInvoice Sample.accepting (Object 0) Sample.browser = (Ok true, Sample2.saved_browser)
  ∧ ∃ st2,
      saveInvoice Sample.accepting (Object 0) Sample2.saved_browser = (Ok true, st2)
      ∧ length (stored_invoices st2) = length (stored_invoices Sample2.saved_browser).
Proof.
  split; [reflexivity|].
  destruct (saving_twice_stores_once Sample.accepting Sample.accepting Sample.browser
              Sample2.saved_browser 0 Sample.acme Sample.document [VObj Sample.globex])
    as (st2 & obj & i & old & _ & _ & H3 & _ & H5);
    [reflexivity|exact sample_loads|reflexivity|reflexivity| |reflexivity|reflexivity|].
  - intros _. apply sample_no_match. reflexivity.
  - exists st2. split; [exact H3|exact H5].
Defined.

Lemma delete_undoes_create_witness :
  (∀ x, x ∈ [VObj Sample.globex] → same_id (Sample.acme !! "id") x = false)
  ∧ ∃ (st1 st2 : state) (obj : gmap string value),
      saveInvoice Sample.accepting (Object 0) Sample.browser = (Ok true, st1)
      ∧ heap st1 !! 0 = Some obj
      ∧ deleteInvoice Sample.accepting (obj !! "id") st1 = (Ok true, st2)
      ∧ getData st2 = (Ok (VObj Sample.document), st2)
      ∧ stored_invoices st2 = [VObj Sample.globex].
Proof.
  split; [apply sample_no_match; reflexivity|].
  apply (delete_undoes_create Sample.accepting Sample.accepting Sample.browser 0 Sample.acme
           Sample.document [VObj Sample.globex]);
    [reflexivity|reflexivity|exact sample_loads|reflexivity
    |apply sample_no_match; reflexivity|reflexivity| |reflexivity|reflexivity].
  intros _. apply sample_no_match. reflexivity.
Defined.

Lemma deleted_invoice_is_gone_witness :
  deleteInvoice Sample.accepting (Some (VStr "a1")) Sample.browser =
    (Ok true, Sample2.emptied_browser)
  ∧ getInvoice (Some (VStr "a1")) Sample2.emptied_browser = (Ok VNull, Sample2.emptied_browser)
  ∧ deleteInvoice Sample.accepting (Some (VStr "a1")) Sample2.emptied_browser =
      (Ok false, Sample2.emptied_browser).
Proof.
  split; [reflexivity|].
  destruct (deleted_invoice_is_gone Sample.accepting Sample.browser Sample2.emptied_browser
              (Some (VStr "a1")) Sample.document [VObj Sample.globex] sample_loads eq_refl
              eq_refl)
    as (H1 & H2 & _).
  split; [exact H1|exact (H2 Sample.accepting)].
Defined.

Lemma search_ignores_query_case_witness :
  toLowerCase Sample.accepting "ACME" = toLowerCase Sample.accepting "Acme"
  ∧ searchInvoices Sample.accepting (Some "ACME") Sample.search_browser =
      searchInvoices Sample.accepting (Some "Acme") Sample.search_browser
  ∧ searchInvoices Sample.accepting (Some "ACME") Sample.search_browser =
      searchInvoices Sample.accepting (Some "acme") Sample.search_browser.
Proof.
  split; [reflexivity|].
  destruct (search_ignores_query_case Sample.accepting Sample.search_browser "ACME" "Acme")
    as [H1 H2]; [reflexivity|by split|].
  split; [exact H1|]. apply H2; [reflexivity|by split].
Defined.

Lemma search_returns_stored_invoices_witness :
  searchInvoices Sample.accepting (Some "a1") Sample.browser =
    (Ok (VArr [VObj Sample.globex]), Sample.browser)
  ∧ ∃ l, getInvoices Sample.browser = (Ok (VArr l), Sample.browser)
         ∧ sublist [VObj Sample.globex] l ∧ Sample.browser = Sample.browser.
Proof.
  split; [reflexivity|].
  apply (search_returns_stored_invoices Sample.accepting Sample.browser Sample.browser
           (Some "a1")).
  reflexivity.
Defined.

Lemma search_throws_on_unsearchable_id_witness :
  prop (VObj Sample2.numbered) "id" = Some (VNum 7)
  ∧ searchInvoices Sample.accepting (Some "hooli") Sample2.numbered_browser =
      (Throw TypeError, Sample2.numbered_browser).
Proof.
  split; [reflexivity|].
  apply (search_throws_on_unsearchable_id Sample.accepting Sample2.numbered_browser
           Sample2.numbered_document
           [VObj Sample2.numbered] (VObj Sample2.numbered) "hooli");
    [exact numbered_loads|apply list_elem_of_here|reflexivity| |discriminate].
  intros s. assert (prop (VObj Sample2.numbered) "id" = Some (VNum 7)) as -> by reflexivity.
  discriminate.
Defined.

Lemma init_never_throws_witness :
  ∃ st', init Sample.full Sample.accepting Sample.fresh_browser = (Ok (), st')
         ∧ st' = Sample.fresh_browser.
Proof.
  destruct (init_never_throws Sample.full Sample.accepting Sample.fresh_browser)
    as (st' & Hrun & _ & _ & Hsame & _).
  exists st'. split; [exact Hrun|]. apply Hsame. discriminate.
Defined.

Lemma init_keeps_invoices_witness :
  (getInvoices (init Sample.accepting Sample.accepting Sample2.legacy_browser).2).1 =
    Ok (VArr [VObj Sample.globex])
  ∧ ((getInvoices (init Sample.accepting Sample.accepting Sample2.huge_browser).2).1 =
       Ok (VArr [VObj Sample2.huge])
     ∨ (getInvoices (init Sample.accepting Sample.accepting Sample2.huge_browser).2).1 =
         Ok (VArr (serialized <$> [VObj Sample2.huge]))).
Proof.
  split.
  - destruct (init_keeps_invoices Sample.accepting Sample.accepting Sample2.legacy_browser)
      as [H _].
    rewrite H; reflexivity.
  - destruct (init_keeps_invoices Sample.accepting Sample.accepting Sample2.huge_browser)
      as [_ H].
    apply (H Sample2.huge_document); reflexivity.
Defined.

Lemma init_idempotent_witness :
  init Sample.full Sample.accepting
    (init Sample.accepting Sample.accepting Sample2.legacy_browser).2 =
  (Ok (), (init Sample.accepting Sample.accepting Sample2.legacy_browser).2).
Proof.
  apply (init_idempotent Sample.accepting Sample.accepting Sample.full Sample.accepting
           Sample2.legacy_browser); reflexivity.
Defined.

Lemma init_establishes_version_witness :
  localStorage Sample2.legacy_browser !! "invoicer_data" =
    Some (Json (VObj Sample2.legacy_document))
  ∧ ∃ m m',
      getData Sample2.legacy_browser = (Ok (VObj m), Sample2.legacy_browser)
      ∧ localStorage (init Sample.accepting Sample.accepting Sample2.legacy_browser).2
          !! "invoicer_data" = Some (Json (VObj m'))
      ∧ truthy (m' !! "version") = true
      ∧ (m !! "version" = m' !! "version" ∨ m' !! "version" = Some (VStr "1.0.0"))
      ∧ (∀ k, k ≠ "version" → m' !! k = m !! k ∨ m' !! k = serialized <$> m !! k)
      ∧ (storable (VObj m) → ∀ k, k ≠ "version" → m' !! k = m !! k).
Proof.
  split; [reflexivity|].
  apply (init_establishes_version Sample.accepting Sample.accepting Sample2.legacy_browser);
    [reflexivity|reflexivity|reflexivity|].
  intros text.
  assert (localStorage Sample2.legacy_browser !! "invoicer_data" =
          Some (Json (VObj Sample2.legacy_document))) as -> by reflexivity.
  discriminate.
Defined.

Lemma init_leaves_document_witness :
  localStorage (init Sample.accepting Sample.accepting Sample.damaged_browser).2
    !! "invoicer_data" = Some (Unparsable "{'version':").
Proof.
  apply (init_leaves_document Sample.accepting Sample.accepting Sample.damaged_browser).
  right. right. left. exists "{'version':". split; [reflexivity|discriminate].
Defined.

Lemma applyTheme_shows_one_theme_witness :
  ∃ pg', ThemeManager.applyTheme (Unparsable "light") Sample2.dark_page = (Ok (), pg')
         ∧ "light" ∈ classList pg'
         ∧ ("no-js" ∈ classList pg' ↔ "no-js" ∈ classList Sample2.dark_page).
Proof.
  destruct (applyTheme_shows_one_theme (Unparsable "light") Sample2.dark_page)
    as (pg' & Hrun & _ & _ & Hlight & _ & Hother).
  exists pg'. split; [exact Hrun|]. split.
  - apply Hlight. reflexivity.
  - apply Hother; discriminate.
Defined.

Lemma toggleTheme_flips_witness :
  setItem_fault Sample.accepting = None
  ∧ ∃ pg' old new,
      ThemeManager.getStoredTheme (browser Sample2.dark_page) =
        (Ok old, browser Sample2.dark_page)
      ∧ ThemeManager.toggleTheme Sample.accepting Sample2.dark_page = (Ok (), pg')
      ∧ ThemeManager.getStoredTheme (browser pg') = (Ok new, browser pg')
      ∧ valid_theme new = true
      ∧ ThemeManager.theme_is new "light" = ThemeManager.theme_is old "dark"
      ∧ ("light" ∈ classList pg' ↔ ThemeManager.theme_is new "light" = true)
      ∧ ("dark" ∈ classList pg' ↔ ThemeManager.theme_is new "dark" = true)
      ∧ (∀ k, k ≠ "invoicer-theme" → stored_text pg' k = stored_text Sample2.dark_page k)
      ∧ heap (browser pg') = heap (browser Sample2.dark_page)
      ∧ alerts pg' = alerts Sample2.dark_page.
Proof.
  split; [reflexivity|].
  apply (toggleTheme_flips Sample.accepting Sample2.dark_page). reflexivity.
Defined.


Lemma toggleTheme_write_refused_witness :
  ThemeManager.toggleTheme Sample.full Sample2.dark_page =
    (Throw Sample.quota_error, Sample2.dark_page).
Proof.
  apply (toggleTheme_write_refused Sample.full Sample2.dark_page Sample.quota_error).
  reflexivity.
Defined.

Lemma escapeHtml_quotes_only_witness :
  UI.escapeHtml (Some "<b>Acme & Co</b>") = "<b>Acme & Co</b>".
Proof.
  destruct (escapeHtml_quotes_only (Some "<b>Acme & Co</b>")) as (_ & _ & H).
  apply H; reflexivity.
Defined.

Lemma handleSave_invalid_invoice_witness :
  violates_validation (value_of (browser Sample2.dark_page) (Object 2)) = true
  ∧ App.handleSave (mret (Object 2)) (mret ()) Sample.accepting Sample2.dark_page =
      alert (Message "Failed to save invoice. Please check data.") Sample2.dark_page.
Proof.
  split; [reflexivity|].
  apply (handleSave_invalid_invoice (mret (Object 2)) (mret ()) Sample.accepting (Object 2)
           Sample2.dark_page Sample2.dark_page); reflexivity.
Defined.

Lemma handleSave_write_refused_witness :
  ∃ pg', App.handleSave (mret (Object 0)) (mret ()) Sample2.failing Sample2.dark_page =
         (Ok (), pg')
    ∧ alerts pg' = [ErrorMessage WriteError]
    ∧ localStorage (browser pg') = localStorage (browser Sample2.dark_page).
Proof.
  destruct (handleSave_write_refused (mret (Object 0)) (mret ()) Sample2.failing
              (DOMException 18 "SecurityError") Sample2.dark_page Sample2.dark_page 0
              Sample.acme Sample.document [VObj Sample.globex])
    as (pg' & Hrun & Halerts & _ & Hls & _);
    [reflexivity|reflexivity|reflexivity|reflexivity|exact sample_loads|].
  exists pg'. split; [exact Hrun|]. split; [exact Halerts|exact Hls].
Defined.

Lemma handleDelete_failure_witness :
  App.handleDelete (mret ()) true Sample2.failing (Some (VStr "a1")) Sample2.dark_page =
    alert (Message "Failed to delete invoice.") Sample2.dark_page
  ∧ App.handleDelete (mret ()) true Sample.accepting (Some (VStr "b2")) Sample2.dark_page =
      alert (Message "Failed to delete invoice.") Sample2.dark_page.
Proof.
  split.
  - apply (handleDelete_failure (mret ()) Sample2.failing (Some (VStr "a1")) Sample2.dark_page
             Sample.document [VObj Sample.globex] sample_loads).
    left. discriminate.
  - apply (handleDelete_failure (mret ()) Sample.accepting (Some (VStr "b2"))
             Sample2.dark_page Sample.document [VObj Sample.globex] sample_loads).
    right. apply sample_no_match. reflexivity.
Defined.

Lemma handlers_contain_exceptions_witness :
  App.handleSave (λ pg, (Throw TypeError, pg)) (mret ()) Sample.accepting Sample2.dark_page =
    (Throw TypeError, Sample2.dark_page)
  ∧ (∃ pg', App.handleSave (mret (Object 0)) (mret ()) Sample.accepting Sample2.dark_page =
            (Ok (), pg'))
  ∧ ∃ pg', App.handleDelete (mret ()) true Sample.accepting (Some (VStr "a1"))
             Sample2.dark_page = (Ok (), pg').
Proof.
  split; [|split].
  - apply (proj1 (handlers_contain_exceptions (λ pg, (Throw TypeError, pg)) (mret ())
                    Sample.accepting true None Sample2.dark_page)). reflexivity.
  - apply (proj1 (proj2 (handlers_contain_exceptions (mret (Object 0)) (mret ())
                           Sample.accepting true None Sample2.dark_page))
             (Object 0) Sample2.dark_page). reflexivity.
  - apply (proj2 (proj2 (handlers_contain_exceptions (mret (Object 0)) (mret ())
                           Sample.accepting true (Some (VStr "a1")) Sample2.dark_page))).
    intros pg0. exists pg0. reflexivity.
Defined.
